(** * AliOSS: the upload coordinator of xy-alioss

    A shallow embedding of [src/Alioss.js] (class [AliOSS]): the lazily
    constructed backend client, the event queue that serialises the calls
    of [put] and [multipartUpload], and the bounded retry of multipart
    uploads.

    JavaScript is single threaded: a call runs until it returns or reaches
    an [await].  The embedding is a deterministic machine whose inputs are
    the calls of the public methods and the moments at which a suspended
    piece of code is resumed (a promise of the environment settles, a
    continuation is taken from the microtask queue). *)

From Stdlib Require Import ZArith Ascii.
From stdpp Require Import base gmap strings list fin_maps pretty.

Local Open Scope Z_scope.
Local Open Scope nat_scope.

(** ** JavaScript values *)

(** What a function value of the options does when it is called without
    arguments: the defaults [() => {}] return [undefined]; a provider
    written for [async: true] returns a promise. *)
Inductive callee :=
| ReturnsNothing
| ReturnsPromise.

#[local] Set Warnings "-register-all".

(** Numbers are the integers: the code only counts with them. *)
Inductive value :=
| VUndefined
| VNull
| VBool (b : bool)
| VNum (n : Z)
| VStr (s : string)
| VFun (f : callee)
| VObj (fields : list (string * value)).

(** An object is the list of its own properties in insertion order; the
    first binding of a key is the effective one. *)
Abbreviation obj := (list (string * value)).

Fixpoint lookup_field (k : string) (o : obj) : option value :=
  match o with
  | [] => None
  | (k', v) :: o' => if decide (k = k') then Some v else lookup_field k o'
  end.

(** [o.hasOwnProperty(k)] *)
Definition has_field (k : string) (o : obj) : bool :=
  match lookup_field k o with Some _ => true | None => false end.

Definition fields_of (v : value) : obj :=
  match v with VObj o => o | _ => [] end.

(** [v?.k] *)
Definition get (k : string) (v : value) : value :=
  default VUndefined (lookup_field k (fields_of v)).

Definition is_obj (v : value) : bool :=
  match v with VObj _ => true | _ => false end.

(** ToBoolean *)
Definition truthy (v : value) : bool :=
  match v with
  | VUndefined | VNull => false
  | VBool b => b
  | VNum n => negb (n =? 0)%Z
  | VStr s => negb (String.eqb s "")
  | VFun _ | VObj _ => true
  end.

(** [a || b] *)
Definition js_or (a b : value) : value := if truthy a then a else b.

Definition digit_of (c : Ascii.ascii) : option Z :=
  let n := Ascii.nat_of_ascii c in
  if (48 <=? n) && (n <=? 57) then Some (Z.of_nat (n - 48)) else None.

Fixpoint digits_value (acc : Z) (s : string) : option Z :=
  match s with
  | EmptyString => Some acc
  | String c s' =>
      match digit_of c with
      | Some d => digits_value (10 * acc + d)%Z s'
      | None => None
      end
  end.

(** ToNumber, [None] standing for NaN.  Of the numeric strings only the
    plain decimal numerals are read. *)
Definition to_number (v : value) : option Z :=
  match v with
  | VUndefined => None
  | VNull => Some 0%Z
  | VBool b => Some (if b then 1 else 0)%Z
  | VNum n => Some n
  | VStr s => digits_value 0 s
  | VFun _ | VObj _ => None
  end.

(** [count < v] for a number [count] *)
Definition js_lt (count : nat) (v : value) : bool :=
  match to_number v with
  | Some n => (Z.of_nat count <? n)%Z
  | None => false
  end.

(** The own enumerable properties that [{...v}] copies. *)
Definition own_props (v : value) : obj :=
  match v with
  | VObj o => o
  | VStr s =>
      imap (fun i c => (pretty i, VStr (String c EmptyString))) (String.list_ascii_of_string s)
  | _ => []
  end.

(** [{...a, ...b}]: the keys of [a] keep their place and take the value
    [b] gives them, the new keys of [b] follow. *)
Definition assign (a b : obj) : obj :=
  map (fun '(k, v) => (k, default v (lookup_field k b))) a
  ++ List.filter (fun '(k, _) => negb (has_field k a)) b.

(** [const { k1, k2, ...rest } = o] *)
Definition omit (ks : list string) (o : obj) : obj :=
  List.filter (fun '(k, _) => negb (bool_decide (k ∈ ks))) o.

(** Modelled from the spec: [deepMerge] of [./utils], which is not among
    the sources.  The spec gives [merge(base, override) -> merged],
    right-biased and recursive for nested mapping values: where both sides
    hold a mapping the two are merged key by key, everywhere else the
    override's value is taken; keys of the base the override does not
    mention are kept. *)
Fixpoint deepMerge (base override : value) {struct base} : value :=
  match base, override with
  | VObj bfs, VObj ofs =>
      VObj (map (fun '(k, bv) =>
                   (k, match lookup_field k ofs with
                       | Some ov => deepMerge bv ov
                       | None => bv
                       end)) bfs
            ++ List.filter (fun '(k, _) => negb (has_field k bfs)) ofs)
  | _, _ => override
  end.

(** ** The state of an instance *)

(** What can be thrown: the engine's [TypeError] (a method called on
    [null] or on [undefined]) or a value thrown by a collaborator. *)
Inductive error :=
| TypeError
| Thrown (v : value).

(** The client [new OSS({...options})] returns. *)
Record client_handle := Handle { handle_options : obj }.

(** The promise a call of [put] or [multipartUpload] returns. *)
Inductive outcome :=
| Pending
| Resolved (v : value)
| Rejected (e : error).

(** The closure registered on the queue, with the variables it captures:
    [resolve] and [reject] of promise [pid], and the arguments. *)
Inductive task :=
| PutTask (pid : nat) (filename : string) (data : value) (config : obj)
| MultipartTask (pid : nat) (filename : string) (data : value) (config : obj).

Inductive method := Put | MultipartUpload.

(** A call of [this.#client.put] or [this.#client.multipartUpload] and the
    task that awaits its promise. *)
Record backend_call := BackendCall {
  call_method : method;
  call_promise : nat;
  call_path : string;
  call_data : value;
  call_config : value;
  call_live : bool
}.

(** The promise a call of [getStore] returns.  Its executor takes
    [resolve] only: the promise is resolved with the client or it stays
    pending, because the call returned at [if (this.#event.length - 1)]
    or because the asynchronous function inside it threw. *)
Inductive store_state :=
| StoreAwaitsProvider
| StoreResolved (c : client_handle)
| StoreDeferred
| StoreThrew (e : error).

(** A call of [#init]: it has emitted, or it is suspended at
    [await this.getStore()] on the promise of [getStore] call [g]. *)
Inductive init_state :=
| InitEmitted
| InitAwaitsStore (g : nat).

(** What the instance did to its collaborators, oldest first. *)
Inductive effect :=
| NewOSS (options : obj)
| GetOptions
| On (k : nat)
| Run (k : nat)
| Emit (i : nat) (ks : list nat)
| GenerateFilename (path : string)
| Resubmit (filename : string) (config : obj).

Record state := State {
  opts : obj;
  client : option client_handle;
  event : list (nat * task);
  retryQueue : gmap string nat;
  guids : nat;
  promises : list outcome;
  stores : list store_state;
  inits : list init_state;
  calls : list backend_call;
  log : list effect
}.

Definition with_opts (x : obj) (s : state) : state :=
  State x (client s) (event s) (retryQueue s) (guids s)
        (promises s) (stores s) (inits s) (calls s) (log s).
Definition with_client (x : option client_handle) (s : state) : state :=
  State (opts s) x (event s) (retryQueue s) (guids s)
        (promises s) (stores s) (inits s) (calls s) (log s).
Definition with_event (x : list (nat * task)) (s : state) : state :=
  State (opts s) (client s) x (retryQueue s) (guids s)
        (promises s) (stores s) (inits s) (calls s) (log s).
Definition with_retryQueue (x : gmap string nat) (s : state) : state :=
  State (opts s) (client s) (event s) x (guids s)
        (promises s) (stores s) (inits s) (calls s) (log s).
Definition with_guids (x : nat) (s : state) : state :=
  State (opts s) (client s) (event s) (retryQueue s) x
        (promises s) (stores s) (inits s) (calls s) (log s).
Definition with_promises (x : list outcome) (s : state) : state :=
  State (opts s) (client s) (event s) (retryQueue s) (guids s)
        x (stores s) (inits s) (calls s) (log s).
Definition with_stores (x : list store_state) (s : state) : state :=
  State (opts s) (client s) (event s) (retryQueue s) (guids s)
        (promises s) x (inits s) (calls s) (log s).
Definition with_inits (x : list init_state) (s : state) : state :=
  State (opts s) (client s) (event s) (retryQueue s) (guids s)
        (promises s) (stores s) x (calls s) (log s).
Definition with_calls (x : list backend_call) (s : state) : state :=
  State (opts s) (client s) (event s) (retryQueue s) (guids s)
        (promises s) (stores s) (inits s) x (log s).
Definition record (e : effect) (s : state) : state :=
  State (opts s) (client s) (event s) (retryQueue s) (guids s)
        (promises s) (stores s) (inits s) (calls s) (log s ++ [e]).

(** The views of the log the properties are stated on. *)
Definition constructed (s : state) : list obj :=
  omap (fun e => match e with NewOSS o => Some o | _ => None end) (log s).
Definition provider_calls (s : state) : nat :=
  length (List.filter (fun e => match e with GetOptions => true | _ => false end) (log s)).
Definition registered (s : state) : list nat :=
  omap (fun e => match e with On k => Some k | _ => None end) (log s).
Definition executed (s : state) : list nat :=
  omap (fun e => match e with Run k => Some k | _ => None end) (log s).
Definition drains (s : state) : list (nat * list nat) :=
  omap (fun e => match e with Emit i ks => Some (i, ks) | _ => None end) (log s).
Definition generated (s : state) : list string :=
  omap (fun e => match e with GenerateFilename p => Some p | _ => None end) (log s).
Definition resubmitted (s : state) : list (string * obj) :=
  omap (fun e => match e with Resubmit f c => Some (f, c) | _ => None end) (log s).

(** [this.#opts.k] *)
Definition opt (k : string) (s : state) : value := get k (VObj (opts s)).

(** The defaults of the constructor. *)
Definition defaults : obj :=
  [ ("async", VBool false);
    ("rootPath", VStr "");
    ("rename", VBool true);
    ("enableCdn", VBool false);
    ("cdnUrl", VStr "");
    ("retryCount", VNum 5);
    ("refreshSTSTokenInterval", VNum 300000);
    ("config", VObj [("headers", VObj [("Cache-Control", VStr "public")])]);
    ("refreshSTSToken", VFun ReturnsNothing);
    ("getOptions", VFun ReturnsNothing) ].

(** [new AliOSS(options)] *)
Definition new_AliOSS (options : obj) : state :=
  {| opts := fields_of (deepMerge (VObj defaults) (VObj options));
     client := None;
     event := [];
     retryQueue := ∅;
     guids := 0;
     promises := [];
     stores := [];
     inits := [];
     calls := [];
     log := [] |}.

(** [new Promise((resolve, reject) => ...)] of [put] and [multipartUpload] *)
Definition new_promise (s : state) : nat * state :=
  (length (promises s), with_promises (promises s ++ [Pending]) s).

(** [resolve(v)] and [reject(e)]: a settled promise keeps its outcome. *)
Definition settle (p : nat) (o : outcome) (s : state) : state :=
  match promises s !! p with
  | Some Pending => with_promises (<[p := o]> (promises s)) s
  | _ => s
  end.

(** Modelled from the spec: [guid] of [./utils], which is not among the
    sources.  The spec asks for a unique task key; the keys are drawn from
    a counter, which also seeds the file names [generateFilename] makes. *)
Definition guid (s : state) : nat * state :=
  (guids s, with_guids (S (guids s)) s).

(** Modelled from the spec: class [Event] of [./utils/event], which is not
    among the sources.  The spec describes the queue as an ordered
    sequence of pending tasks, each a unique key and an action:
    registration is bookkeeping and does not execute the task, the depth
    of the queue is the number of registered tasks, and draining executes
    every queued task in the order registered and then empties the
    queue ([emit], below). *)
Definition on (k : nat) (t : task) (s : state) : state :=
  with_event (event s ++ [(k, t)]) (record (On k) s).

Definition event_length (s : state) : nat := length (event s).

(** ** The methods *)

(** What the environment decides. *)
Inductive input :=
| CallPut (filename : string) (data : value) (config : obj)
| CallMultipartUpload (filename : string) (data : value) (config : obj)
| CallGetStore
| ProviderSettles (g : nat) (r : error + value)
| InitResumes (i : nat)
| BackendSettles (k : nat) (r : error + value) (cancelled : bool).

Section AliOSS.

(** The collaborators that are not among the sources, with the
    interfaces the spec gives them: [generateFilename({filename, rename,
    rootPath})], pure given the unique id it is handed, and
    [formatResponse({data, enableCdn, cdnUrl})].  [oss_rejects options]
    is the error [new OSS(options)] throws, if it throws. *)
Variable generateFilename : string → value → value → nat → string.
Variable formatResponse : value → value → value → value.
Variable oss_rejects : obj → option error.

(** [deepMerge(this.#opts?.config || {}, config)] *)
Definition merged_config (s : state) (config : obj) : value :=
  deepMerge (js_or (opt "config" s) (VObj [])) (VObj config).

(** [config.hasOwnProperty('rename') ? config?.rename : this.#opts.rename] *)
Definition rename_of (s : state) (config : value) : value :=
  if has_field "rename" (fields_of config) then get "rename" config
  else opt "rename" s.

Definition generate (filename : string) (rename : value) (s : state)
  : string * state :=
  let path := generateFilename filename rename (opt "rootPath" s) (guids s) in
  (path, record (GenerateFilename path) (with_guids (S (guids s)) s)).

Definition start_call (m : method) (pid : nat) (path : string)
    (data config : value) (s : state) : state :=
  with_calls (calls s ++ [BackendCall m pid path data config true]) s.

(** The task of [put], up to its [await].  The callee [this.#client.put]
    is evaluated before the arguments. *)
Definition run_put (pid : nat) (filename : string) (data : value)
    (config : obj) (s : state) : state :=
  let config := merged_config s config in
  let rename := rename_of s config in
  match client s with
  | None => settle pid (Rejected TypeError) s
  | Some _ =>
      let '(path, s) := generate filename rename s in
      start_call Put pid path data config s
  end.

(** The task of [multipartUpload], up to its [await]. *)
Definition run_multipart (pid : nat) (filename : string) (data : value)
    (config : obj) (s : state) : state :=
  let config := merged_config s config in
  let isRetry := js_or (get "__isRetry" config) (VBool false) in
  let rename := rename_of s config in
  let '(filename, s) :=
    if truthy (js_or (get "checkpoint" config) isRetry) then (filename, s)
    else generate filename rename s in
  let s :=
    if negb (truthy isRetry)
    then with_retryQueue (delete filename (retryQueue s)) s
    else s in
  match client s with
  | None => settle pid (Rejected TypeError) s
  | Some _ => start_call MultipartUpload pid filename data config s
  end.

Definition run_task (kt : nat * task) (s : state) : state :=
  let s := record (Run kt.1) s in
  match kt.2 with
  | PutTask pid filename data config => run_put pid filename data config s
  | MultipartTask pid filename data config =>
      run_multipart pid filename data config s
  end.

Definition run_tasks (q : list (nat * task)) (s : state) : state :=
  fold_left (fun s kt => run_task kt s) q s.

(** [this.#event.emit()], called by [#init] number [i]: see [on]. *)
Definition emit (i : nat) (s : state) : state :=
  record (Emit i (event s).*1) (with_event [] (run_tasks (event s) s)).

Definition push_store (st : store_state) (s : state) : state :=
  with_stores (stores s ++ [st]) s.

(** The end of [getStore]:
    [const { async, getOptions, ...options } = this.#opts],
    [this.#client = new OSS({...options})], [resolve(this.#client)]. *)
Definition construct (s : state) : store_state * state :=
  let options := omit ["async"; "getOptions"] (opts s) in
  match oss_rejects options with
  | Some e => (StoreThrew e, s)
  | None =>
      let c := Handle options in
      (StoreResolved c, with_client (Some c) (record (NewOSS options) s))
  end.

(** [getStore()], up to its [await]; the result is the number of the
    promise it returns. *)
Definition getStore (s : state) : nat * state :=
  let g := length (stores s) in
  match client s with
  | Some c => (g, push_store (StoreResolved c) s)
  | None =>
      if negb (Z.of_nat (event_length s) - 1 =? 0)%Z
      then (g, push_store StoreDeferred s)
      else if truthy (opt "async" s) then
        match opt "getOptions" s with
        | VFun ReturnsPromise =>
            (g, push_store StoreAwaitsProvider (record GetOptions s))
        | VFun ReturnsNothing =>
            (g, push_store (StoreThrew TypeError) (record GetOptions s))
        | _ => (g, push_store (StoreThrew TypeError) s)
        end
      else
        let '(st, s) := construct s in
        (g, push_store st s)
  end.

(** [getStore] after [await this.#opts.getOptions().catch(() => {})]:
    the provider's promise has settled with [r]. *)
Definition resume_getStore (g : nat) (r : error + value) (s : state) : state :=
  match stores s !! g with
  | Some StoreAwaitsProvider =>
      let options := match r with inl _ => VUndefined | inr v => v end in
      let s := with_opts (assign (opts s) (own_props (js_or options (VObj [])))) s in
      let '(st, s) := construct s in
      with_stores (<[g := st]> (stores s)) s
  | _ => s
  end.

(** [#init()], up to its [await]. *)
Definition init (s : state) : state :=
  let i := length (inits s) in
  match client s with
  | Some _ => emit i (with_inits (inits s ++ [InitEmitted]) s)
  | None =>
      let '(g, s) := getStore s in
      with_inits (inits s ++ [InitAwaitsStore g]) s
  end.

(** [#init] after [await this.getStore()]: it continues once the promise
    is resolved. *)
Definition resume_init (i : nat) (s : state) : state :=
  match inits s !! i with
  | Some (InitAwaitsStore g) =>
      match stores s !! g with
      | Some (StoreResolved _) =>
          emit i (with_inits (<[i := InitEmitted]> (inits s)) s)
      | _ => s
      end
  | _ => s
  end.

Definition put (filename : string) (data : value) (config : obj)
    (s : state) : state :=
  let '(pid, s) := new_promise s in
  let '(k, s) := guid s in
  init (on k (PutTask pid filename data config) s).

Definition multipartUpload (filename : string) (data : value) (config : obj)
    (s : state) : state :=
  let '(pid, s) := new_promise s in
  let '(k, s) := guid s in
  init (on k (MultipartTask pid filename data config) s).

Definition format (result : value) (s : state) : value :=
  formatResponse result (opt "enableCdn" s) (opt "cdnUrl" s).

(** The handler [.catch((err) => ...)] of [multipartUpload], up to its
    [throw err]; [cancelled] is what [this.#client.isCancel()] answers. *)
Definition on_multipart_error (c : backend_call) (cancelled : bool)
    (s : state) : state :=
  if match client s with Some _ => cancelled | None => false end then s
  else
    let filename := call_path c in
    let s :=
      match retryQueue s !! filename with
      | Some _ => s
      | None => with_retryQueue (<[filename := 0]> (retryQueue s)) s
      end in
    let count := default 0 (retryQueue s !! filename) in
    if js_lt count (opt "retryCount" s) then
      let config := assign (own_props (call_config c)) [("__isRetry", VBool true)] in
      multipartUpload filename (call_data c) config
        (record (Resubmit filename config)
           (with_retryQueue (<[filename := count + 1]> (retryQueue s)) s))
    else s.

(** A task after its [await]: the promise of backend call [k] has
    settled with [r]. *)
Definition resume_task (k : nat) (r : error + value) (cancelled : bool)
    (s : state) : state :=
  match calls s !! k with
  | Some c =>
      if call_live c then
        let s :=
          with_calls
            (<[k := BackendCall (call_method c) (call_promise c) (call_path c)
                      (call_data c) (call_config c) false]> (calls s)) s in
        match r, call_method c with
        | inr result, _ => settle (call_promise c) (Resolved (format result s)) s
        | inl e, Put => settle (call_promise c) (Rejected e) s
        | inl e, MultipartUpload =>
            settle (call_promise c) (Rejected e) (on_multipart_error c cancelled s)
        end
      else s
  | None => s
  end.

Definition step (s : state) (i : input) : state :=
  match i with
  | CallPut filename data config => put filename data config s
  | CallMultipartUpload filename data config =>
      multipartUpload filename data config s
  | CallGetStore => (getStore s).2
  | ProviderSettles g r => resume_getStore g r s
  | InitResumes i => resume_init i s
  | BackendSettles k r cancelled => resume_task k r cancelled s
  end.

Definition run (s : state) (tr : list input) : state := fold_left step tr s.

End AliOSS.

(** ** Sample collaborators

    Instances of the collaborators, used to run the machine on concrete
    inputs.  [sample_oss_rejects] is the check ali-oss makes on its
    options. *)

Definition sample_generateFilename (filename : string) (rename rootPath : value)
    (id : nat) : string :=
  (match rootPath with VStr r => r | _ => "" end) +:+ "/" +:+
  (if truthy rename then pretty id +:+ "-" else "") +:+ filename.

Definition sample_formatResponse (data enableCdn cdnUrl : value) : value :=
  VObj [("code", VStr "200"); ("data", data)].

Definition sample_oss_rejects (options : obj) : option error :=
  if truthy (get "accessKeyId" (VObj options))
     && truthy (get "accessKeySecret" (VObj options))
  then None
  else Some (Thrown (VStr "require accessKeyId, accessKeySecret")).

Definition sample_run : state → list input → state :=
  run sample_generateFilename sample_formatResponse sample_oss_rejects.

Definition sample_keys : obj :=
  [("accessKeyId", VStr "id"); ("accessKeySecret", VStr "secret")].

(** An instance with its client constructed and its queue drained:
    [put('warmup.txt', ...)] was called and its [#init] has resumed. *)
Definition sample_ready (options : obj) : state :=
  sample_run (new_AliOSS (sample_keys ++ options))
    [CallPut "warmup.txt" (VStr "w") []; InitResumes 0].

Definition sample_handle (options : obj) : client_handle :=
  Handle (omit ["async"; "getOptions"] (opts (new_AliOSS (sample_keys ++ options)))).

(** Options that make the first call ask a provider. *)
Definition sample_async : obj :=
  sample_keys ++ [("async", VBool true); ("getOptions", VFun ReturnsPromise)].

Definition sample_error : error := Thrown (VStr "network").

(** [deepMerge(config, this.opts.config)], the configuration the
    superseded class [Alioss] of the same file hands to the client in
    [upload] and [multipartUpload]. *)
Definition legacy_upload_config (opts config : obj) : value :=
  deepMerge (VObj config) (get "config" (VObj opts)).

Definition is_upload (i : input) : bool :=
  match i with
  | CallGetStore => false
  | _ => true
  end.

(** The attempts of one multipart upload: the first is call [first], the
    resubmissions are the calls [rest], [rest + 1], ...; the same for the
    promises of the attempts. *)
Definition attempt (first rest i : nat) : nat :=
  match i with
  | 0 => first
  | S i' => rest + i'
  end.

(** The first [m] attempts fail one after the other with [e], none of
    them because of a cancellation. *)
Definition failures (first rest : nat) (e : error) (m : nat) : list input :=
  map (fun i => BackendSettles (attempt first rest i) (inl e) false) (seq 0 m).

Definition is_upload_call (i : input) : bool :=
  match i with
  | CallPut _ _ _ | CallMultipartUpload _ _ _ => true
  | _ => false
  end.

Definition task_promise (t : task) : nat :=
  match t with
  | PutTask pid _ _ _ => pid
  | MultipartTask pid _ _ _ => pid
  end.

(** The promises the queued tasks are to settle, and those the tasks that
    await the backend are to settle. *)
Definition queued (q : list (nat * task)) : list nat :=
  map (fun kt => task_promise kt.2) q.

Definition awaited (s : state) : list nat :=
  map call_promise (List.filter call_live (calls s)).

(** ** Relations between states *)

(** The client, the options and the promises of [getStore] are as they
    were. *)
Record calm (s s' : state) : Prop := Calm {
  calm_opts : opts s' = opts s;
  calm_client : client s' = client s;
  calm_stores : stores s' = stores s;
  calm_constructed : constructed s' = constructed s;
  calm_provider : provider_calls s' = provider_calls s;
  calm_promises : length (promises s) ≤ length (promises s');
  calm_guids : guids s ≤ guids s'
}.


(** The single flight of the construction, for an instance that is used
    through [put] and [multipartUpload]: while the client is absent
    nothing has been constructed or executed, the first call of
    [getStore] is the only one that went past the test of the queue
    length, and the client is present exactly when that call has resolved
    its promise with it. *)
Definition single_flight (s : state) : Prop :=
  provider_calls s ≤ 1 ∧
  match client s with
  | Some c =>
      constructed s = [handle_options c] ∧
      ∃ rest, stores s = StoreResolved c :: rest ∧ Forall (eq StoreDeferred) rest
  | None =>
      constructed s = [] ∧ executed s = [] ∧ calls s = [] ∧
      Forall (eq Pending) (promises s) ∧
      match stores s with
      | [] => event s = [] ∧ provider_calls s = 0
      | st :: rest =>
          event s ≠ [] ∧ (∀ c, st ≠ StoreResolved c) ∧
          Forall (eq StoreDeferred) rest
      end
  end.

(** The queue and its history are as they were. *)
Record idle (s s' : state) : Prop := Idle {
  idle_registered : registered s' = registered s;
  idle_executed : executed s' = executed s;
  idle_drains : drains s' = drains s;
  idle_event : event s' = event s;
  idle_inits : inits s' = inits s;
  idle_guids : guids s ≤ guids s'
}.

(** The queue is first in, first out: the keys registered so far are the
    keys of the executed tasks followed by those of the queued ones, the
    drains executed them batch by batch, and no key was given twice. *)
Definition fifo (s : state) : Prop :=
  registered s = executed s ++ (event s).*1 ∧
  concat (drains s).*2 = executed s ∧
  Forall (fun k => k < guids s) (registered s) ∧
  NoDup (registered s).

(** Only a call of [#init] that has emitted has drained the queue. *)
Definition emitted_only (s : state) : Prop :=
  Forall (fun d => inits s !! d.1 = Some InitEmitted) (drains s).

(** A settled promise keeps its outcome. *)
Definition keeps (s s' : state) : Prop :=
  ∀ p o, promises s !! p = Some o → o ≠ Pending → promises s' !! p = Some o.

(** The promises [ps], held by code that is still to run, and the
    promises of the tasks that await the backend are pending, and no two
    pieces of code hold the same promise. *)
Definition owned (ps : list nat) (s : state) : Prop :=
  NoDup (ps ++ awaited s) ∧
  Forall (fun p => promises s !! p = Some Pending) (ps ++ awaited s).

(** What the handler of [multipartUpload] has resubmitted: uploads of
    [path] with the retry flag set. *)
Definition retries_of (path : string) (rs : list (string * obj)) : Prop :=
  Forall (fun r => r.1 = path ∧ lookup_field "__isRetry" r.2 = Some (VBool true)) rs.

(** A multipart upload of [path] that has failed [j] times and is being
    retried.  Its attempts are the backend calls [attempt k0 n i] with the
    promises [attempt p0 p i]: attempt [j] is in flight and its promise is
    pending, the earlier attempts are over and their promises are
    rejected with [e]; the counter of [path] is absent before the first
    failure and [j] after it; and [j] resubmissions were made since the
    history was [rs]. *)
Definition retrying (h : client_handle) (o : obj) (path : string)
    (data : value) (e : error) (k0 p0 n p : nat) (rs : list (string * obj))
    (j : nat) (s : state) : Prop :=
  client s = Some h ∧ event s = [] ∧ opts s = o ∧
  k0 < n ∧ p0 < p ∧
  length (calls s) = n + j ∧
  (∃ cfg, calls s !! attempt k0 n j
          = Some (BackendCall MultipartUpload (attempt p0 p j) path data cfg true)) ∧
  (∀ i, i < j → ∃ c, calls s !! attempt k0 n i = Some c ∧ call_live c = false) ∧
  length (promises s) = p + j ∧
  promises s !! attempt p0 p j = Some Pending ∧
  (∀ i, i < j → promises s !! attempt p0 p i = Some (Rejected e)) ∧
  retryQueue s !! path = (if decide (j = 0) then None else Some j) ∧
  ∃ more, resubmitted s = rs ++ more ∧ length more = j ∧ retries_of path more.

(** The upload of [path] after failure [K + 1]: [K] resubmissions were
    made, every attempt is over and its promise is rejected with [e],
    nothing is queued, no call was added and the counter is [K]. *)
Definition retired (path : string) (e : error) (k0 p0 n p : nat)
    (rs : list (string * obj)) (K : nat) (s : state) : Prop :=
  event s = [] ∧
  length (calls s) = n + K ∧
  (∀ i, i ≤ K → ∃ c, calls s !! attempt k0 n i = Some c ∧ call_live c = false) ∧
  length (promises s) = p + K ∧
  (∀ i, i ≤ K → promises s !! attempt p0 p i = Some (Rejected e)) ∧
  retryQueue s !! path = Some K ∧
  ∃ more, resubmitted s = rs ++ more ∧ length more = K ∧ retries_of path more.


(** The same request: two records of a backend call that differ at most
    in whether its promise is still awaited. *)
Definition same_request (a b : backend_call) : Prop :=
  call_method a = call_method b ∧ call_promise a = call_promise b ∧
  call_path a = call_path b ∧ call_data a = call_data b ∧
  call_config a = call_config b.
(** * Alioss: the first class of the file

    [src/Alioss.js], lines 1 to 220: class [Alioss] constructs its client
    in [_init], which every operation calls with a callback, and has no
    queue and no retry.  The embedding is a machine of the same kind as
    the one of [AliOSS]. *)

(** ** Strings *)

(** [s.split(sep)] for a separator of one character: the pieces of [s]
    between the separators, so at least one piece. *)
Fixpoint js_split (sep : Ascii.ascii) (s : string) : list string :=
  match s with
  | EmptyString => [EmptyString]
  | String c s' =>
      if Ascii.eqb c sep then EmptyString :: js_split sep s'
      else match js_split sep s' with
           | [] => [String c EmptyString]
           | x :: xs => String c x :: xs
           end
  end.

(** [a.pop()]: the last element of the array, [undefined] when there is
    none. *)
Definition js_pop (a : list string) : option string := last a.

(** [`${x}`] for the result of [pop]. *)
Definition interpolate (x : option string) : string := default "undefined" x.

(** [s.replace(new RegExp('^\\/'), '')]: one slash at the start of [s]
    is removed. *)
Definition strip_slash (s : string) : string :=
  match s with
  | String c s' => if Ascii.eqb c "/"%char then s' else s
  | EmptyString => s
  end.

(** [v === undefined ? d : v], the default of a destructuring pattern or
    of a parameter. *)
Definition or_default (v d : value) : value :=
  match v with VUndefined => d | _ => v end.

(** A backend result as ali-oss gives it, every part of it optional:
    [{name, url, res: {status, size}}]. *)
Definition field_of {A} (k : string) (f : A → value) (x : option A) : obj :=
  match x with Some a => [(k, f a)] | None => [] end.

Definition oss_result (name url : option string) (status size : option Z) : value :=
  VObj (field_of "name" VStr name ++ field_of "url" VStr url ++
        [("res", VObj (field_of "status" VNum status ++ field_of "size" VNum size))]).

Module Alioss.

(** The defaults of the constructor. *)
Definition defaults : obj :=
  [ ("async", VBool false);
    ("accessKeyId", VStr "");
    ("accessKeySecret", VStr "");
    ("stsToken", VStr "");
    ("bucket", VStr "");
    ("endpoint", VStr "");
    ("region", VStr "oss-cn-hangzhou");
    ("internal", VBool false);
    ("cname", VBool false);
    ("isRequestPay", VBool false);
    ("secure", VBool true);
    ("timeout", VStr "60s");
    ("config", VObj [("headers", VObj [("Cache-Control", VStr "public")])]);
    ("refreshSTSTokenInterval", VNum 300000);
    ("rootPath", VStr "");
    ("getConfig", VFun ReturnsNothing);
    ("getToken", VFun ReturnsNothing) ].

(** The async callback an operation hands to [_init], with the variables
    it captures: [resolve] and [reject] of promise [pid], and the
    arguments.  The callback of [cancel] captures nothing; [pid] is the
    promise [cancel] itself returns. *)
Inductive callback :=
| UploadCallback (pid : nat) (name file : value) (config : obj)
| MultipartCallback (pid : nat) (name file : value) (config : obj)
| ResumeCallback (pid : nat) (name file : value) (config : obj)
| AbortCallback (pid : nat) (name uploadId : value)
| CancelCallback (pid : nat).

Definition callback_promise (cb : callback) : nat :=
  match cb with
  | UploadCallback pid _ _ _ => pid
  | MultipartCallback pid _ _ _ => pid
  | ResumeCallback pid _ _ _ => pid
  | AbortCallback pid _ _ => pid
  | CancelCallback pid => pid
  end.

Inductive client_method :=
| ClientPut
| ClientMultipartUpload
| ClientAbortMultipartUpload.

(** A call of a method of the client and the callback that awaits its
    promise. *)
Record backend_call := BackendCall {
  call_method : client_method;
  call_promise : nat;
  call_args : list value;
  call_live : bool
}.

(** A call of [_init] that went to [await this.opts.getConfig()]: it is
    suspended on what [getConfig], a function [f], has returned, or it
    has gone on since. *)
Inductive init_state :=
| InitReturned
| InitAwaitsConfig (f : callee) (cb : callback).

(** What the instance did to its collaborators, oldest first. *)
Inductive effect :=
| NewOSS (options : obj)
| GetConfig
| ConsoleError (err : error)
| ClientCancel.

Record state := State {
  opts : obj;
  client : option client_handle;
  guids : nat;
  promises : list outcome;
  inits : list init_state;
  calls : list backend_call;
  log : list effect
}.

Definition with_opts (x : obj) (s : state) : state :=
  State x (client s) (guids s) (promises s) (inits s) (calls s) (log s).
Definition with_client (x : option client_handle) (s : state) : state :=
  State (opts s) x (guids s) (promises s) (inits s) (calls s) (log s).
Definition with_guids (x : nat) (s : state) : state :=
  State (opts s) (client s) x (promises s) (inits s) (calls s) (log s).
Definition with_promises (x : list outcome) (s : state) : state :=
  State (opts s) (client s) (guids s) x (inits s) (calls s) (log s).
Definition with_inits (x : list init_state) (s : state) : state :=
  State (opts s) (client s) (guids s) (promises s) x (calls s) (log s).
Definition with_calls (x : list backend_call) (s : state) : state :=
  State (opts s) (client s) (guids s) (promises s) (inits s) x (log s).
Definition record (e : effect) (s : state) : state :=
  State (opts s) (client s) (guids s) (promises s) (inits s) (calls s) (log s ++ [e]).

Definition constructed (s : state) : list obj :=
  omap (fun e => match e with NewOSS o => Some o | _ => None end) (log s).
Definition reported (s : state) : list error :=
  omap (fun e => match e with ConsoleError e => Some e | _ => None end) (log s).
Definition config_calls (s : state) : nat :=
  length (List.filter (fun e => match e with GetConfig => true | _ => false end) (log s)).

(** [this.opts.k] *)
Definition opt (k : string) (s : state) : value := get k (VObj (opts s)).

(** [new Alioss(options)]: the defaults with [...options] spread over
    them. *)
Definition new_Alioss (options : value) : state :=
  {| opts := assign defaults (own_props options);
     client := None;
     guids := 0;
     promises := [];
     inits := [];
     calls := [];
     log := [] |}.

Definition new_promise (s : state) : nat * state :=
  (length (promises s), with_promises (promises s ++ [Pending]) s).

(** [resolve(v)] and [reject(e)]: a settled promise keeps its outcome. *)
Definition settle (p : nat) (o : outcome) (s : state) : state :=
  match promises s !! p with
  | Some Pending => with_promises (<[p := o]> (promises s)) s
  | _ => s
  end.

(** What the environment decides. *)
Inductive input :=
| CallUpload (name file : value) (config : obj)
| CallMultipartUpload (name file : value) (config : obj)
| CallResumeMultipartUpload (name file : value) (config : obj)
| CallAbortMultipartUpload (name uploadId : value)
| CallCancel
| ConfigSettles (i : nat) (r : error + value)
| InitResumes (i : nat)
| BackendSettles (k : nat) (r : error + value).

Section Alioss.

(** The collaborators that are not among the sources.  [generateGUID n]
    is what the call number [n] of [generateGUID()] returns, and
    [oss_rejects options] the error [new OSS(options)] throws, if it
    throws.  [object_to_string v] is what [String(v)] gives where the
    class does not fix it: for an object or a function [v], whose
    [toString] runs, and for a number beyond the integers a double
    holds one by one, which is printed from the nearest double, with
    the digits of its shortest numeral and, from [1e21] on, with an
    exponent.  [callback_is_Function] says whether
    [Object.prototype.toString.call(callback)] is ['[object Function]']
    for the async callbacks of the class; it is
    ['[object AsyncFunction]'] where the async functions run as they
    are written, and ['[object Function]'] where the build has compiled
    them to plain functions. *)
Variable generateGUID : nat → string.
Variable oss_rejects : obj → option error.
Variable object_to_string : value → error + string.
Variable callback_is_Function : bool.

(** [String(v)], and [`${v}`]: an integer below [2^53] in absolute
    value is printed as its decimal numeral. *)
Definition js_String (v : value) : error + string :=
  match v with
  | VUndefined => inr "undefined"
  | VNull => inr "null"
  | VBool b => inr (if b then "true" else "false")
  | VNum n =>
      if (Z.abs n <? 2 ^ 53)%Z then inr (pretty n) else object_to_string v
  | VStr s => inr s
  | VFun _ | VObj _ => object_to_string v
  end.

(** [`.${name.split('.').pop()}`], for a truthy [name].  Only a string
    has a method [split] that returns an array. *)
Definition suffix (name : value) : error + string :=
  match name with
  | VStr n => inr ("." +:+ interpolate (js_pop (js_split "."%char n)))
  | _ => inl TypeError
  end.

(** [_formatResult(result = {})] *)
Definition _formatResult (result : value) : error + value :=
  let result := or_default result (VObj []) in
  match result with
  | VNull => inl TypeError
  | _ =>
      let name := or_default (get "name" result) (VStr "") in
      let url := or_default (get "url" result) (VStr "") in
      match get "res" result with
      | VUndefined | VNull => inl TypeError
      | res =>
          let status := or_default (get "status" res) (VNum 500) in
          let size := or_default (get "size" res) (VNum 0) in
          match js_String status with
          | inl e => inl e
          | inr code =>
              match (if truthy name then suffix name else inr "") with
              | inl e => inl e
              | inr sfx =>
                  inr (VObj [("code", VStr code);
                             ("data", VObj [("name", name); ("url", url);
                                            ("suffix", VStr sfx); ("size", size)])])
              end
          end
      end
  end.

(** [_generateName(name)].  The directory [name.split('/')] is computed
    and not used. *)
Definition _generateName (name : value) (s : state) : (error + string) * state :=
  if negb (truthy name) then (inr "", s)
  else
    match name with
    | VStr n =>
        let sfx := interpolate (js_pop (js_split "."%char n)) in
        match js_String (opt "rootPath" s) with
        | inl e => (inl e, s)
        | inr rootPath =>
            (inr (strip_slash
                    (rootPath +:+ "/" +:+ generateGUID (guids s) +:+ "." +:+ sfx)),
             with_guids (S (guids s)) s)
        end
    | _ => (inl TypeError, s)
    end.

Definition start_call (m : client_method) (pid : nat) (args : list value)
    (s : state) : state :=
  with_calls (calls s ++ [BackendCall m pid args true]) s.

(** The callback, called with the client, up to its [await].  What it
    throws rejects the promise of the async callback itself, which
    nobody holds. *)
Definition run_callback (cb : callback) (s : state) : state :=
  match cb with
  | UploadCallback pid name file config =>
      let '(r, s) := _generateName name s in
      match r with
      | inl _ => s
      | inr path =>
          start_call ClientPut pid
            [VStr path; file; legacy_upload_config (opts s) config] s
      end
  | MultipartCallback pid name file config =>
      let '(r, s) := _generateName name s in
      match r with
      | inl _ => s
      | inr path =>
          start_call ClientMultipartUpload pid
            [VStr path; file; legacy_upload_config (opts s) config] s
      end
  | ResumeCallback pid name file config =>
      start_call ClientMultipartUpload pid
        [name; file; legacy_upload_config (opts s) config] s
  | AbortCallback pid name uploadId =>
      start_call ClientAbortMultipartUpload pid [name; uploadId] s
  | CancelCallback _ => record ClientCancel s
  end.

(** [_init] returns to [cancel], the one caller that goes on after
    [await this._init(...)]: the promise of [cancel] is settled. *)
Definition return_to (cb : callback) (o : outcome) (s : state) : state :=
  match cb with
  | CancelCallback pid => settle pid o s
  | _ => s
  end.

(** [catch (err) { console.error(err.message) }]: [err.message] throws
    in its turn when [err] is [undefined] or [null]. *)
Definition catch (e : error) (cb : callback) (s : state) : state :=
  match e with
  | Thrown VUndefined | Thrown VNull => return_to cb (Rejected TypeError) s
  | _ => return_to cb (Resolved VUndefined) (record (ConsoleError e) s)
  end.

(** The options [_init] picks for [new OSS({...})]. *)
Definition picked (o : obj) : obj :=
  map (fun k => (k, get k (VObj o)))
    ["accessKeyId"; "accessKeySecret"; "stsToken"; "bucket"; "endpoint";
     "region"; "internal"; "cname"; "isRequestPay"; "secure"; "timeout"]
  ++ [("refreshSTSToken", get "getToken" (VObj o))].

(** [if (Object.prototype.toString.call(callback) === '[object Function]')
    callback.call(this, this.client)] *)
Definition call_back (cb : callback) (s : state) : state :=
  return_to cb (Resolved VUndefined)
    (if callback_is_Function then run_callback cb s else s).

(** The end of [_init] when there was no client: [this.client = new
    OSS({...})], then the callback. *)
Definition construct (cb : callback) (s : state) : state :=
  let options := picked (opts s) in
  match oss_rejects options with
  | Some e => catch e cb s
  | None => call_back cb (with_client (Some (Handle options)) (record (NewOSS options) s))
  end.

(** [_init(callback)], up to its [await]. *)
Definition _init (cb : callback) (s : state) : state :=
  match client s with
  | Some _ => call_back cb s
  | None =>
      if truthy (opt "async" s) then
        match opt "getConfig" s with
        | VFun f => with_inits (inits s ++ [InitAwaitsConfig f cb]) (record GetConfig s)
        | _ => catch TypeError cb s
        end
      else construct cb s
  end.

(** [_init] after [await this.opts.getConfig()], which has given
    [asyncOptions] or has thrown.  The client is not looked at again. *)
Definition resume_init (i : nat) (cb : callback) (r : error + value)
    (s : state) : state :=
  let s := with_inits (<[i := InitReturned]> (inits s)) s in
  match r with
  | inl e => catch e cb s
  | inr asyncOptions =>
      construct cb
        (with_opts (assign (opts s) (own_props (js_or asyncOptions (VObj [])))) s)
  end.

Definition upload (name file : value) (config : obj) (s : state) : state :=
  let '(pid, s) := new_promise s in
  _init (UploadCallback pid name file config) s.

Definition multipartUpload (name file : value) (config : obj) (s : state) : state :=
  let '(pid, s) := new_promise s in
  _init (MultipartCallback pid name file config) s.

Definition resumeMultipartUpload (name file : value) (config : obj)
    (s : state) : state :=
  let '(pid, s) := new_promise s in
  _init (ResumeCallback pid name file config) s.

Definition abortMultipartUpload (name uploadId : value) (s : state) : state :=
  let '(pid, s) := new_promise s in
  _init (AbortCallback pid name uploadId) s.

Definition cancel (s : state) : state :=
  let '(pid, s) := new_promise s in
  _init (CancelCallback pid) s.

(** A callback after its [await]: the promise of backend call [k] has
    settled with [r].  The handler [.catch((err) => { reject(err) })]
    makes [result] [undefined], and the callback goes on to [resolve]. *)
Definition resume_callback (k : nat) (r : error + value) (s : state) : state :=
  match calls s !! k with
  | Some c =>
      if call_live c then
        let s :=
          with_calls
            (<[k := BackendCall (call_method c) (call_promise c) (call_args c) false]>
               (calls s)) s in
        let '(result, s) :=
          match r with
          | inl err => (VUndefined, settle (call_promise c) (Rejected err) s)
          | inr result => (result, s)
          end in
        match call_method c with
        | ClientAbortMultipartUpload => settle (call_promise c) (Resolved result) s
        | _ =>
            match _formatResult result with
            | inl _ => s
            | inr v => settle (call_promise c) (Resolved v) s
            end
        end
      else s
  | None => s
  end.

Definition step (s : state) (i : input) : state :=
  match i with
  | CallUpload name file config => upload name file config s
  | CallMultipartUpload name file config => multipartUpload name file config s
  | CallResumeMultipartUpload name file config =>
      resumeMultipartUpload name file config s
  | CallAbortMultipartUpload name uploadId => abortMultipartUpload name uploadId s
  | CallCancel => cancel s
  | ConfigSettles i r =>
      match inits s !! i with
      | Some (InitAwaitsConfig ReturnsPromise cb) => resume_init i cb r s
      | _ => s
      end
  | InitResumes i =>
      match inits s !! i with
      | Some (InitAwaitsConfig ReturnsNothing cb) => resume_init i cb (inr VUndefined) s
      | _ => s
      end
  | BackendSettles k r => resume_callback k r s
  end.

Definition run (s : state) (tr : list input) : state := fold_left step tr s.

End Alioss.

(** The promises the suspended calls of [_init] and the callbacks that
    await the backend are to settle. *)
Definition waiting (s : state) : list nat :=
  omap (fun x => match x with
                 | InitAwaitsConfig _ cb => Some (callback_promise cb)
                 | InitReturned => None
                 end) (inits s).

Definition awaited (s : state) : list nat :=
  map call_promise (List.filter call_live (calls s)).

Definition owners (s : state) : list nat := waiting s ++ awaited s.

(** The promises that code still to run is to settle are pending, and
    no two pieces of code are to settle the same promise. *)
Definition owned (s : state) : Prop :=
  NoDup (owners s) ∧ Forall (fun p => promises s !! p = Some Pending) (owners s).

(** From [s] to [s'] the code that holds promise [q] has run: it has
    handed [q] to a suspended piece of code and touched no promise, or
    it has settled at most [q]. *)
Definition hands_over (q : nat) (s s' : state) : Prop :=
  (owners s' = owners s ∨ owners s' ≡ₚ owners s ++ [q] ∧ promises s' = promises s) ∧
  (∀ p, p ≠ q → promises s' !! p = promises s !! p) ∧
  length (promises s') = length (promises s).

(** The same request: two records of a call of the client that differ
    at most in whether its promise is still awaited. *)
Definition same_request (a b : backend_call) : Prop :=
  call_method a = call_method b ∧ call_promise a = call_promise b ∧
  call_args a = call_args b.

(** From [s] to [s'] the code that is to call the callback [cb] has run:
    the calls the client has received since are those of [cb], and a
    call of [put] among them is made by the callback of [upload], with
    a path, the file and [deepMerge(config, this.opts.config)]. *)
Definition sends (cb : callback) (s s' : state) : Prop :=
  ∃ new, calls s' = calls s ++ new ∧
    Forall (fun bc =>
              call_method bc = ClientPut →
              ∃ pid name file config path,
                cb = UploadCallback pid name file config ∧
                call_args bc =
                  [VStr path; file; legacy_upload_config (opts s') config]) new.

Definition is_cancel (i : input) : bool :=
  match i with CallCancel => true | _ => false end.

Definition is_call (i : input) : bool :=
  match i with
  | CallUpload _ _ _ | CallMultipartUpload _ _ _
  | CallResumeMultipartUpload _ _ _ | CallAbortMultipartUpload _ _
  | CallCancel => true
  | _ => false
  end.

End Alioss.

(** Sample collaborators of [Alioss]. *)
Definition sample_generateGUID (n : nat) : string := "guid" +:+ pretty n.

Definition sample_object_to_string (v : value) : error + string :=
  inr "[object Object]".

(** [c] occurs in [s]. *)
Fixpoint mentions (c : Ascii.ascii) (s : string) : bool :=
  match s with
  | EmptyString => false
  | String c' s' => Ascii.eqb c' c || mentions c s'
  end.

(** The promises of [getConfig] settle one after the other, call [i] of
    [_init] being given [vs !! i]. *)
Definition config_results (vs : list value) : list Alioss.input :=
  imap (fun i v => Alioss.ConfigSettles i (inr v)) vs.

(** A client that accepts every options object. *)
Definition sample_oss_accepts (options : obj) : option error := None.

Definition legacy_run (compiled : bool) : Alioss.state → list Alioss.input → Alioss.state :=
  Alioss.run sample_generateGUID sample_oss_rejects sample_object_to_string compiled.
(** ** Objects *)

Example deepMerge_headers :
  deepMerge
    (VObj [("headers", VObj [("Cache-Control", VStr "public")]); ("timeout", VNum 60)])
    (VObj [("headers", VObj [("x-oss-meta", VStr "1")]); ("timeout", VNum 5)])
  = VObj [("headers", VObj [("Cache-Control", VStr "public"); ("x-oss-meta", VStr "1")]);
          ("timeout", VNum 5)].
Proof. reflexivity. Qed.

Lemma lookup_field_app k (a b : obj) :
  lookup_field k (a ++ b) =
  match lookup_field k a with Some v => Some v | None => lookup_field k b end.
Proof.
  induction a as [|[k' v] a IH]; simpl; [done|].
  destruct (decide (k = k')); [done | apply IH].
Qed.

Lemma lookup_field_map k (f : string → value → value) (a : obj) :
  lookup_field k (map (fun '(k', v) => (k', f k' v)) a) = f k <$> lookup_field k a.
Proof.
  induction a as [|[k' v] a IH]; simpl; [done|].
  destruct (decide (k = k')) as [->|]; [done | apply IH].
Qed.

Lemma lookup_field_new k (a b : obj) :
  lookup_field k (List.filter (fun '(k', _) => negb (has_field k' a)) b) =
  if has_field k a then None else lookup_field k b.
Proof.
  induction b as [|[k' v] b IH]; simpl; [by destruct (has_field k a)|].
  destruct (has_field k' a) eqn:Hk'; simpl.
  - rewrite IH. destruct (decide (k = k')) as [->|]; [by rewrite Hk' | done].
  - destruct (decide (k = k')) as [->|]; [by rewrite Hk' | apply IH].
Qed.

Lemma lookup_assign k (a b : obj) :
  lookup_field k (assign a b) =
  match lookup_field k a with
  | Some v => Some (default v (lookup_field k b))
  | None => lookup_field k b
  end.
Proof.
  unfold assign. rewrite lookup_field_app.
  rewrite (lookup_field_map k (fun k' v => default v (lookup_field k' b))).
  rewrite lookup_field_new. unfold has_field.
  by destruct (lookup_field k a).
Qed.

Lemma assign_nil (a : obj) : assign a [] = a.
Proof.
  unfold assign. simpl. rewrite app_nil_r.
  induction a as [|[k v] a IH]; simpl; [done | by rewrite IH].
Qed.

Lemma deepMerge_objects (a b : obj) :
  deepMerge (VObj a) (VObj b) =
  VObj (map (fun '(k, bv) =>
               (k, match lookup_field k b with
                   | Some ov => deepMerge bv ov
                   | None => bv
                   end)) a
        ++ List.filter (fun '(k, _) => negb (has_field k a)) b).
Proof. done. Qed.

Lemma lookup_deepMerge k (a b : obj) :
  lookup_field k (fields_of (deepMerge (VObj a) (VObj b))) =
  match lookup_field k a with
  | Some bv =>
      Some (match lookup_field k b with Some ov => deepMerge bv ov | None => bv end)
  | None => lookup_field k b
  end.
Proof.
  rewrite deepMerge_objects. simpl. rewrite lookup_field_app.
  rewrite (lookup_field_map k
             (fun k' bv => match lookup_field k' b with
                           | Some ov => deepMerge bv ov
                           | None => bv
                           end)).
  rewrite lookup_field_new. unfold has_field.
  by destruct (lookup_field k a).
Qed.

Lemma deepMerge_leaf (bv ov : value) :
  is_obj bv && is_obj ov = false → deepMerge bv ov = ov.
Proof. destruct bv, ov; simpl; done. Qed.

Lemma deepMerge_onto_object (base : value) (o : obj) :
  ∃ o', deepMerge base (VObj o) = VObj o'.
Proof. destruct base; simpl; eauto. Qed.

Lemma truthy_or_false (v : value) : truthy (js_or v (VBool false)) = truthy v.
Proof. unfold js_or. by destruct (truthy v) eqn:E. Qed.

(** ** What each piece of code leaves alone *)

Section Properties.

Context (generateFilename : string → value → value → nat → string)
        (formatResponse : value → value → value → value)
        (oss_rejects : obj → option error).

Local Abbreviation generate := (generate generateFilename).
Local Abbreviation run_put := (run_put generateFilename).
Local Abbreviation run_multipart := (run_multipart generateFilename).
Local Abbreviation run_task := (run_task generateFilename).
Local Abbreviation run_tasks := (run_tasks generateFilename).
Local Abbreviation emit := (emit generateFilename).
Local Abbreviation getStore := (getStore oss_rejects).
Local Abbreviation construct := (construct oss_rejects).
Local Abbreviation resume_getStore := (resume_getStore oss_rejects).
Local Abbreviation init := (init generateFilename oss_rejects).
Local Abbreviation resume_init := (resume_init generateFilename).
Local Abbreviation put := (put generateFilename oss_rejects).
Local Abbreviation multipartUpload := (multipartUpload generateFilename oss_rejects).
Local Abbreviation on_multipart_error :=
  (on_multipart_error generateFilename oss_rejects).
Local Abbreviation resume_task :=
  (resume_task generateFilename formatResponse oss_rejects).
Local Abbreviation step := (step generateFilename formatResponse oss_rejects).
Local Abbreviation run := (run generateFilename formatResponse oss_rejects).

Ltac views :=
  unfold constructed, provider_calls, registered, executed, drains,
    generated, resubmitted in *;
  simpl in *;
  rewrite ?omap_app, ?List.filter_app, ?length_app in *;
  simpl in *;
  rewrite ?app_nil_r, ?Nat.add_0_r, <- ?app_assoc in *.

Lemma calm_refl s : calm s s.
Proof. by split. Qed.

Lemma calm_trans s1 s2 s3 : calm s1 s2 → calm s2 s3 → calm s1 s3.
Proof.
  intros [] []; split; try congruence; etrans; eauto.
Qed.

Ltac open_task :=
  unfold run_task, run_put, run_multipart, generate, start_call, settle;
  simpl.

Lemma run_task_calm kt s : calm s (run_task kt s).
Proof.
  destruct kt as [k [pid f d c|pid f d c]]; open_task.
  all: repeat case_match; simplify_eq; split; views;
    rewrite ?length_insert; try done; lia.
Qed.

Lemma run_tasks_calm q s : calm s (run_tasks q s).
Proof.
  revert s; induction q as [|kt q IH]; intros s; simpl; [apply calm_refl|].
  eapply calm_trans; [apply run_task_calm | apply IH].
Qed.

Lemma emit_calm i s : calm s (emit i s).
Proof.
  unfold emit. destruct (run_tasks_calm (event s) s).
  split; views; done.
Qed.

Lemma emit_event i s : event (emit i s) = [].
Proof. done. Qed.

(** ** The single flight *)

Lemma init_present s c :
  client s = Some c →
  init s = emit (length (inits s)) (with_inits (inits s ++ [InitEmitted]) s).
Proof. intros H. unfold init. by rewrite H. Qed.

Lemma register_calm t s :
  calm s (on (guid (new_promise s).2).1 t (guid (new_promise s).2).2).
Proof. split; views; try done; lia. Qed.

Lemma upload_calm t s c :
  client s = Some c →
  calm s (init (on (guid (new_promise s).2).1 t (guid (new_promise s).2).2)).
Proof.
  intros H. eapply calm_trans; [apply (register_calm t)|].
  rewrite (init_present _ c); [|done].
  eapply calm_trans; [|apply emit_calm]. split; views; done.
Qed.

Lemma settle_calm p o s : calm s (settle p o s).
Proof.
  unfold settle. repeat case_match; split; views;
    rewrite ?length_insert; done.
Qed.

Lemma on_multipart_error_calm c cancelled s h :
  client s = Some h → calm s (on_multipart_error c cancelled s).
Proof.
  intros H. unfold on_multipart_error. rewrite H.
  destruct cancelled; [apply calm_refl|].
  set (s1 := match retryQueue s !! call_path c with
             | Some _ => s
             | None => with_retryQueue (<[call_path c:=0]> (retryQueue s)) s
             end).
  assert (calm s s1) as H1 by (subst s1; case_match; split; views; done).
  case_match; [|done].
  eapply calm_trans; [exact H1|].
  eapply calm_trans; [|apply upload_calm with (c := h)].
  - split; views; done.
  - simpl. by rewrite (calm_client _ _ H1).
Qed.

Lemma resume_task_calm k r cancelled s h :
  client s = Some h → calm s (resume_task k r cancelled s).
Proof.
  intros H. unfold resume_task.
  destruct (calls s !! k) as [c|]; [|apply calm_refl].
  destruct (call_live c); [|apply calm_refl].
  set (s1 := with_calls _ s).
  assert (calm s s1) as H1 by (split; views; done).
  eapply calm_trans; [exact H1|].
  destruct r as [e|v]; [destruct (call_method c)|]; try apply settle_calm.
  eapply calm_trans; [|apply settle_calm].
  by apply on_multipart_error_calm with (h := h).
Qed.

Lemma resume_init_calm i s : calm s (resume_init i s).
Proof.
  unfold resume_init. repeat case_match; try apply calm_refl.
  eapply calm_trans; [|apply emit_calm]. split; views; done.
Qed.
Lemma calm_single_flight s s' c :
  client s = Some c → calm s s' → single_flight s → single_flight s'.
Proof.
  intros Hc [] [Hp H]. unfold single_flight in *.
  rewrite Hc in H. rewrite calm_client0, Hc, calm_provider0, calm_constructed0, calm_stores0.
  done.
Qed.

Lemma deferred_lookup (l : list store_state) g st :
  Forall (eq StoreDeferred) l → l !! g = Some st → st = StoreDeferred.
Proof.
  intros H Hg. rewrite Forall_lookup in H. by rewrite <- (H _ _ Hg).
Qed.

Lemma sole_pending_test n :
  negb (Z.of_nat n - 1 =? 0)%Z = negb (n =? 1).
Proof.
  f_equal. destruct (Nat.eqb_spec n 1) as [->|Hn]; [done|].
  apply Z.eqb_neq. lia.
Qed.

Lemma init_absent s :
  client s = None →
  init s =
  with_inits (inits (getStore s).2 ++ [InitAwaitsStore (getStore s).1])
    (getStore s).2.
Proof. intros H. unfold init. rewrite H. by destruct (getStore s). Qed.

Lemma getStore_deferred s :
  client s = None → length (event s) ≠ 1 →
  getStore s = (length (stores s), push_store StoreDeferred s).
Proof.
  intros Hc Hn. unfold getStore, event_length. rewrite Hc, sole_pending_test.
  by destruct (Nat.eqb_spec (length (event s)) 1).
Qed.

Lemma construct_cases s :
  (∃ e, oss_rejects (omit ["async"; "getOptions"] (opts s)) = Some e ∧
        construct s = (StoreThrew e, s)) ∨
  (oss_rejects (omit ["async"; "getOptions"] (opts s)) = None ∧
   construct s =
     (StoreResolved (Handle (omit ["async"; "getOptions"] (opts s))),
      with_client (Some (Handle (omit ["async"; "getOptions"] (opts s))))
        (record (NewOSS (omit ["async"; "getOptions"] (opts s))) s))).
Proof. unfold construct. destruct (oss_rejects _); eauto. Qed.

(** The states from which the first [getStore] call is made and what
    it leaves. *)
Lemma getStore_leader s :
  client s = None → length (event s) = 1 →
  ∃ st s', getStore s = (length (stores s), push_store st s') ∧
    ((st = StoreAwaitsProvider ∧ s' = record GetOptions s) ∨
     (st = StoreThrew TypeError ∧ (s' = record GetOptions s ∨ s' = s)) ∨
     (truthy (opt "async" s) = false ∧ construct s = (st, s'))).
Proof.
  intros Hc Hn. unfold getStore, event_length. rewrite Hc, sole_pending_test, Hn.
  simpl. destruct (truthy (opt "async" s)).
  - destruct (opt "getOptions" s) as [| | | | |[]|]; eauto 10.
  - destruct (construct s) as [st s'] eqn:E. eauto 10.
Qed.

Lemma single_flight_absent s :
  client s = None →
  single_flight s ↔
  provider_calls s ≤ 1 ∧ constructed s = [] ∧ executed s = [] ∧ calls s = [] ∧
  Forall (eq Pending) (promises s) ∧
  match stores s with
  | [] => event s = [] ∧ provider_calls s = 0
  | st :: rest =>
      event s ≠ [] ∧ (∀ c, st ≠ StoreResolved c) ∧
      Forall (eq StoreDeferred) rest
  end.
Proof. intros H. unfold single_flight. by rewrite H. Qed.

Lemma upload_single_flight t s :
  client s = None → single_flight s →
  single_flight (init (on (guid (new_promise s).2).1 t (guid (new_promise s).2).2)).
Proof.
  intros Hc Hs. apply single_flight_absent in Hs; [|done].
  destruct Hs as (Hp & Hcons & Hexe & Hcalls & Hpend & Hst).
  set (s1 := on _ t _).
  assert (client s1 = None) as Hc1 by done.
  rewrite init_absent by done.
  destruct (stores s) as [|st rest] eqn:Hstores.
  - destruct Hst as [He Hp0].
    destruct (getStore_leader s1) as (st & s' & Hg & Hcases); [done| |].
    { subst s1. simpl. by rewrite He. }
    rewrite Hg. simpl.
    assert (Forall (eq Pending) (promises s ++ [Pending])) as Hpend'
      by (apply Forall_app; split; [done|by constructor]).
    destruct Hcases as [[-> ->]|[[-> [->| ->]]|[Ha Hk]]].
    + apply single_flight_absent; [done|]. views. rewrite Hp0, Hstores, He. simpl.
      repeat split; try done; lia.
    + apply single_flight_absent; [done|]. views. rewrite Hp0, Hstores, He. simpl.
      repeat split; try done; lia.
    + apply single_flight_absent; [done|]. views. rewrite Hstores, He. simpl.
      repeat split; try done; lia.
    + destruct (construct_cases s1) as [(e & _ & Hk')|[_ Hk']];
        rewrite Hk' in Hk; simplify_eq.
      * apply single_flight_absent; [done|]. views. rewrite Hstores, He. simpl.
        repeat split; try done; lia.
      * unfold single_flight. views. rewrite Hcons, Hstores. simpl.
        repeat split; try done; try lia. by exists [].
  - destruct Hst as (He & Hres & Hdef).
    rewrite getStore_deferred; [|done|].
    2: { subst s1. simpl. rewrite length_app. simpl. destruct (event s); [done|simpl; lia]. }
    apply single_flight_absent; [done|]. views. rewrite Hstores. simpl.
    repeat split; try done.
    + apply Forall_app; split; [done|by constructor].
    + by destruct (event s).
    + apply Forall_app; split; [done|by constructor].
Qed.

Lemma single_flight_step s i :
  is_upload i = true → single_flight s → single_flight (step s i).
Proof.
  intros Hi Hs. destruct (client s) as [c|] eqn:Hc.
  - apply (calm_single_flight s _ c); [done| |done].
    destruct Hs as [_ Hs]. rewrite Hc in Hs.
    destruct Hs as (_ & rest & Hst & Hdef).
    destruct i as [f d cfg|f d cfg| |g r|j|k r cancelled]; simpl; try done.
    + apply (upload_calm (PutTask _ _ _ _) s c Hc).
    + apply (upload_calm (MultipartTask _ _ _ _) s c Hc).
    + unfold resume_getStore.
      destruct (stores s !! g) as [[]|] eqn:Hg; try apply calm_refl.
      rewrite Hst in Hg. destruct g as [|g]; [done|]. simpl in Hg.
      by apply (deferred_lookup _ _ _ Hdef) in Hg.
    + apply resume_init_calm.
    + by apply resume_task_calm with (h := c).
  - destruct i as [f d cfg|f d cfg| |g r|j|k r cancelled]; simpl; try done.
    + by apply (upload_single_flight (PutTask _ _ _ _)).
    + by apply (upload_single_flight (MultipartTask _ _ _ _)).
    + pose proof Hs as Hs'. apply single_flight_absent in Hs'; [|done].
      destruct Hs' as (Hp & Hcons & Hexe & Hcalls & Hpend & Hst).
      unfold resume_getStore.
      destruct (stores s !! g) as [[]|] eqn:Hg; try done.
      destruct (stores s) as [|st rest] eqn:Hstores; [done|].
      destruct Hst as (He & Hres & Hdef).
      destruct g as [|g]; simpl in Hg.
      2: { by apply (deferred_lookup _ _ _ Hdef) in Hg. }
      simplify_eq.
      set (s1 := with_opts _ s).
      destruct (construct_cases s1) as [(e & _ & Hk)|[_ Hk]]; rewrite Hk.
      * apply single_flight_absent; [done|]. views. rewrite Hstores. simpl.
        repeat split; try done.
      * unfold single_flight. views. rewrite Hcons, Hstores. simpl.
        repeat split; try done. by exists rest.
    + pose proof Hs as Hs'. apply single_flight_absent in Hs'; [|done].
      destruct Hs' as (Hp & Hcons & Hexe & Hcalls & Hpend & Hst).
      unfold resume_init.
      destruct (inits s !! j) as [[|g]|]; try done.
      destruct (stores s !! g) as [[]|] eqn:Hg; try done.
      destruct (stores s) as [|st rest] eqn:Hstores; [done|].
      destruct Hst as (He & Hres & Hdef).
      destruct g as [|g]; simpl in Hg.
      * simplify_eq. by destruct (Hres c).
      * by apply (deferred_lookup _ _ _ Hdef) in Hg.
    + pose proof Hs as Hs'. apply single_flight_absent in Hs'; [|done].
      destruct Hs' as (Hp & Hcons & Hexe & Hcalls & Hpend & Hst).
      unfold resume_task. by rewrite Hcalls.
Qed.

Lemma single_flight_new options : single_flight (new_AliOSS options).
Proof. split; [unfold provider_calls; simpl; lia|]. simpl. by repeat split. Qed.

Lemma single_flight_run s tr :
  forallb is_upload tr = true → single_flight s → single_flight (run s tr).
Proof.
  revert s; induction tr as [|i tr IH]; intros s Htr Hs; simpl in *; [done|].
  apply andb_prop in Htr as [Hi Htr].
  apply IH; [done|]. by apply single_flight_step.
Qed.

Lemma upload_deferred t s :
  client s = None → event s ≠ [] →
  init (on (guid (new_promise s).2).1 t (guid (new_promise s).2).2) =
  with_inits (inits s ++ [InitAwaitsStore (length (stores s))])
    (push_store StoreDeferred
       (on (guid (new_promise s).2).1 t (guid (new_promise s).2).2)).
Proof.
  intros Hc He. rewrite init_absent by done.
  rewrite getStore_deferred; [done|done|].
  simpl. rewrite length_app. simpl. destruct (event s); [done|simpl; lia].
Qed.

Lemma put_eq f d cfg s :
  put f d cfg s =
  init (on (guid (new_promise s).2).1 (PutTask (new_promise s).1 f d cfg)
          (guid (new_promise s).2).2).
Proof. done. Qed.

Lemma multipartUpload_eq f d cfg s :
  multipartUpload f d cfg s =
  init (on (guid (new_promise s).2).1 (MultipartTask (new_promise s).1 f d cfg)
          (guid (new_promise s).2).2).
Proof. done. Qed.

(** Once the first [getStore] call has thrown, the instance stays as it
    is: the later calls return at the test of the queue length. *)
Lemma stalled_step s i e rest :
  is_upload i = true → single_flight s →
  client s = None → stores s = StoreThrew e :: rest →
  client (step s i) = None ∧ ∃ rest', stores (step s i) = StoreThrew e :: rest'.
Proof.
  intros Hi Hs Hc Hst. pose proof Hs as Hs'.
  apply single_flight_absent in Hs'; [|done].
  destruct Hs' as (Hp & Hcons & Hexe & Hcalls & Hpend & Hsh).
  rewrite Hst in Hsh. destruct Hsh as (He & _ & Hdef).
  destruct i as [f d cfg|f d cfg| |g r|j|k r cancelled]; simpl; try done.
  - rewrite put_eq, upload_deferred by done.
    simpl. rewrite Hst. eauto.
  - rewrite multipartUpload_eq, upload_deferred by done.
    simpl. rewrite Hst. eauto.
  - unfold resume_getStore.
    destruct (stores s !! g) as [[]|] eqn:Hg; eauto.
    rewrite Hst in Hg. destruct g as [|g]; [done|]. simpl in Hg.
    by apply (deferred_lookup _ _ _ Hdef) in Hg.
  - unfold resume_init.
    destruct (inits s !! j) as [[|g]|]; eauto.
    destruct (stores s !! g) as [[]|] eqn:Hg; eauto.
    rewrite Hst in Hg. destruct g as [|g]; [done|]. simpl in Hg.
    by apply (deferred_lookup _ _ _ Hdef) in Hg.
  - unfold resume_task. rewrite Hcalls. simpl. eauto.
Qed.

Lemma stalled_run s tr e rest :
  forallb is_upload tr = true → single_flight s →
  client s = None → stores s = StoreThrew e :: rest →
  client (run s tr) = None ∧ single_flight (run s tr).
Proof.
  revert s rest; induction tr as [|i tr IH]; intros s rest Htr Hs Hc Hst;
    simpl in *; [done|].
  apply andb_prop in Htr as [Hi Htr].
  destruct (stalled_step s i e rest) as (Hc' & rest' & Hst'); try done.
  eapply IH; eauto. by apply single_flight_step.
Qed.

Lemma threw_is_first s g e :
  single_flight s → stores s !! g = Some (StoreThrew e) →
  client s = None ∧ ∃ rest, stores s = StoreThrew e :: rest.
Proof.
  intros [_ Hs] Hg. destruct (client s) as [c|].
  - destruct Hs as (_ & rest & Hst & Hdef). rewrite Hst in Hg.
    destruct g as [|g]; [done|]. simpl in Hg.
    by apply (deferred_lookup _ _ _ Hdef) in Hg.
  - destruct Hs as (_ & _ & _ & _ & Hsh).
    destruct (stores s) as [|st rest]; [done|].
    destruct Hsh as (_ & _ & Hdef).
    destruct g as [|g]; simpl in Hg; [simplify_eq; eauto|].
    by apply (deferred_lookup _ _ _ Hdef) in Hg.
Qed.

(** ** The queue *)

Lemma idle_refl s : idle s s.
Proof. by split. Qed.

Lemma idle_trans s1 s2 s3 : idle s1 s2 → idle s2 s3 → idle s1 s3.
Proof. intros [] []; split; try congruence; etrans; eauto. Qed.

Lemma getStore_idle s : idle s (getStore s).2.
Proof.
  unfold getStore, construct, push_store.
  repeat case_match; simplify_eq; split; views; done.
Qed.

Lemma resume_getStore_idle g r s : idle s (resume_getStore g r s).
Proof.
  unfold resume_getStore, construct.
  repeat case_match; simplify_eq; split; views; done.
Qed.

Lemma settle_idle p o s : idle s (settle p o s).
Proof. unfold settle. repeat case_match; split; views; done. Qed.

Lemma run_task_queue kt s :
  registered (run_task kt s) = registered s ∧
  drains (run_task kt s) = drains s ∧
  executed (run_task kt s) = executed s ++ [kt.1] ∧
  event (run_task kt s) = event s ∧
  inits (run_task kt s) = inits s ∧
  resubmitted (run_task kt s) = resubmitted s.
Proof.
  destruct kt as [k [pid f d c|pid f d c]]; open_task.
  all: repeat case_match; simplify_eq; views; done.
Qed.

Lemma run_tasks_queue q s :
  registered (run_tasks q s) = registered s ∧
  drains (run_tasks q s) = drains s ∧
  executed (run_tasks q s) = executed s ++ q.*1 ∧
  event (run_tasks q s) = event s ∧
  inits (run_tasks q s) = inits s ∧
  resubmitted (run_tasks q s) = resubmitted s.
Proof.
  revert s; induction q as [|kt q IH]; intros s; simpl.
  - by rewrite app_nil_r.
  - destruct (IH (run_task kt s)) as (-> & -> & -> & -> & -> & ->).
    destruct (run_task_queue kt s) as (-> & -> & -> & -> & -> & ->).
    by rewrite <- app_assoc.
Qed.

Lemma emit_queue i s :
  registered (emit i s) = registered s ∧
  drains (emit i s) = drains s ++ [(i, (event s).*1)] ∧
  executed (emit i s) = executed s ++ (event s).*1 ∧
  inits (emit i s) = inits s ∧
  resubmitted (emit i s) = resubmitted s.
Proof.
  destruct (run_tasks_queue (event s) s) as (Hr & Hd & He & _ & Hi & Hre).
  unfold emit. views. by rewrite Hr, Hd, He, Hi, Hre.
Qed.

Lemma fifo_idle s s' : idle s s' → fifo s → fifo s'.
Proof.
  intros [] (H1 & H2 & H3 & H4). unfold fifo.
  rewrite idle_registered0, idle_executed0, idle_drains0, idle_event0.
  repeat split; try done.
  eapply Forall_impl; [exact H3|]. simpl. lia.
Qed.

Lemma fifo_emit i s : fifo s → fifo (emit i s).
Proof.
  intros (H1 & H2 & H3 & H4).
  destruct (emit_queue i s) as (Hr & Hd & He & _).
  unfold fifo. rewrite Hr, Hd, He, emit_event. simpl.
  rewrite app_nil_r, fmap_app, concat_app. simpl. rewrite app_nil_r, H2.
  repeat split; try done.
  eapply Forall_impl; [exact H3|].
  intros k Hk. eapply Nat.lt_le_trans; [exact Hk|].
  apply (calm_guids _ _ (emit_calm i s)).
Qed.

Lemma register_queue t s :
  let s1 := on (guid (new_promise s).2).1 t (guid (new_promise s).2).2 in
  registered s1 = registered s ++ [guids s] ∧
  executed s1 = executed s ∧
  drains s1 = drains s ∧
  event s1 = event s ++ [(guids s, t)] ∧
  guids s1 = S (guids s) ∧
  inits s1 = inits s.
Proof. simpl. views. done. Qed.

Lemma fifo_register t s :
  fifo s → fifo (on (guid (new_promise s).2).1 t (guid (new_promise s).2).2).
Proof.
  intros (H1 & H2 & H3 & H4).
  destruct (register_queue t s) as (Hr & He & Hd & Hq & Hg & _).
  unfold fifo. rewrite Hr, He, Hd, Hq, Hg, fmap_app, app_assoc, <- H1. simpl.
  repeat split; try done.
  - apply Forall_app; split; [|constructor; [lia|done]].
    eapply Forall_impl; [exact H3|]. simpl. lia.
  - apply NoDup_app; repeat split; try done.
    + intros k Hk Hk'. apply list_elem_of_singleton in Hk'. subst k.
      rewrite Forall_forall in H3. specialize (H3 _ Hk). lia.
    + apply NoDup_singleton.
Qed.

Lemma with_inits_idle_but x s :
  registered (with_inits x s) = registered s ∧
  executed (with_inits x s) = executed s ∧
  drains (with_inits x s) = drains s ∧
  event (with_inits x s) = event s ∧
  guids (with_inits x s) = guids s.
Proof. done. Qed.

Lemma fifo_with_inits x s : fifo s ↔ fifo (with_inits x s).
Proof. done. Qed.

Lemma fifo_init s : fifo s → fifo (init s).
Proof.
  intros H. unfold init. destruct (client s).
  - apply fifo_emit. by apply fifo_with_inits.
  - pose proof (getStore_idle s) as Hi. destruct (getStore s) as [g s'].
    simpl in Hi. apply fifo_with_inits. by apply (fifo_idle s).
Qed.

Lemma fifo_upload t s :
  fifo s → fifo (init (on (guid (new_promise s).2).1 t (guid (new_promise s).2).2)).
Proof. intros H. by apply fifo_init, fifo_register. Qed.

Lemma fifo_resume_task k r cancelled s : fifo s → fifo (resume_task k r cancelled s).
Proof.
  intros H. unfold resume_task.
  destruct (calls s !! k) as [c|]; [|done].
  destruct (call_live c); [|done].
  set (s1 := with_calls _ s). assert (fifo s1) as H1 by done.
  destruct r as [e|v]; [destruct (call_method c)|];
    try (eapply fifo_idle; [apply settle_idle|done]).
  eapply fifo_idle; [apply settle_idle|].
  unfold on_multipart_error. case_match; [done|].
  set (s2 := match retryQueue s1 !! call_path c with
             | Some _ => s1
             | None => _
             end).
  assert (fifo s2) as Hs2
    by (subst s2; destruct (retryQueue s1 !! call_path c); exact H1).
  destruct (js_lt _ _); [|exact Hs2].
  rewrite multipartUpload_eq. apply fifo_upload.
  eapply fifo_idle; [|exact Hs2]. split; views; done.
Qed.

Lemma fifo_step s i : fifo s → fifo (step s i).
Proof.
  intros H. destruct i as [f d cfg|f d cfg| |g r|j|k r cancelled]; simpl.
  - rewrite put_eq. by apply fifo_upload.
  - rewrite multipartUpload_eq. by apply fifo_upload.
  - eapply fifo_idle; [apply getStore_idle|done].
  - eapply fifo_idle; [apply resume_getStore_idle|done].
  - unfold resume_init. repeat case_match; try done.
    apply fifo_emit. by apply fifo_with_inits.
  - by apply fifo_resume_task.
Qed.

Lemma fifo_run s tr : fifo s → fifo (run s tr).
Proof.
  revert s; induction tr as [|i tr IH]; intros s H; simpl; [done|].
  by apply IH, fifo_step.
Qed.

Lemma fifo_new options : fifo (new_AliOSS options).
Proof. unfold fifo. simpl. repeat split; try done; constructor. Qed.

(** ** The calls of [getStore] and of [#init] *)

Lemma getStore_stores s :
  (getStore s).1 = length (stores s) ∧
  ∃ st, stores (getStore s).2 = stores s ++ [st].
Proof.
  unfold getStore, construct, push_store.
  repeat case_match; simplify_eq; simpl; eauto.
Qed.

Lemma upload_shape t s :
  let s' := init (on (guid (new_promise s).2).1 t (guid (new_promise s).2).2) in
  (∃ more, stores s' = stores s ++ more) ∧
  ∃ x, inits s' = inits s ++ [x] ∧
    (drains s' = drains s ∨
     x = InitEmitted ∧ ∃ ks, drains s' = drains s ++ [(length (inits s), ks)]).
Proof.
  simpl. set (s1 := on _ t _).
  assert (drains s1 = drains s ∧ inits s1 = inits s ∧ stores s1 = stores s)
    as (Hd & Hi & Hs) by (subst s1; repeat split; views; done).
  clearbody s1. rewrite <- Hd, <- Hi, <- Hs. clear Hd Hi Hs.
  destruct (client s1) as [c|] eqn:Hc.
  - rewrite (init_present _ c) by done.
    destruct (emit_queue (length (inits s1)) (with_inits (inits s1 ++ [InitEmitted]) s1))
      as (_ & -> & _ & -> & _).
    rewrite (calm_stores _ _ (emit_calm _ _)). simpl.
    split; [exists []; by rewrite app_nil_r|].
    exists InitEmitted. split; [done|]. right. split; [done|]. by eexists.
  - rewrite init_absent by done.
    destruct (getStore_stores s1) as (-> & st & Hst).
    pose proof (getStore_idle s1) as [].
    simpl. rewrite Hst, idle_inits0. split; [by exists [st]|].
    eexists. split; [done|]. by left.
Qed.

Lemma step_shape s i :
  ((∃ more, stores (step s i) = stores s ++ more) ∨
   (∃ g st, stores s !! g = Some StoreAwaitsProvider ∧
            stores (step s i) = <[g := st]> (stores s))) ∧
  ((inits (step s i) = inits s ∧ drains (step s i) = drains s) ∨
   (∃ x, inits (step s i) = inits s ++ [x] ∧
      (drains (step s i) = drains s ∨
       x = InitEmitted ∧
       ∃ ks, drains (step s i) = drains s ++ [(length (inits s), ks)])) ∨
   (∃ j g c ks, inits s !! j = Some (InitAwaitsStore g) ∧
      stores s !! g = Some (StoreResolved c) ∧
      inits (step s i) = <[j := InitEmitted]> (inits s) ∧
      drains (step s i) = drains s ++ [(j, ks)])).
Proof.
  destruct i as [f d cfg|f d cfg| |g r|j|k r cancelled]; simpl.
  - rewrite put_eq. destruct (upload_shape (PutTask (new_promise s).1 f d cfg) s)
      as (Hs & Hi). split; [by left | right; by left].
  - rewrite multipartUpload_eq.
    destruct (upload_shape (MultipartTask (new_promise s).1 f d cfg) s)
      as (Hs & Hi). split; [by left | right; by left].
  - destruct (getStore_stores s) as (_ & st & Hst).
    pose proof (getStore_idle s) as []. split; [left; eauto | by left].
  - pose proof (resume_getStore_idle g r s) as []. split; [|by left].
    unfold resume_getStore.
    destruct (stores s !! g) as [[]|] eqn:Hg;
      try (left; exists []; by rewrite app_nil_r).
    right. exists g. set (s1 := with_opts _ s).
    destruct (construct_cases s1) as [(e & _ & ->)|[_ ->]]; simpl; eauto.
  - unfold resume_init.
    destruct (inits s !! j) as [[|g]|] eqn:Hj;
      try (split; [left; exists []; by rewrite app_nil_r | by left]).
    destruct (stores s !! g) as [[]|] eqn:Hg;
      try (split; [left; exists []; by rewrite app_nil_r | by left]).
    destruct (emit_queue j (with_inits (<[j:=InitEmitted]> (inits s)) s))
      as (_ & Hd & _ & Hi & _).
    split.
    + left; exists []. rewrite app_nil_r.
      apply (calm_stores _ _
               (emit_calm j (with_inits (<[j:=InitEmitted]> (inits s)) s))).
    + right; right. exists j, g, c, (event s).*1.
      split; [done|]. split; [done|]. split; [exact Hi | exact Hd].
  - unfold resume_task.
    destruct (calls s !! k) as [c|];
      [|split; [left; exists []; by rewrite app_nil_r | by left]].
    destruct (call_live c);
      [|split; [left; exists []; by rewrite app_nil_r | by left]].
    set (s1 := with_calls _ s).
    assert (∀ p o s2,
      stores (settle p o s2) = stores s2 ∧ inits (settle p o s2) = inits s2 ∧
      drains (settle p o s2) = drains s2) as Hsettle.
    { intros p o s2. pose proof (settle_idle p o s2) as [].
      by rewrite (calm_stores _ _ (settle_calm p o s2)). }
    destruct r as [e|v]; [destruct (call_method c)|];
      try (destruct (Hsettle (call_promise c) (Rejected e) s1) as (-> & -> & ->);
           split; [left; exists []; by rewrite app_nil_r | by left]);
      try (destruct (Hsettle (call_promise c) (Resolved (format formatResponse v s1)) s1)
             as (-> & -> & ->);
           split; [left; exists []; by rewrite app_nil_r | by left]).
    destruct (Hsettle (call_promise c) (Rejected e) (on_multipart_error c cancelled s1))
      as (-> & -> & ->).
    unfold on_multipart_error.
    destruct (match client s1 with Some _ => cancelled | None => false end);
      [split; [left; exists []; by rewrite app_nil_r | by left]|].
    set (s2 := match retryQueue s1 !! call_path c with
               | Some _ => s1
               | None => _
               end).
    assert (stores s2 = stores s ∧ inits s2 = inits s ∧ drains s2 = drains s)
      as (Hs2 & Hi2 & Hd2)
      by (subst s2; destruct (retryQueue s1 !! call_path c); done).
    destruct (js_lt _ _);
      [|rewrite Hs2, Hi2, Hd2;
        split; [left; exists []; by rewrite app_nil_r | by left]].
    rewrite multipartUpload_eq.
    set (s3 := record _ _).
    assert (stores s3 = stores s ∧ inits s3 = inits s ∧ drains s3 = drains s)
      as (Hs3 & Hi3 & Hd3).
    { subst s3. repeat split; views; done. }
    clearbody s3. rewrite <- Hs3, <- Hi3, <- Hd3.
    match goal with
    | |- context [on _ ?t (guid (new_promise s3).2).2] =>
        destruct (upload_shape t s3) as (Hs & Hi)
    end.
    split; [by left | right; by left].
Qed.

Lemma deferred_step s i g :
  stores s !! g = Some StoreDeferred →
  stores (step s i) !! g = Some StoreDeferred.
Proof.
  intros Hg. destruct (step_shape s i) as [[[more ->]|(g' & st & Hg' & ->)] _].
  - by apply lookup_app_l_Some.
  - rewrite list_lookup_insert_ne; [done|]. intros ->. congruence.
Qed.

Lemma waiting_step s i g j :
  stores s !! g = Some StoreDeferred →
  inits s !! j = Some (InitAwaitsStore g) →
  inits (step s i) !! j = Some (InitAwaitsStore g).
Proof.
  intros Hg Hj.
  destruct (step_shape s i)
    as [_ [[-> _]|[(x & -> & _)|(j' & g' & c & ks & Hj' & Hg' & -> & _)]]].
  - done.
  - by apply lookup_app_l_Some.
  - rewrite list_lookup_insert_ne; [done|]. intros ->. congruence.
Qed.

Lemma emitted_step s i j :
  inits s !! j = Some InitEmitted → inits (step s i) !! j = Some InitEmitted.
Proof.
  intros Hj.
  destruct (step_shape s i)
    as [_ [[-> _]|[(x & -> & _)|(j' & g' & c & ks & Hj' & Hg' & -> & _)]]].
  - done.
  - by apply lookup_app_l_Some.
  - rewrite list_lookup_insert_ne; [done|]. intros ->. congruence.
Qed.

Lemma emitted_only_step s i : emitted_only s → emitted_only (step s i).
Proof.
  intros H. unfold emitted_only in *.
  assert (Forall (fun d => inits (step s i) !! d.1 = Some InitEmitted) (drains s))
    as H'.
  { eapply Forall_impl; [exact H|]. intros d. apply emitted_step. }
  destruct (step_shape s i)
    as [_ [[Hi Hd]|[(x & Hi & [Hd|(-> & ks & Hd)])
                   |(j' & g' & c & ks & Hj' & Hg' & Hi & Hd)]]];
    rewrite Hd; try done.
  - apply Forall_app; split; [done|]. constructor; [|done]. simpl.
    rewrite Hi. by rewrite lookup_app_r, Nat.sub_diag.
  - apply Forall_app; split; [done|]. constructor; [|done]. simpl.
    rewrite Hi. apply list_lookup_insert_eq. by eapply lookup_lt_Some.
Qed.

Lemma emitted_only_run s tr : emitted_only s → emitted_only (run s tr).
Proof.
  revert s; induction tr as [|i tr IH]; intros s H; simpl; [done|].
  by apply IH, emitted_only_step.
Qed.

Lemma waiting_run s tr g j :
  stores s !! g = Some StoreDeferred →
  inits s !! j = Some (InitAwaitsStore g) →
  stores (run s tr) !! g = Some StoreDeferred ∧
  inits (run s tr) !! j = Some (InitAwaitsStore g).
Proof.
  revert s; induction tr as [|i tr IH]; intros s Hg Hj; simpl; [done|].
  apply IH; [by apply deferred_step | by apply waiting_step].
Qed.

(** ** The promises of the callers *)

Lemma keeps_refl s : keeps s s.
Proof. by intros p o. Qed.

Lemma keeps_trans s1 s2 s3 : keeps s1 s2 → keeps s2 s3 → keeps s1 s3.
Proof. intros H1 H2 p o Hp Ho. apply H2; [by apply H1 | done]. Qed.

Lemma keeps_same s s' : promises s' = promises s → keeps s s'.
Proof. intros H p o. by rewrite H. Qed.

Lemma settle_keeps p o s : keeps s (settle p o s).
Proof.
  intros q o' Hq Ho'. unfold settle.
  destruct (promises s !! p) as [[]|] eqn:Hp; try done. simpl.
  rewrite list_lookup_insert_ne; [done|]. intros ->. congruence.
Qed.

Lemma new_promise_keeps s : keeps s (new_promise s).2.
Proof. intros p o Hp _. simpl. by apply lookup_app_l_Some. Qed.

Lemma run_task_keeps kt s : keeps s (run_task kt s).
Proof.
  destruct kt as [k [pid f d c|pid f d c]];
    unfold run_task, run_put, run_multipart, generate, start_call; simpl.
  all: repeat case_match; simplify_eq;
    try (by apply keeps_same);
    try (eapply keeps_trans; [|apply settle_keeps]; by apply keeps_same).
Qed.

Lemma run_tasks_keeps q s : keeps s (run_tasks q s).
Proof.
  revert s; induction q as [|kt q IH]; intros s; simpl; [apply keeps_refl|].
  eapply keeps_trans; [apply run_task_keeps | apply IH].
Qed.

Lemma emit_keeps i s : keeps s (emit i s).
Proof.
  eapply keeps_trans; [apply (run_tasks_keeps (event s))|]. by apply keeps_same.
Qed.

Lemma getStore_promises s : promises (getStore s).2 = promises s.
Proof.
  unfold getStore, construct, push_store. repeat case_match; simplify_eq; done.
Qed.

Lemma init_keeps s : keeps s (init s).
Proof.
  unfold init. destruct (client s).
  - eapply keeps_trans; [|apply emit_keeps]. by apply keeps_same.
  - pose proof (getStore_promises s) as H. destruct (getStore s) as [g s'].
    by apply keeps_same.
Qed.

Lemma upload_keeps t s :
  keeps s (init (on (guid (new_promise s).2).1 t (guid (new_promise s).2).2)).
Proof.
  eapply keeps_trans; [apply new_promise_keeps|].
  eapply keeps_trans; [|apply init_keeps]. by apply keeps_same.
Qed.

Lemma on_multipart_error_keeps c cancelled s :
  keeps s (on_multipart_error c cancelled s).
Proof.
  unfold on_multipart_error.
  destruct (match client s with Some _ => cancelled | None => false end);
    [apply keeps_refl|].
  set (s2 := match retryQueue s !! call_path c with
             | Some _ => s
             | None => _
             end).
  assert (promises s2 = promises s) as H2
    by (subst s2; by destruct (retryQueue s !! call_path c)).
  destruct (js_lt _ _); [|by apply keeps_same].
  rewrite multipartUpload_eq.
  eapply keeps_trans; [|apply upload_keeps]. by apply keeps_same.
Qed.

Lemma resume_task_keeps k r cancelled s : keeps s (resume_task k r cancelled s).
Proof.
  unfold resume_task.
  destruct (calls s !! k) as [c|]; [|apply keeps_refl].
  destruct (call_live c); [|apply keeps_refl].
  set (s1 := with_calls _ s).
  assert (keeps s s1) as H1 by by apply keeps_same.
  eapply keeps_trans; [exact H1|].
  destruct r as [e|v]; [destruct (call_method c)|]; try apply settle_keeps.
  eapply keeps_trans; [apply on_multipart_error_keeps | apply settle_keeps].
Qed.

Lemma step_keeps s i : keeps s (step s i).
Proof.
  destruct i as [f d cfg|f d cfg| |g r|j|k r cancelled]; simpl.
  - rewrite put_eq. apply upload_keeps.
  - rewrite multipartUpload_eq. apply upload_keeps.
  - apply keeps_same, getStore_promises.
  - apply keeps_same. unfold resume_getStore, construct.
    repeat case_match; simplify_eq; done.
  - unfold resume_init. repeat case_match; try apply keeps_refl.
    eapply keeps_trans; [|apply emit_keeps]. by apply keeps_same.
  - apply resume_task_keeps.
Qed.

Lemma run_keeps s tr : keeps s (run s tr).
Proof.
  revert s; induction tr as [|i tr IH]; intros s; simpl; [apply keeps_refl|].
  eapply keeps_trans; [apply step_keeps | apply IH].
Qed.

Lemma settle_other p q o s :
  p ≠ q → promises (settle q o s) !! p = promises s !! p.
Proof.
  intros Hpq. unfold settle.
  destruct (promises s !! q) as [[]|]; try done. simpl.
  by rewrite list_lookup_insert_ne.
Qed.

Lemma settle_pending p o s :
  promises s !! p = Some Pending → promises (settle p o s) !! p = Some o.
Proof.
  intros Hp. unfold settle. rewrite Hp. simpl.
  apply list_lookup_insert_eq. by eapply lookup_lt_Some.
Qed.

Lemma settle_calls p o s : calls (settle p o s) = calls s.
Proof. unfold settle. by repeat case_match. Qed.

Lemma run_task_absent kt s :
  client s = None →
  calls (run_task kt s) = calls s ∧
  promises (run_task kt s) =
    promises (settle (task_promise kt.2) (Rejected TypeError) s).
Proof.
  intros Hc.
  destruct kt as [k [pid f d c|pid f d c]];
    unfold run_task, run_put, run_multipart, generate, start_call, settle; simpl.
  all: rewrite ?Hc; simpl.
  all: repeat case_match; simplify_eq; simpl in *; rewrite ?Hc; simpl.
  all: try done. all: congruence.
Qed.

Lemma run_task_present kt s c :
  client s = Some c →
  ∃ m path data cfg,
    promises (run_task kt s) = promises s ∧
    calls (run_task kt s) =
      calls s ++ [BackendCall m (task_promise kt.2) path data cfg true].
Proof.
  intros Hc.
  destruct kt as [k [pid f d cfg|pid f d cfg]];
    unfold run_task, run_put, run_multipart, generate, start_call; simpl.
  all: rewrite ?Hc; simpl.
  all: repeat case_match; simplify_eq; simpl in *; rewrite ?Hc; simpl.
  all: try congruence.
  all: do 4 eexists; split; reflexivity.
Qed.

Lemma run_task_effect kt s :
  (client s = None ∧ calls (run_task kt s) = calls s ∧
   promises (run_task kt s) =
     promises (settle (task_promise kt.2) (Rejected TypeError) s)) ∨
  (∃ m path data cfg,
     client s ≠ None ∧ promises (run_task kt s) = promises s ∧
     calls (run_task kt s) =
       calls s ++ [BackendCall m (task_promise kt.2) path data cfg true]).
Proof.
  destruct (client s) as [c|] eqn:Hc.
  - right. destruct (run_task_present kt s c Hc) as (m & p & d & cfg & H).
    by exists m, p, d, cfg.
  - left. split; [done|]. by apply run_task_absent.
Qed.

Lemma owned_frame ps s s' :
  calls s' = calls s →
  (∀ p, promises s !! p = Some Pending → promises s' !! p = Some Pending) →
  owned ps s → owned ps s'.
Proof.
  intros Hc Hp [H1 H2]. unfold owned, awaited in *. rewrite Hc.
  split; [done|]. eapply Forall_impl; [exact H2|]. apply Hp.
Qed.

Lemma owned_run_task kt ps s :
  owned (task_promise kt.2 :: ps) s → owned ps (run_task kt s).
Proof.
  intros [H1 H2]. unfold owned, awaited in *. simpl in H1, H2.
  apply NoDup_cons in H1 as [Hnew H1]. apply Forall_cons in H2 as [Hp H2].
  destruct (run_task_effect kt s)
    as [(Hc & Hcalls & Hprom)|(m & path & data & cfg & Hc & Hprom & Hcalls)].
  - rewrite Hcalls. split; [done|].
    apply Forall_forall. intros p Hin.
    rewrite Forall_forall in H2. rewrite Hprom, settle_other; [by apply H2|].
    intros ->. done.
  - rewrite Hcalls, List.filter_app, map_app. simpl.
    rewrite app_assoc.
    split.
    + rewrite NoDup_app. repeat split; try done.
      * intros p Hin Hp'. apply list_elem_of_singleton in Hp'. by subst p.
      * apply NoDup_singleton.
    + rewrite Hprom. apply Forall_app; split; [done|]. by constructor.
Qed.

Lemma owned_run_tasks q ps s :
  owned (queued q ++ ps) s → owned ps (run_tasks q s).
Proof.
  revert s; induction q as [|kt q IH]; intros s H; simpl in *; [done|].
  by apply IH, owned_run_task.
Qed.

Lemma owned_emit i ps s :
  owned (queued (event s) ++ ps) s →
  owned (queued (event (emit i s)) ++ ps) (emit i s).
Proof.
  intros H. rewrite emit_event. simpl.
  apply owned_run_tasks in H. revert H. by apply owned_frame.
Qed.

Lemma owned_register t ps s :
  task_promise t = (new_promise s).1 →
  owned (queued (event s) ++ ps) s →
  let s1 := on (guid (new_promise s).2).1 t (guid (new_promise s).2).2 in
  owned (queued (event s1) ++ ps) s1.
Proof.
  intros Ht [H1 H2]. simpl. unfold owned, awaited, queued in *. simpl in *.
  rewrite map_app. simpl. rewrite Ht.
  set (qs := map (fun kt => task_promise kt.2) (event s)) in *.
  set (aw := map call_promise (List.filter call_live (calls s))) in *.
  assert (length (promises s) ∉ (qs ++ ps) ++ aw) as Hfresh.
  { intros Hin. rewrite Forall_forall in H2. specialize (H2 _ Hin).
    apply lookup_lt_Some in H2. lia. }
  assert (((qs ++ [length (promises s)]) ++ ps) ++ aw
          ≡ₚ length (promises s) :: (qs ++ ps) ++ aw) as Hperm.
  { rewrite <- !app_assoc. simpl. symmetry. apply Permutation_middle. }
  split.
  - rewrite Hperm. by apply NoDup_cons.
  - rewrite Hperm. constructor.
    + by rewrite lookup_app_r, Nat.sub_diag.
    + eapply Forall_impl; [exact H2|]. intros p Hp. by apply lookup_app_l_Some.
Qed.

Lemma owned_init ps s :
  owned (queued (event s) ++ ps) s →
  owned (queued (event (init s)) ++ ps) (init s).
Proof.
  intros H. unfold init. destruct (client s).
  - by apply owned_emit.
  - pose proof (getStore_promises s) as Hp.
    pose proof (idle_event _ _ (getStore_idle s)) as He.
    assert (calls (getStore s).2 = calls s) as Hc.
    { unfold getStore, construct, push_store.
      repeat case_match; simplify_eq; done. }
    destruct (getStore s) as [g s']. simpl in *. rewrite He.
    revert H. apply owned_frame; [done|]. intros p. simpl. by rewrite Hp.
Qed.

Lemma owned_upload t ps s :
  task_promise t = (new_promise s).1 →
  owned (queued (event s) ++ ps) s →
  let s' := init (on (guid (new_promise s).2).1 t (guid (new_promise s).2).2) in
  owned (queued (event s') ++ ps) s'.
Proof. intros Ht H. by apply owned_init, owned_register. Qed.

Lemma awaited_retire s k c :
  calls s !! k = Some c → call_live c = true →
  awaited s ≡ₚ
  call_promise c ::
    awaited (with_calls
               (<[k := BackendCall (call_method c) (call_promise c) (call_path c)
                         (call_data c) (call_config c) false]> (calls s)) s).
Proof.
  intros Hk Hlive. unfold awaited. simpl.
  rewrite insert_take_drop by (by eapply lookup_lt_Some).
  rewrite <- (take_drop_middle (calls s) k c Hk) at 1.
  rewrite !List.filter_app. simpl. rewrite Hlive. rewrite !map_app. simpl.
  symmetry. apply Permutation_middle.
Qed.

Lemma owned_retire ps s k c :
  calls s !! k = Some c → call_live c = true →
  owned ps s →
  owned (ps ++ [call_promise c])
    (with_calls
       (<[k := BackendCall (call_method c) (call_promise c) (call_path c)
                 (call_data c) (call_config c) false]> (calls s)) s).
Proof.
  intros Hk Hlive [H1 H2]. unfold owned in *.
  rewrite (awaited_retire s k c Hk Hlive) in H1, H2.
  set (s1 := with_calls _ s) in *.
  assert ((ps ++ [call_promise c]) ++ awaited s1
          ≡ₚ ps ++ call_promise c :: awaited s1) as ->
    by by rewrite <- app_assoc.
  done.
Qed.

Lemma owned_release ps p o s : owned (ps ++ [p]) s → owned ps (settle p o s).
Proof.
  intros [H1 H2]. unfold owned in *.
  assert ((ps ++ [p]) ++ awaited s ≡ₚ p :: ps ++ awaited s) as Hperm.
  { rewrite <- app_assoc. simpl. symmetry. apply Permutation_middle. }
  rewrite Hperm in H1, H2.
  apply NoDup_cons in H1 as [Hnew H1]. apply Forall_cons in H2 as [Hp H2].
  unfold awaited in *. rewrite settle_calls. split; [done|].
  apply Forall_forall. intros q Hin. rewrite Forall_forall in H2.
  rewrite settle_other; [by apply H2|]. by intros ->.
Qed.

Lemma owned_held ps p s : owned (ps ++ [p]) s → promises s !! p = Some Pending.
Proof.
  intros [_ H]. rewrite Forall_forall in H. apply H.
  apply elem_of_app; left. apply elem_of_app; right. by apply list_elem_of_singleton.
Qed.

Lemma owned_on_multipart_error c cancelled ps s :
  owned (queued (event s) ++ ps) s →
  owned (queued (event (on_multipart_error c cancelled s)) ++ ps)
    (on_multipart_error c cancelled s).
Proof.
  intros H. unfold on_multipart_error.
  destruct (match client s with Some _ => cancelled | None => false end);
    [done|].
  set (s2 := match retryQueue s !! call_path c with
             | Some _ => s
             | None => _
             end).
  assert (owned (queued (event s2) ++ ps) s2) as H2
    by (subst s2; by destruct (retryQueue s !! call_path c)).
  destruct (js_lt _ _); [|done].
  rewrite multipartUpload_eq. by apply owned_upload.
Qed.

Lemma owned_resume_task k r cancelled s :
  owned (queued (event s)) s →
  owned (queued (event (resume_task k r cancelled s))) (resume_task k r cancelled s).
Proof.
  intros H. unfold resume_task.
  destruct (calls s !! k) as [c|] eqn:Hk; [|done].
  destruct (call_live c) eqn:Hlive; [|done].
  pose proof (owned_retire _ s k c Hk Hlive H) as H1.
  set (s1 := with_calls _ s) in *.
  change (event s) with (event s1) in H1.
  assert (∀ o s2, owned (queued (event s2) ++ [call_promise c]) s2 →
            owned (queued (event (settle (call_promise c) o s2)))
              (settle (call_promise c) o s2)) as Hrel.
  { intros o s2 H2. rewrite (idle_event _ _ (settle_idle _ _ _)).
    by apply owned_release. }
  destruct r as [e|v]; [destruct (call_method c)|]; try by apply Hrel.
  apply Hrel. by apply owned_on_multipart_error.
Qed.

Lemma owned_step s i :
  owned (queued (event s)) s → owned (queued (event (step s i))) (step s i).
Proof.
  intros H. rewrite <- (app_nil_r (queued (event s))) in H.
  destruct i as [f d cfg|f d cfg| |g r|j|k r cancelled]; simpl.
  - rewrite <- (app_nil_r (queued _)). rewrite put_eq. by apply owned_upload.
  - rewrite <- (app_nil_r (queued _)). rewrite multipartUpload_eq.
    by apply owned_upload.
  - rewrite (idle_event _ _ (getStore_idle s)).
    revert H. rewrite app_nil_r. apply owned_frame.
    + unfold getStore, construct, push_store.
      repeat case_match; simplify_eq; done.
    + intros p. by rewrite getStore_promises.
  - rewrite (idle_event _ _ (resume_getStore_idle g r s)).
    revert H. rewrite app_nil_r.
    apply owned_frame; unfold resume_getStore, construct;
      repeat case_match; simplify_eq; done.
  - unfold resume_init. rewrite app_nil_r in H. repeat case_match; try done.
    rewrite <- (app_nil_r (queued _)). apply owned_emit. by rewrite app_nil_r.
  - rewrite app_nil_r in H. by apply owned_resume_task.
Qed.

Lemma owned_run s tr :
  owned (queued (event s)) s → owned (queued (event (run s tr))) (run s tr).
Proof.
  revert s; induction tr as [|i tr IH]; intros s H; simpl; [done|].
  by apply IH, owned_step.
Qed.

Lemma owned_new options :
  owned (queued (event (new_AliOSS options))) (new_AliOSS options).
Proof. split; simpl; constructor. Qed.

(** The promise of a task that awaits the backend is pending. *)
Lemma awaited_pending options tr k c :
  calls (run (new_AliOSS options) tr) !! k = Some c → call_live c = true →
  promises (run (new_AliOSS options) tr) !! call_promise c = Some Pending.
Proof.
  intros Hk Hlive.
  pose proof (owned_run _ tr (owned_new options)) as H.
  apply (owned_held _ _ _ (owned_retire _ _ k c Hk Hlive H)).
Qed.

(** ** The tasks *)

Lemma merged_config_opts s s' config :
  opts s' = opts s → merged_config s' config = merged_config s config.
Proof. intros H. unfold merged_config, opt. by rewrite H. Qed.

Lemma rename_of_opts s s' config :
  opts s' = opts s → rename_of s' config = rename_of s config.
Proof. intros H. unfold rename_of, opt. by rewrite H. Qed.



Lemma run_multipart_present pid f d config s h :
  client s = Some h →
  let cfg := merged_config s config in
  let kept := truthy (js_or (get "checkpoint" cfg)
                        (js_or (get "__isRetry" cfg) (VBool false))) in
  let path := if kept then f else (generate f (rename_of s cfg) s).1 in
  let s1 := if kept then s else (generate f (rename_of s cfg) s).2 in
  let s2 := if negb (truthy (js_or (get "__isRetry" cfg) (VBool false)))
            then with_retryQueue (delete path (retryQueue s1)) s1
            else s1 in
  run_multipart pid f d config s = start_call MultipartUpload pid path d cfg s2.
Proof.
  intros H. unfold run_multipart. simpl.
  destruct (truthy (js_or (get "checkpoint" _) _)); simpl;
    destruct (truthy (js_or (get "__isRetry" _) _)); simpl; by rewrite H.
Qed.

Lemma truthy_or (a b : value) : truthy (js_or a b) = truthy a || truthy b.
Proof. unfold js_or. by destruct (truthy a) eqn:E. Qed.

(** A resubmission is recognised as one: the flag survives the merge
    with the instance's configuration. *)
Lemma retry_flag_survives (base cfg : value) :
  get "__isRetry"
    (deepMerge base (VObj (assign (own_props cfg) [("__isRetry", VBool true)])))
  = VBool true.
Proof.
  assert (lookup_field "__isRetry"
            (assign (own_props cfg) [("__isRetry", VBool true)])
          = Some (VBool true)) as Hflag.
  { rewrite lookup_assign. simpl. by destruct (lookup_field _ (own_props cfg)). }
  destruct base; try (unfold get; simpl; by rewrite Hflag).
  unfold get. rewrite lookup_deepMerge, Hflag.
  destruct (lookup_field "__isRetry" fields) as [bv|]; [|done].
  simpl. by destruct bv.
Qed.

Lemma present_step_calm s i c :
  single_flight s → client s = Some c → is_upload i = true →
  calm s (step s i).
Proof.
  intros [_ Hs] Hc Hi. rewrite Hc in Hs. destruct Hs as (_ & rest & Hst & Hdef).
  destruct i as [f d cfg|f d cfg| |g r|j|k r cancelled]; simpl; try done.
  - apply (upload_calm (PutTask _ _ _ _) s c Hc).
  - apply (upload_calm (MultipartTask _ _ _ _) s c Hc).
  - unfold resume_getStore.
    destruct (stores s !! g) as [[]|] eqn:Hg; try apply calm_refl.
    rewrite Hst in Hg. destruct g as [|g]; [done|]. simpl in Hg.
    by apply (deferred_lookup _ _ _ Hdef) in Hg.
  - apply resume_init_calm.
  - by apply resume_task_calm with (h := c).
Qed.

Lemma getStore_cached s c :
  client s = Some c →
  getStore s = (length (stores s), push_store (StoreResolved c) s).
Proof. intros H. unfold getStore. by rewrite H. Qed.


(** ** The calls the tasks make *)












(** ** The claims *)

(** C1.  However many calls of [put] and [multipartUpload] are made,
    and however they interleave with the provider, the continuations
    and the backend, at most one client is constructed and the provider
    is asked at most once.  A call of [getStore] that finds the client
    resolves with it and touches nothing else; one that finds no client
    and a queue whose length is not 1 returns without constructing; so
    does every upload call that arrives while the client is absent and
    the queue is not empty.  Once the client is present it is the one
    that was constructed, and no later call or resumption changes the
    client, the options, the constructions or the provider calls. *)
Theorem C1_at_most_one_client (options : obj) (tr : list input) :
  forallb is_upload tr = true →
  let s := run (new_AliOSS options) tr in
  length (constructed s) ≤ 1 ∧
  provider_calls s ≤ 1 ∧
  (client s = None → constructed s = []) ∧
  (∀ c, client s = Some c →
     constructed s = [handle_options c] ∧
     ∀ i, is_upload i = true → calm s (step s i)) ∧
  (∀ s0 c, client s0 = Some c →
     getStore s0 = (length (stores s0), push_store (StoreResolved c) s0)) ∧
  (∀ s0, client s0 = None → event_length s0 ≠ 1 →
     getStore s0 = (length (stores s0), push_store StoreDeferred s0)) ∧
  (∀ f d cfg, client s = None → event s ≠ [] →
     client (step s (CallPut f d cfg)) = None ∧
     constructed (step s (CallPut f d cfg)) = [] ∧
     provider_calls (step s (CallPut f d cfg)) = provider_calls s ∧
     client (step s (CallMultipartUpload f d cfg)) = None ∧
     constructed (step s (CallMultipartUpload f d cfg)) = [] ∧
     provider_calls (step s (CallMultipartUpload f d cfg)) = provider_calls s).
Proof.
  intros Htr s.
  assert (single_flight s) as Hs
    by (apply single_flight_run; [done | apply single_flight_new]).
  pose proof Hs as [Hp Hcl].
  assert (client s = None → constructed s = []) as Hnone.
  { intros Hc. rewrite Hc in Hcl. by destruct Hcl. }
  split_and!.
  - destruct (client s); [destruct Hcl as [-> _] | destruct Hcl as [-> _]];
      simpl; lia.
  - done.
  - done.
  - intros c Hc. rewrite Hc in Hcl. destruct Hcl as [Hcons _].
    split; [done|]. intros i Hi. by eapply present_step_calm.
  - intros s0 c. apply getStore_cached.
  - intros s0. apply getStore_deferred.
  - intros f d cfg Hc He. simpl.
    rewrite put_eq, multipartUpload_eq, !upload_deferred by done.
    specialize (Hnone Hc). views. by rewrite Hnone.
Qed.




(** C7, as the code has it.  When the asynchronous function inside the
    first [getStore] call has thrown [e] (the construction of the client
    failed), nothing is rejected: under every further sequence of upload
    calls and resumptions the client stays absent, nothing is
    constructed, no task is executed and every promise handed to a
    caller stays pending. *)
Theorem C7_failed_construction_stalls (options : obj) (tr tr' : list input)
    (g : nat) (e : error) :
  forallb is_upload tr = true →
  forallb is_upload tr' = true →
  stores (run (new_AliOSS options) tr) !! g = Some (StoreThrew e) →
  let s' := run (run (new_AliOSS options) tr) tr' in
  client s' = None ∧ constructed s' = [] ∧ executed s' = [] ∧
  Forall (eq Pending) (promises s').
Proof.
  intros Htr Htr' Hg s'.
  assert (single_flight (run (new_AliOSS options) tr)) as Hs
    by (apply single_flight_run; [done | apply single_flight_new]).
  destruct (threw_is_first _ g e Hs Hg) as (Hc & rest & Hst).
  destruct (stalled_run _ tr' e rest Htr' Hs Hc Hst) as [Hc' Hs'].
  apply single_flight_absent in Hs'; [|done].
  by destruct Hs' as (_ & ? & ? & _ & ? & _).
Qed.

(** C10, as the code has it.  A call of [put] or [multipartUpload] that
    arrives while the client is absent and the queue is not empty
    registers its task, and the promise its [getStore] call returns is
    never settled: whatever happens later, that promise stays as the
    call left it and the call's [#init] stays suspended on it, so no
    drain is ever made by this call's [#init]; a drain that executes the
    call's task is the drain of another call's [#init]. *)
Theorem C10_follower_never_settles (options : obj) (tr tr' : list input)
    (call : input) :
  let s := run (new_AliOSS options) tr in
  is_upload_call call = true → client s = None → event s ≠ [] →
  let g := length (stores s) in
  let i := length (inits s) in
  let s' := run (step s call) tr' in
  (∃ t, event (step s call) = event s ++ [(guids s, t)]) ∧
  stores s' !! g = Some StoreDeferred ∧
  inits s' !! i = Some (InitAwaitsStore g) ∧
  ∀ j ks, (j, ks) ∈ drains s' → j ≠ i.
Proof.
  intros s Hcall Hc He g i s'.
  assert (emitted_only s') as Hem.
  { apply emitted_only_run, emitted_only_step, emitted_only_run. constructor. }
  assert ((∃ t, event (step s call) = event s ++ [(guids s, t)]) ∧
          stores (step s call) !! g = Some StoreDeferred ∧
          inits (step s call) !! i = Some (InitAwaitsStore g)) as (Ht & Hg & Hi).
  { destruct call as [f d cfg|f d cfg| | | |]; try done; simpl.
    - rewrite put_eq, upload_deferred by done. simpl.
      split; [eauto|]. subst g i.
      by rewrite !lookup_app_r, !Nat.sub_diag.
    - rewrite multipartUpload_eq, upload_deferred by done. simpl.
      split; [eauto|]. subst g i.
      by rewrite !lookup_app_r, !Nat.sub_diag. }
  destruct (waiting_run _ tr' g i Hg Hi) as [Hg' Hi'].
  split_and!; try done.
  intros j ks Hin Hj. unfold emitted_only in Hem.
  rewrite Forall_forall in Hem. specialize (Hem _ Hin).
  subst j. pose proof (eq_trans (eq_sym Hem) Hi') as Hx. discriminate Hx.
Qed.

Lemma get_deepMerge k (base : value) (config : obj) :
  get k (deepMerge base (VObj config)) =
  match lookup_field k config with
  | Some v => deepMerge (get k base) v
  | None => get k base
  end.
Proof.
  destruct base; try (unfold get; simpl; by destruct (lookup_field k config)).
  unfold get. rewrite lookup_deepMerge. simpl.
  destruct (lookup_field k fields) as [bv|], (lookup_field k config); done.
Qed.


(** C8.  When the promise of the provider settles, [getStore] goes on:
    a rejection is swallowed and leaves the options as they were, a
    result is merged over them key by key; the client is then
    constructed from these options without [async] and [getOptions].
    No promise of a caller is touched and the provider is not asked
    again. *)
Theorem C8_provider_result (s : state) (g : nat) (r : error + value) :
  stores s !! g = Some StoreAwaitsProvider →
  let s' := step s (ProviderSettles g r) in
  let resolved := match r with inl _ => VUndefined | inr v => v end in
  let merged := assign (opts s) (own_props (js_or resolved (VObj []))) in
  let options := omit ["async"; "getOptions"] merged in
  opts s' = merged ∧
  (∀ e, r = inl e → merged = opts s) ∧
  (∀ k, lookup_field k merged =
        match lookup_field k (opts s) with
        | Some v =>
            Some (default v (lookup_field k (own_props (js_or resolved (VObj [])))))
        | None => lookup_field k (own_props (js_or resolved (VObj [])))
        end) ∧
  promises s' = promises s ∧
  provider_calls s' = provider_calls s ∧
  event s' = event s ∧
  match oss_rejects options with
  | None =>
      client s' = Some (Handle options) ∧
      constructed s' = constructed s ++ [options] ∧
      stores s' !! g = Some (StoreResolved (Handle options))
  | Some e =>
      client s' = client s ∧
      constructed s' = constructed s ∧
      stores s' !! g = Some (StoreThrew e)
  end.
Proof.
  intros Hg s' resolved merged options.
  assert (g < length (stores s)) as Hlt by by eapply lookup_lt_Some.
  subst s'. simpl. unfold resume_getStore, construct. rewrite Hg. simpl.
  fold resolved. fold merged. fold options.
  split_and!.
  - by destruct (oss_rejects options).
  - intros e ->. unfold merged, resolved. simpl. apply assign_nil.
  - intros k. apply lookup_assign.
  - by destruct (oss_rejects options).
  - destruct (oss_rejects options); views; done.
  - by destruct (oss_rejects options).
  - destruct (oss_rejects options); simpl; views;
      rewrite list_lookup_insert_eq by done; done.
Qed.

(** C6.  When the backend call of a [multipartUpload] fails while the
    client reports a cancellation, the error goes to the caller and
    nothing else happens: the retry counters are as they were, nothing
    is resubmitted or registered, and no backend call is started. *)
Theorem C6_cancellation_is_terminal (options : obj) (tr : list input)
    (k : nat) (c : backend_call) (h : client_handle) (e : error) :
  let s := run (new_AliOSS options) tr in
  calls s !! k = Some c → call_live c = true →
  call_method c = MultipartUpload → client s = Some h →
  let s' := step s (BackendSettles k (inl e) true) in
  promises s' !! call_promise c = Some (Rejected e) ∧
  retryQueue s' = retryQueue s ∧
  resubmitted s' = resubmitted s ∧
  registered s' = registered s ∧
  event s' = event s ∧
  length (calls s') = length (calls s).
Proof.
  intros s Hk Hlive Hm Hc s'.
  pose proof (awaited_pending options tr k c Hk Hlive) as Hp. fold s in Hp.
  subst s'. simpl. unfold resume_task, on_multipart_error.
  rewrite Hk, Hlive, Hm. simpl. rewrite Hc.
  set (s1 := with_calls _ s).
  split_and!.
  - by apply settle_pending.
  - unfold settle. by repeat case_match.
  - unfold settle. by repeat case_match.
  - unfold settle. by repeat case_match.
  - unfold settle. by repeat case_match.
  - rewrite settle_calls. simpl. by rewrite length_insert.
Qed.

Lemma init_resubmitted s : resubmitted (init s) = resubmitted s.
Proof.
  unfold init. destruct (client s).
  - by destruct (emit_queue (length (inits s)) (with_inits (inits s ++ [InitEmitted]) s))
      as (_ & _ & _ & _ & ->).
  - unfold getStore, construct, push_store.
    repeat case_match; simplify_eq; views; done.
Qed.

Lemma init_promises_le s : length (promises s) ≤ length (promises (init s)).
Proof.
  unfold init. destruct (client s).
  - apply (calm_promises _ _ (emit_calm _ (with_inits _ s))).
  - pose proof (getStore_promises s) as H. destruct (getStore s) as [g s'].
    simpl in *. by rewrite H.
Qed.

Lemma settle_length p o s : length (promises (settle p o s)) = length (promises s).
Proof. unfold settle. repeat case_match; simpl; by rewrite ?length_insert. Qed.

Lemma settle_resubmitted p o s : resubmitted (settle p o s) = resubmitted s.
Proof. unfold settle. by repeat case_match. Qed.

(** C4.  When the failure of a [multipartUpload] makes the handler
    resubmit the upload, the resubmission is a call of its own, with a
    promise of its own that is handed to nobody; the promise of the
    call that failed is rejected with the error of the backend at once
    and, whatever becomes of the resubmission, keeps that outcome. *)
Theorem C4_retry_is_detached (options : obj) (tr tr' : list input)
    (k : nat) (c : backend_call) (e : error) (cancelled : bool) :
  let s := run (new_AliOSS options) tr in
  calls s !! k = Some c → call_live c = true →
  call_method c = MultipartUpload →
  let s' := step s (BackendSettles k (inl e) cancelled) in
  resubmitted s' ≠ resubmitted s →
  resubmitted s' =
    resubmitted s ++
    [(call_path c, assign (own_props (call_config c)) [("__isRetry", VBool true)])] ∧
  call_promise c < length (promises s) ∧
  length (promises s) < length (promises s') ∧
  promises s' !! call_promise c = Some (Rejected e) ∧
  promises (run s' tr') !! call_promise c = Some (Rejected e).
Proof.
  intros s Hk Hlive Hm s' Hre.
  pose proof (owned_retire _ s k c Hk Hlive
                (owned_run _ tr (owned_new options))) as Hown.
  pose proof (awaited_pending options tr k c Hk Hlive) as Hp. fold s in Hp.
  subst s'. simpl in *. unfold resume_task in *.
  rewrite Hk, Hlive, Hm in *.
  set (s1 := with_calls _ s) in *.
  change (event s) with (event s1) in Hown.
  pose proof (owned_on_multipart_error c cancelled _ _ Hown) as Hown'.
  apply owned_held in Hown'.
  rewrite settle_resubmitted in Hre. rewrite settle_resubmitted, settle_length.
  unfold on_multipart_error in Hre, Hown' |- *.
  destruct (match client s1 with Some _ => cancelled | None => false end);
    [done|].
  set (s2 := match retryQueue s1 !! call_path c with
             | Some _ => s1
             | None => _
             end) in *.
  assert (resubmitted s2 = resubmitted s ∧ promises s2 = promises s)
    as [Hr2 Hp2] by (subst s2; by destruct (retryQueue s1 !! call_path c)).
  destruct (js_lt _ _); [|by rewrite Hr2 in Hre].
  rewrite multipartUpload_eq in Hown' |- *. rewrite init_resubmitted.
  split_and!.
  - views. by rewrite Hr2.
  - by eapply lookup_lt_Some.
  - eapply Nat.lt_le_trans; [|apply init_promises_le]. simpl.
    rewrite length_app, Hp2. simpl. lia.
  - by apply settle_pending.
  - apply run_keeps; [|done]. by apply settle_pending.
Qed.

(** [multipartUpload] on an instance whose client is present and whose
    queue is empty: the task is registered and executed at once. *)
Lemma multipartUpload_quiet s h f d config :
  client s = Some h → event s = [] →
  let s' := multipartUpload f d config s in
  let cfg := merged_config s config in
  let retry := truthy (get "__isRetry" cfg) in
  let keep := truthy (get "checkpoint" cfg) || retry in
  let path :=
    if keep then f
    else generateFilename f (rename_of s cfg) (opt "rootPath" s) (S (guids s)) in
  client s' = Some h ∧ event s' = [] ∧ opts s' = opts s ∧
  calls s' =
    calls s ++ [BackendCall MultipartUpload (length (promises s)) path d cfg true] ∧
  promises s' = promises s ++ [Pending] ∧
  retryQueue s' = (if retry then retryQueue s else delete path (retryQueue s)) ∧
  resubmitted s' = resubmitted s.
Proof.
  intros Hc He. simpl.
  rewrite multipartUpload_eq, (init_present _ h) by done.
  unfold emit. simpl. rewrite He. simpl.
  unfold run_task. simpl.
  erewrite run_multipart_present by (simpl; exact Hc).
  rewrite !truthy_or. simpl. rewrite !orb_false_r.
  rewrite (merged_config_opts s) by done.
  rewrite (rename_of_opts s) by done.
  set (cfg := merged_config s config).
  destruct (truthy (get "checkpoint" cfg)), (truthy (get "__isRetry" cfg));
    simpl; views; done.
Qed.

Lemma with_retryQueue_same s : with_retryQueue (retryQueue s) s = s.
Proof. by destruct s. Qed.

(** The handler when no cancellation is reported. *)
Lemma on_multipart_error_live c s :
  on_multipart_error c false s =
  let count := default 0 (retryQueue s !! call_path c) in
  let config := assign (own_props (call_config c)) [("__isRetry", VBool true)] in
  if js_lt count (opt "retryCount" s) then
    multipartUpload (call_path c) (call_data c) config
      (record (Resubmit (call_path c) config)
         (with_retryQueue (<[call_path c := count + 1]> (retryQueue s)) s))
  else with_retryQueue (<[call_path c := count]> (retryQueue s)) s.
Proof.
  unfold on_multipart_error.
  assert (match client s with Some _ => false | None => false end = false)
    as -> by by destruct (client s).
  destruct (retryQueue s !! call_path c) as [n|] eqn:E; simpl.
  - rewrite E. simpl. destruct (js_lt n _); [done|].
    by rewrite insert_id, with_retryQueue_same.
  - rewrite lookup_insert_eq. simpl.
    change (opt "retryCount" (with_retryQueue _ s)) with (opt "retryCount" s).
    destruct (js_lt 0 _); [|done].
    unfold with_retryQueue at 1. simpl. by rewrite insert_insert_eq.
Qed.

(** A failure that is not a cancellation, below the bound: the counter
    goes up by one and the upload is resubmitted once, as a retry. *)
Lemma retry_once s k c e h :
  client s = Some h → event s = [] →
  calls s !! k = Some c → call_live c = true →
  call_method c = MultipartUpload →
  promises s !! call_promise c = Some Pending →
  let count := default 0 (retryQueue s !! call_path c) in
  js_lt count (opt "retryCount" s) = true →
  let s' := step s (BackendSettles k (inl e) false) in
  let config := assign (own_props (call_config c)) [("__isRetry", VBool true)] in
  client s' = Some h ∧ event s' = [] ∧ opts s' = opts s ∧
  calls s' =
    <[k := BackendCall MultipartUpload (call_promise c) (call_path c)
              (call_data c) (call_config c) false]> (calls s)
    ++ [BackendCall MultipartUpload (length (promises s)) (call_path c)
          (call_data c) (merged_config s config) true] ∧
  promises s' = <[call_promise c := Rejected e]> (promises s) ++ [Pending] ∧
  retryQueue s' = <[call_path c := count + 1]> (retryQueue s) ∧
  resubmitted s' = resubmitted s ++ [(call_path c, config)].
Proof.
  intros Hc He Hk Hlive Hm Hp count Hlt. simpl.
  unfold resume_task. rewrite Hk, Hlive, Hm.
  rewrite on_multipart_error_live. simpl.
  change (opt "retryCount" (with_calls _ s)) with (opt "retryCount" s).
  fold count. rewrite Hlt.
  set (config := assign _ _).
  set (s3 := record _ _).
  destruct (multipartUpload_quiet s3 h (call_path c) (call_data c) config)
    as (Hc' & He' & Ho' & Hcalls & Hprom & Hrq & Hre); [done..|].
  assert (truthy (get "__isRetry" (merged_config s3 config)) = true) as Hflag
    by (unfold merged_config, config; by rewrite retry_flag_survives).
  rewrite Hflag, orb_true_r in Hcalls. rewrite Hflag in Hrq.
  set (s4 := multipartUpload _ _ _ s3) in *. clearbody s4.
  assert (call_promise c < length (promises s)) as Hlt'
    by by eapply lookup_lt_Some.
  assert (promises s4 !! call_promise c = Some Pending) as Hp4.
  { rewrite Hprom. by apply lookup_app_l_Some. }
  unfold settle. rewrite Hp4.
  split_and!.
  - exact Hc'.
  - exact He'.
  - exact Ho'.
  - exact Hcalls.
  - simpl. rewrite Hprom. by apply insert_app_l.
  - exact Hrq.
  - etrans; [exact Hre|]. subst s3. views. done.
Qed.

(** A failure that is not a cancellation, once the bound is reached:
    the error is surfaced and nothing is resubmitted. *)
Lemma retry_exhausted s k c e :
  calls s !! k = Some c → call_live c = true →
  call_method c = MultipartUpload →
  let count := default 0 (retryQueue s !! call_path c) in
  js_lt count (opt "retryCount" s) = false →
  let s' := step s (BackendSettles k (inl e) false) in
  client s' = client s ∧ event s' = event s ∧ opts s' = opts s ∧
  calls s' =
    <[k := BackendCall MultipartUpload (call_promise c) (call_path c)
              (call_data c) (call_config c) false]> (calls s) ∧
  promises s' = promises (settle (call_promise c) (Rejected e) s) ∧
  retryQueue s' = <[call_path c := count]> (retryQueue s) ∧
  resubmitted s' = resubmitted s ∧
  registered s' = registered s.
Proof.
  intros Hk Hlive Hm count Hlt. simpl.
  unfold resume_task. rewrite Hk, Hlive, Hm.
  rewrite on_multipart_error_live. simpl.
  change (opt "retryCount" (with_calls _ s)) with (opt "retryCount" s).
  fold count. rewrite Hlt.
  unfold settle. simpl. by repeat case_match.
Qed.


Lemma js_lt_bound j K : js_lt j (VNum (Z.of_nat K)) = bool_decide (j < K).
Proof.
  unfold js_lt. simpl. case_bool_decide.
  - apply Z.ltb_lt. lia.
  - apply Z.ltb_ge. lia.
Qed.

Lemma attempt_lt first rest i len :
  first < rest → rest + i ≤ len + 1 → 0 < len → rest ≤ len → attempt first rest i < len + 1.
Proof. destruct i; simpl; lia. Qed.

Lemma attempt_inj first rest i j :
  first < rest → attempt first rest i = attempt first rest j → i = j.
Proof. destruct i, j; simpl; lia. Qed.

Lemma retrying_step h o path data e k0 p0 n p rs j K s :
  get "retryCount" (VObj o) = VNum (Z.of_nat K) → j < K →
  retrying h o path data e k0 p0 n p rs j s →
  retrying h o path data e k0 p0 n p rs (S j)
    (step s (BackendSettles (attempt k0 n j) (inl e) false)).
Proof.
  intros HK Hj (Hc & He & Ho & Hk0 & Hp0 & Hlen & [cfg Hk] & Hdead & Hplen & Hp
                & Hrej & Hrq & more & Hre & Hmore & Hflag).
  set (c := BackendCall MultipartUpload (attempt p0 p j) path data cfg true) in *.
  assert (default 0 (retryQueue s !! call_path c) = j) as Hcount.
  { simpl. rewrite Hrq. by destruct (decide (j = 0)) as [->|]. }
  destruct (retry_once s (attempt k0 n j) c e h Hc He Hk eq_refl eq_refl Hp)
    as (Hc' & He' & Ho' & Hcalls & Hprom & Hrq' & Hre').
  { rewrite Hcount. unfold opt. rewrite Ho, HK, js_lt_bound.
    by apply bool_decide_eq_true. }
  rewrite Hcount in Hrq'.
  set (s' := step s _) in *. clearbody s'.
  simpl in Hcalls, Hprom, Hrq', Hre'.
  assert (attempt k0 n j < length (calls s)) as Hnj by by eapply lookup_lt_Some.
  assert (attempt p0 p j < length (promises s)) as Hpj by by eapply lookup_lt_Some.
  unfold retrying. split_and!; try done.
  - congruence.
  - rewrite Hcalls, length_app, length_insert. simpl. lia.
  - rewrite Hcalls. eexists. simpl.
    rewrite lookup_app_r by (rewrite length_insert; lia).
    rewrite length_insert.
    replace (n + j - length (calls s)) with 0 by lia. simpl.
    do 2 f_equal. lia.
  - intros i Hi. rewrite Hcalls.
    destruct (decide (i = j)) as [->|Hne].
    + eexists. split; [|shelve].
      apply lookup_app_l_Some. by apply list_lookup_insert_eq.
    + destruct (Hdead i) as (c0 & Hc0 & Hl0); [lia|].
      exists c0. split; [|done]. apply lookup_app_l_Some.
      rewrite list_lookup_insert_ne; [done|].
      intros Heq. by apply attempt_inj in Heq.
  - rewrite Hprom, length_app, length_insert. simpl. lia.
  - rewrite Hprom. simpl. rewrite lookup_app_r by (rewrite length_insert; lia).
    rewrite length_insert.
    by replace (p + j - length (promises s)) with 0 by lia.
  - intros i Hi. rewrite Hprom. apply lookup_app_l_Some.
    destruct (decide (i = j)) as [->|Hne].
    + by apply list_lookup_insert_eq.
    + rewrite list_lookup_insert_ne; [apply Hrej; lia|].
      intros Heq. by apply attempt_inj in Heq.
  - rewrite Hrq', lookup_insert_eq. replace (j + 1) with (S j) by lia. done.
  - exists (more ++ [(path, assign (own_props cfg) [("__isRetry", VBool true)])]).
    rewrite Hre', Hre, length_app, app_assoc. simpl. split_and!; try done; [lia|].
    apply Forall_app; split; [done|]. constructor; [|done]. simpl.
    split; [done|]. rewrite lookup_assign. simpl.
    by destruct (lookup_field _ (own_props cfg)).
  Unshelve. done.
Qed.

Lemma run_app s tr1 tr2 : run s (tr1 ++ tr2) = run (run s tr1) tr2.
Proof. unfold run. apply fold_left_app. Qed.

Lemma failures_S first rest e m :
  failures first rest e (S m) =
  failures first rest e m ++ [BackendSettles (attempt first rest m) (inl e) false].
Proof. unfold failures. by rewrite seq_S, map_app. Qed.

Lemma retrying_run h o path data e k0 p0 n p rs K m s :
  get "retryCount" (VObj o) = VNum (Z.of_nat K) → m ≤ K →
  retrying h o path data e k0 p0 n p rs 0 s →
  retrying h o path data e k0 p0 n p rs m (run s (failures k0 n e m)).
Proof.
  intros HK Hm H0. induction m as [|m IH]; [done|].
  rewrite failures_S, run_app. simpl.
  apply (retrying_step _ _ _ _ _ _ _ _ _ _ _ K); [done|lia|]. apply IH. lia.
Qed.

Lemma retrying_end h o path data e k0 p0 n p rs K s :
  get "retryCount" (VObj o) = VNum (Z.of_nat K) →
  retrying h o path data e k0 p0 n p rs K s →
  retired path e k0 p0 n p rs K
    (step s (BackendSettles (attempt k0 n K) (inl e) false)).
Proof.
  intros HK (Hc & He & Ho & Hk0 & Hp0 & Hlen & [cfg Hk] & Hdead & Hplen & Hp
             & Hrej & Hrq & more & Hre & Hmore & Hflag).
  set (c := BackendCall MultipartUpload (attempt p0 p K) path data cfg true) in *.
  assert (default 0 (retryQueue s !! call_path c) = K) as Hcount.
  { simpl. rewrite Hrq. by destruct (decide (K = 0)) as [->|]. }
  destruct (retry_exhausted s (attempt k0 n K) c e Hk eq_refl eq_refl)
    as (Hc' & He' & Ho' & Hcalls & Hprom & Hrq' & Hre' & _).
  { rewrite Hcount. unfold opt. rewrite Ho, HK, js_lt_bound.
    apply bool_decide_eq_false. lia. }
  rewrite Hcount in Hrq'.
  set (s' := step s _) in *. clearbody s'.
  simpl in Hcalls, Hprom, Hrq', Hre'.
  unfold settle in Hprom. rewrite Hp in Hprom. simpl in Hprom.
  assert (attempt k0 n K < length (calls s)) as Hnj by by eapply lookup_lt_Some.
  assert (attempt p0 p K < length (promises s)) as Hpj by by eapply lookup_lt_Some.
  unfold retired. split_and!.
  - congruence.
  - rewrite Hcalls, length_insert. lia.
  - intros i Hi. rewrite Hcalls.
    destruct (decide (i = K)) as [->|Hne].
    + eexists. split; [by apply list_lookup_insert_eq|done].
    + destruct (Hdead i) as (c0 & Hc0 & Hl0); [lia|].
      exists c0. split; [|done]. rewrite list_lookup_insert_ne; [done|].
      intros Heq. by apply attempt_inj in Heq.
  - rewrite Hprom, length_insert. lia.
  - intros i Hi. rewrite Hprom.
    destruct (decide (i = K)) as [->|Hne].
    + by apply list_lookup_insert_eq.
    + rewrite list_lookup_insert_ne; [apply Hrej; lia|].
      intros Heq. by apply attempt_inj in Heq.
  - by rewrite Hrq', lookup_insert_eq.
  - exists more. by rewrite Hre'.
Qed.


(** C3.  With [retryCount = K], take a multipart upload whose first
    attempt is in flight on an instance with an empty queue, the counter
    of its path absent as a fresh call leaves it, and let every attempt
    fail, none by a cancellation.  After the first [j <= K] failures the
    counter is [j], [j] resubmissions of that path with the retry flag
    were made, the attempts that failed are rejected with the error and
    resubmission [j] is in flight; after failure [K + 1] the number of
    resubmissions is still [K], every attempt is rejected with the error
    and nothing is in flight or queued. *)
Theorem C3_bounded_retry (s : state) (h : client_handle) (K k0 : nat)
    (c : backend_call) (e : error) :
  client s = Some h → event s = [] →
  opt "retryCount" s = VNum (Z.of_nat K) →
  calls s !! k0 = Some c → call_live c = true →
  call_method c = MultipartUpload →
  promises s !! call_promise c = Some Pending →
  retryQueue s !! call_path c = None →
  let n := length (calls s) in
  let p := length (promises s) in
  let failing j := run s (failures k0 n e j) in
  (∀ j, j ≤ K →
     retrying h (opts s) (call_path c) (call_data c) e k0 (call_promise c) n p
       (resubmitted s) j (failing j)) ∧
  retired (call_path c) e k0 (call_promise c) n p (resubmitted s) K
    (failing (S K)).
Proof.
  intros Hc He HK Hk Hlive Hm Hp Hrq n p failing.
  assert (retrying h (opts s) (call_path c) (call_data c) e k0 (call_promise c)
            n p (resubmitted s) 0 s) as H0.
  { unfold retrying. simpl. rewrite !Nat.add_0_r.
    split_and!; try done.
    - by eapply lookup_lt_Some.
    - by eapply lookup_lt_Some.
    - exists (call_config c). rewrite Hk. f_equal.
      destruct c; simpl in *; by subst.
    - intros i Hi. lia.
    - intros i Hi. lia.
    - exists []. rewrite app_nil_r. split_and!; try done. constructor. }
  split.
  - intros j Hj. by apply (retrying_run _ _ _ _ _ _ _ _ _ _ K).
  - unfold failing. rewrite failures_S, run_app. simpl.
    apply (retrying_end h (opts s) _ (call_data c)); [done|].
    by apply (retrying_run _ _ _ _ _ _ _ _ _ _ K).
Qed.

(** ** Further properties of [AliOSS] *)

(** *** The stored options *)

Lemma getStore_opts s : opts (getStore s).2 = opts s.
Proof.
  unfold getStore, construct, push_store.
  repeat case_match; simplify_eq; done.
Qed.

Lemma init_opts s : opts (init s) = opts s.
Proof.
  unfold init. destruct (client s).
  - apply (calm_opts _ _ (emit_calm _ (with_inits _ s))).
  - pose proof (getStore_opts s) as H. by destruct (getStore s) as [g s'].
Qed.

Lemma upload_opts t s :
  opts (init (on (guid (new_promise s).2).1 t (guid (new_promise s).2).2)) = opts s.
Proof. by rewrite init_opts. Qed.

Lemma settle_opts p o s : opts (settle p o s) = opts s.
Proof. apply (calm_opts _ _ (settle_calm p o s)). Qed.

Lemma on_multipart_error_opts c cancelled s :
  opts (on_multipart_error c cancelled s) = opts s.
Proof.
  unfold on_multipart_error.
  destruct (match client s with Some _ => cancelled | None => false end); [done|].
  set (s1 := match retryQueue s !! call_path c with
             | Some _ => s
             | None => with_retryQueue (<[call_path c:=0]> (retryQueue s)) s
             end).
  assert (opts s1 = opts s) as H1 by (subst s1; by case_match).
  case_match; [|done].
  by rewrite multipartUpload_eq, upload_opts.
Qed.

Lemma resume_task_opts k r cancelled s : opts (resume_task k r cancelled s) = opts s.
Proof.
  unfold resume_task.
  destruct (calls s !! k) as [c|]; [|done].
  destruct (call_live c); [|done].
  destruct r as [e|v]; [destruct (call_method c)|];
    rewrite settle_opts, ?on_multipart_error_opts; done.
Qed.

(** X1. The stored options change only when the promise of the
    provider settles: no call of [put], [multipartUpload] or [getStore],
    no resumption of [#init] and no outcome of a backend call changes
    them, so the configuration given to a call is never kept. *)
Theorem options_change_only_with_the_provider (s : state) (i : input) :
  (∀ g r, i ≠ ProviderSettles g r) →
  opts (step s i) = opts s.
Proof.
  intros Hi. destruct i as [f d cfg|f d cfg| |g r|j|k r cancelled]; simpl.
  - by rewrite put_eq, upload_opts.
  - by rewrite multipartUpload_eq, upload_opts.
  - apply getStore_opts.
  - by destruct (Hi g r).
  - apply (calm_opts _ _ (resume_init_calm j s)).
  - apply resume_task_opts.
Qed.

(** *** What the client is constructed from *)

Lemma lookup_omit ks k o : k ∈ ks → lookup_field k (omit ks o) = None.
Proof.
  intros Hk. induction o as [|[k' v] o IH]; [done|].
  unfold omit in *. simpl. case_bool_decide; simpl; [done|].
  case_decide; [by subst|done].
Qed.

Lemma lookup_omit_other ks k o :
  k ∉ ks → lookup_field k (omit ks o) = lookup_field k o.
Proof.
  intros Hk. induction o as [|[k' v] o IH]; [done|].
  unfold omit in *. simpl. case_bool_decide; simpl.
  - case_decide; [by subst|done].
  - case_decide; [done|done].
Qed.

Lemma construct_shape s :
  opts (construct s).2 = opts s ∧
  ((client (construct s).2 = client s ∧
    constructed (construct s).2 = constructed s) ∨
   (client (construct s).2 = Some (Handle (omit ["async"; "getOptions"] (opts s))) ∧
    constructed (construct s).2 =
      constructed s ++ [omit ["async"; "getOptions"] (opts s)])).
Proof.
  destruct (construct_cases s) as [(e & _ & ->)|[_ ->]]; simpl.
  - split; [done|]. by left.
  - split; [done|]. right. split; [done|]. by views.
Qed.

Lemma getStore_shape s :
  (client (getStore s).2 = client s ∧
   constructed (getStore s).2 = constructed s) ∨
  (client (getStore s).2 = Some (Handle (omit ["async"; "getOptions"] (opts s))) ∧
   constructed (getStore s).2 =
     constructed s ++ [omit ["async"; "getOptions"] (opts s)]).
Proof.
  unfold getStore.
  destruct (client s) eqn:Hc; [left; by rewrite <- Hc|].
  case_match; [by left|].
  case_match.
  - left. repeat case_match; simpl; split; views; done.
  - destruct (construct_shape s) as (_ & [[H1 H2]|[H1 H2]]);
      destruct (construct s) as [st s']; simpl in *; [left|right]; split;
      views; congruence.
Qed.

Lemma init_shape s :
  (client (init s) = client s ∧ constructed (init s) = constructed s) ∨
  (client (init s) = Some (Handle (omit ["async"; "getOptions"] (opts s))) ∧
   constructed (init s) = constructed s ++ [omit ["async"; "getOptions"] (opts s)]).
Proof.
  unfold init. destruct (client s) eqn:Hc.
  - left. destruct (emit_calm (length (inits s)) (with_inits (inits s ++ [InitEmitted]) s)).
    split; [by rewrite calm_client0|by rewrite calm_constructed0].
  - pose proof (getStore_shape s) as H.
    destruct (getStore s) as [g s']; simpl in *.
    destruct H as [[H1 H2]|[H1 H2]]; [left|right]; split; views; congruence.
Qed.

Lemma upload_shape_client t s :
  let s' := init (on (guid (new_promise s).2).1 t (guid (new_promise s).2).2) in
  (client s' = client s ∧ constructed s' = constructed s) ∨
  (client s' = Some (Handle (omit ["async"; "getOptions"] (opts s))) ∧
   constructed s' = constructed s ++ [omit ["async"; "getOptions"] (opts s)]).
Proof.
  intros s'. subst s'.
  destruct (register_calm t s) as [Ho Hc _ Hk _ _ _].
  destruct (init_shape (on (guid (new_promise s).2).1 t (guid (new_promise s).2).2))
    as [[H1 H2]|[H1 H2]]; [left|right]; rewrite H1, H2; split; congruence.
Qed.

Lemma step_constructed s i :
  (client (step s i) = client s ∧ constructed (step s i) = constructed s) ∨
  ∃ o, client (step s i) = Some (Handle (omit ["async"; "getOptions"] o)) ∧
       constructed (step s i) = constructed s ++ [omit ["async"; "getOptions"] o].
Proof.
  assert (∀ t s,
    let s' := init (on (guid (new_promise s).2).1 t (guid (new_promise s).2).2) in
    (client s' = client s ∧ constructed s' = constructed s) ∨
    ∃ o, client s' = Some (Handle (omit ["async"; "getOptions"] o)) ∧
         constructed s' = constructed s ++ [omit ["async"; "getOptions"] o]) as Hup.
  { intros t s0. destruct (upload_shape_client t s0) as [H|H]; [by left|right; eauto]. }
  destruct i as [f d cfg|f d cfg| |g r|j|k r cancelled]; simpl.
  - rewrite put_eq. apply Hup.
  - rewrite multipartUpload_eq. apply Hup.
  - destruct (getStore_shape s) as [H|H]; [by left|right; eauto].
  - unfold resume_getStore. destruct (stores s !! g) as [[]|]; try by left.
    set (s1 := with_opts _ s).
    destruct (construct_shape s1) as (_ & [[H1 H2]|[H1 H2]]);
      destruct (construct s1) as [st s2]; simpl in *; [left|right; eexists]; done.
  - left. destruct (resume_init_calm j s). split; congruence.
  - unfold resume_task.
    destruct (calls s !! k) as [c|]; [|by left].
    destruct (call_live c); [|by left].
    set (s1 := with_calls _ s).
    assert (∀ p o s0, client (settle p o s0) = client s0 ∧
                      constructed (settle p o s0) = constructed s0) as Hset.
    { intros p o s0. destruct (settle_calm p o s0). split; congruence. }
    assert (client s1 = client s ∧ constructed s1 = constructed s) as [Hc1 Hk1]
      by done.
    clearbody s1.
    destruct r as [e|v]; [destruct (call_method c)|];
      try (left; destruct (Hset (call_promise c) (Rejected e) s1); split; congruence);
      try (left; destruct (Hset (call_promise c) (Resolved (format formatResponse v s1)) s1);
           split; congruence).
    destruct (Hset (call_promise c) (Rejected e) (on_multipart_error c cancelled s1))
      as [-> ->].
    unfold on_multipart_error.
    destruct (match client s1 with Some _ => cancelled | None => false end); [by left|].
    set (s2 := match retryQueue s1 !! call_path c with
               | Some _ => s1
               | None => with_retryQueue (<[call_path c:=0]> (retryQueue s1)) s1
               end).
    assert (client s2 = client s ∧ constructed s2 = constructed s) as [Hc2 Hk2]
      by (subst s2; by case_match).
    clearbody s2.
    case_match; [|by left].
    rewrite multipartUpload_eq.
    set (s3 := record _ _).
    assert (client s3 = client s ∧ constructed s3 = constructed s) as [Hc3 Hk3].
    { subst s3. split; [done|]. views. done. }
    destruct (Hup (MultipartTask (new_promise s3).1 (call_path c) (call_data c)
                     (assign (own_props (call_config c)) [("__isRetry", VBool true)])) s3)
      as [[H1 H2]|(o & H1 & H2)]; [left|right; exists o]; split; congruence.
Qed.

(** X2. The object handed to [new OSS] never has the keys [async] and
    [getOptions]: whatever the options of the constructor and the result
    of the provider hold, and however the calls interleave, every
    construction is made from options without them, and so is the client
    that is kept. *)
Theorem construction_never_sees_the_provider (options : obj) (tr : list input) :
  let s := run (new_AliOSS options) tr in
  (∀ o, o ∈ constructed s →
     lookup_field "async" o = None ∧ lookup_field "getOptions" o = None) ∧
  (∀ c, client s = Some c →
     handle_options c ∈ constructed s).
Proof.
  intros s. subst s.
  induction tr as [|i tr IH] using rev_ind; [split; [by intros o ?%elem_of_nil|done]|].
  rewrite run_app. simpl.
  destruct IH as [IH1 IH2].
  destruct (step_constructed (run (new_AliOSS options) tr) i)
    as [[H1 H2]|(o & H1 & H2)]; rewrite H1, H2.
  - done.
  - split.
    + intros o' [Ho | ->%list_elem_of_singleton]%elem_of_app; [by apply IH1|].
      split; apply lookup_omit; repeat constructor.
    + intros c [= <-]. simpl. apply elem_of_app. right. constructor.
Qed.

(** *** While the client is absent *)

Lemma absent_before s tr : client (run s tr) = None → client s = None.
Proof.
  revert s; induction tr as [|i tr IH]; intros s H; simpl in *; [done|].
  apply IH in H.
  destruct (step_constructed s i) as [[H1 _]|(o & H1 & _)]; congruence.
Qed.

Lemma dormant_step s i :
  client (step s i) = None →
  executed s = [] ∧ drains s = [] ∧ calls s = [] ∧ generated s = [] ∧
  Forall (eq Pending) (promises s) ∧
  Forall (fun st => ∀ c, st ≠ StoreResolved c) (stores s) →
  executed (step s i) = [] ∧ drains (step s i) = [] ∧ calls (step s i) = [] ∧
  generated (step s i) = [] ∧
  Forall (eq Pending) (promises (step s i)) ∧
  Forall (fun st => ∀ c, st ≠ StoreResolved c) (stores (step s i)).
Proof.
  intros Hn (He & Hd & Hk & Hg & Hp & Hs).
  assert (client s = None) as Hc.
  { destruct (step_constructed s i) as [[H1 _]|(o & H1 & _)]; congruence. }
  assert (∀ t,
    let s' := init (on (guid (new_promise s).2).1 t (guid (new_promise s).2).2) in
    client s' = None →
    executed s' = [] ∧ drains s' = [] ∧ calls s' = [] ∧ generated s' = [] ∧
    Forall (eq Pending) (promises s') ∧
    Forall (fun st => ∀ c, st ≠ StoreResolved c) (stores s')) as Hup.
  { intros t. simpl. rewrite init_absent by done.
    unfold getStore, construct, push_store. simpl. rewrite Hc.
    intros Hn'.
    repeat case_match; simplify_eq; simpl in *; simplify_eq; views;
      rewrite ?He, ?Hd, ?Hk, ?Hg;
      (split_and!; [done..| |]);
      try (apply Forall_app; split; [done|by repeat constructor]). }
  destruct i as [f d cfg|f d cfg| |g r|j|k r cancelled]; simpl in *.
  - rewrite put_eq in *. by apply Hup.
  - rewrite multipartUpload_eq in *. by apply Hup.
  - revert Hn. unfold getStore, construct, push_store. rewrite Hc.
    intros Hn.
    repeat case_match; simplify_eq; simpl in *; simplify_eq; views;
      rewrite ?He, ?Hd, ?Hk, ?Hg;
      (split_and!; [done..|]);
      try (apply Forall_app; split; [done|by repeat constructor]).
  - revert Hn. unfold resume_getStore.
    destruct (stores s !! g) as [[]|] eqn:Hsg; try done.
    set (s1 := with_opts _ s).
    destruct (construct_cases s1) as [(e & _ & ->)|[_ ->]]; [|done].
    intros _. simpl. split_and!; try done.
    by apply Forall_insert.
  - unfold resume_init.
    destruct (inits s !! j) as [[|g]|]; try done.
    destruct (stores s !! g) as [[]|] eqn:Hsg; try done.
    rewrite Forall_lookup in Hs. by destruct (Hs g _ Hsg c).
  - unfold resume_task. by rewrite Hk.
Qed.

(** X3. Nothing runs before the client exists.  Under every sequence of
    calls and resumptions, calls of [getStore] included: as long as the
    client is absent no task has been executed, no drain was made, no
    file name was generated, the backend was not called, no promise of
    [getStore] is resolved and every promise handed to a caller is
    pending.  So a task never finds [this.#client] to be [null]. *)
Theorem nothing_runs_without_a_client (options : obj) (tr : list input) :
  let s := run (new_AliOSS options) tr in
  client s = None →
  executed s = [] ∧ drains s = [] ∧ calls s = [] ∧ generated s = [] ∧
  Forall (eq Pending) (promises s) ∧
  Forall (fun st => ∀ c, st ≠ StoreResolved c) (stores s).
Proof.
  intros s. subst s.
  induction tr as [|i tr IH] using rev_ind; [done|].
  rewrite run_app. simpl. intros Hn.
  apply dormant_step; [done|]. apply IH.
  destruct (step_constructed (run (new_AliOSS options) tr) i)
    as [[H1 _]|(o & H1 & _)]; congruence.
Qed.

(** *** One call of the backend for a task *)







(** *** A call of [getStore] from outside *)

Lemma deferred_run s tr g :
  stores s !! g = Some StoreDeferred →
  stores (run s tr) !! g = Some StoreDeferred.
Proof.
  revert s; induction tr as [|i tr IH]; intros s H; simpl; [done|].
  by apply IH, deferred_step.
Qed.

(** X5. [getStore] called while the client is absent and the queue
    does not hold exactly one task, an instance nothing was uploaded
    with among them, returns a promise that is never settled: the call
    asks no provider and constructs nothing, and its promise stays
    pending whatever happens later, also once a later upload has
    constructed the client. *)
Theorem getStore_off_the_queue_never_settles (s : state) (tr : list input) :
  client s = None → event_length s ≠ 1 →
  let g := length (stores s) in
  let s' := step s CallGetStore in
  client s' = None ∧
  constructed s' = constructed s ∧
  provider_calls s' = provider_calls s ∧
  stores s' = stores s ++ [StoreDeferred] ∧
  stores (run s' tr) !! g = Some StoreDeferred.
Proof.
  intros Hc He g s'. subst s'. simpl.
  rewrite getStore_deferred by done. simpl.
  split_and!; try done.
  apply deferred_run. simpl.
  by rewrite lookup_app_r, Nat.sub_diag.
Qed.

(** *** [async] without a provider *)

Lemma getStore_without_provider s :
  client s = None → length (event s) = 1 →
  truthy (opt "async" s) = true →
  opt "getOptions" s ≠ VFun ReturnsPromise →
  client (getStore s).2 = None ∧
  stores (getStore s).2 = stores s ++ [StoreThrew TypeError].
Proof.
  intros Hc He Ha Hg. unfold getStore, event_length.
  rewrite Hc, He, Ha. simpl.
  destruct (opt "getOptions" s) as [| | | | |[]|]; done.
Qed.

(** X6. [async] set and [getOptions] left as it is by default, or set
    to anything that does not return a promise: the first upload call
    throws inside [getStore], where nothing catches it, and from then on
    the instance is stuck.  Whatever upload calls and resumptions
    follow, no client is constructed, no task is executed and every
    promise handed to a caller stays pending. *)
Theorem async_without_provider_stalls (options : obj) (call : input)
    (tr : list input) :
  let s0 := new_AliOSS options in
  truthy (opt "async" s0) = true →
  opt "getOptions" s0 ≠ VFun ReturnsPromise →
  is_upload_call call = true →
  forallb is_upload tr = true →
  let s := run (step s0 call) tr in
  stores (step s0 call) = [StoreThrew TypeError] ∧
  client s = None ∧ constructed s = [] ∧ executed s = [] ∧
  Forall (eq Pending) (promises s).
Proof.
  intros s0 Ha Hg Hcall Htr s.
  assert (is_upload call = true) as Hup by by destruct call.
  assert (client (step s0 call) = None ∧
          stores (step s0 call) = [StoreThrew TypeError]) as [Hc Hs].
  { assert (∀ t,
      let s' := init (on (guid (new_promise s0).2).1 t (guid (new_promise s0).2).2) in
      client s' = None ∧ stores s' = [StoreThrew TypeError]) as H.
    { intros t. simpl. rewrite init_absent by done.
      set (s1 := on _ t _).
      destruct (getStore_without_provider s1) as [H1 H2]; [done..|].
      destruct (getStore s1) as [g1 s2]; simpl in *. by rewrite H1, H2. }
    destruct call as [f d cfg|f d cfg| | | |]; try done; simpl.
    - rewrite put_eq. apply H.
    - rewrite multipartUpload_eq. apply H. }
  split; [done|].
  assert (single_flight (step s0 call)) as Hsf
    by (apply single_flight_step; [done|apply single_flight_new]).
  destruct (stalled_run (step s0 call) tr TypeError [] Htr Hsf Hc Hs) as [Hc' Hsf'].
  fold s in Hc', Hsf'.
  apply single_flight_absent in Hsf' as (_ & ? & ? & _ & ? & _); done.
Qed.

(** *** The outcome of a backend call *)

(** X7. [put] does not retry.  When the backend call of a [put] fails,
    the promise of that call is rejected with the error of the backend,
    whether or not the client reports a cancellation, and keeps that
    outcome; the retry counters are as they were, nothing is
    resubmitted or registered and no backend call is started. *)
Theorem put_failure_is_final (options : obj) (tr tr' : list input)
    (k : nat) (c : backend_call) (e : error) (cancelled : bool) :
  let s := run (new_AliOSS options) tr in
  calls s !! k = Some c → call_live c = true → call_method c = Put →
  let s' := step s (BackendSettles k (inl e) cancelled) in
  promises s' !! call_promise c = Some (Rejected e) ∧
  promises (run s' tr') !! call_promise c = Some (Rejected e) ∧
  retryQueue s' = retryQueue s ∧
  resubmitted s' = resubmitted s ∧
  registered s' = registered s ∧
  event s' = event s ∧
  length (calls s') = length (calls s).
Proof.
  intros s Hk Hlive Hm s'.
  pose proof (awaited_pending options tr k c Hk Hlive) as Hp. fold s in Hp.
  assert (promises s' !! call_promise c = Some (Rejected e)) as Hrej.
  { subst s'. simpl. unfold resume_task. rewrite Hk, Hlive, Hm.
    by apply settle_pending. }
  split; [done|]. split; [by apply (run_keeps s' tr')|].
  subst s'. simpl. unfold resume_task. rewrite Hk, Hlive, Hm.
  set (s1 := with_calls _ s).
  split_and!; try (unfold settle; by repeat case_match).
  rewrite settle_calls. simpl. by rewrite length_insert.
Qed.

(** X8. When a backend call succeeds, of [put] or of
    [multipartUpload], the promise of its call is resolved with
    [formatResponse] of the result and of [enableCdn] and [cdnUrl] as
    the options hold them at that moment, and keeps that outcome; the
    call is over, and nothing is registered, resubmitted or started. *)
Theorem success_resolves_with_the_formatted_result (options : obj)
    (tr tr' : list input) (k : nat) (c : backend_call) (v : value)
    (cancelled : bool) :
  let s := run (new_AliOSS options) tr in
  calls s !! k = Some c → call_live c = true →
  let s' := step s (BackendSettles k (inr v) cancelled) in
  let response := formatResponse v (opt "enableCdn" s) (opt "cdnUrl" s) in
  promises s' !! call_promise c = Some (Resolved response) ∧
  promises (run s' tr') !! call_promise c = Some (Resolved response) ∧
  (∃ c', calls s' !! k = Some c' ∧ call_live c' = false) ∧
  retryQueue s' = retryQueue s ∧
  resubmitted s' = resubmitted s ∧
  registered s' = registered s ∧
  event s' = event s ∧
  length (calls s') = length (calls s).
Proof.
  intros s Hk Hlive s' response.
  pose proof (awaited_pending options tr k c Hk Hlive) as Hp. fold s in Hp.
  assert (promises s' !! call_promise c = Some (Resolved response)) as Hres.
  { subst s'. simpl. unfold resume_task. rewrite Hk, Hlive.
    by apply settle_pending. }
  split; [done|]. split; [by apply (run_keeps s' tr')|].
  subst s'. simpl. unfold resume_task. rewrite Hk, Hlive.
  set (s1 := with_calls _ s).
  split_and!; try (unfold settle; by repeat case_match).
  - rewrite settle_calls. simpl. eexists. split.
    + apply list_lookup_insert_eq. by apply lookup_lt_Some in Hk.
    + done.
  - rewrite settle_calls. simpl. by rewrite length_insert.
Qed.

(** *** The tasks are executed *)

Lemma upload_drains t s c :
  client s = Some c →
  event (init (on (guid (new_promise s).2).1 t (guid (new_promise s).2).2)) = [].
Proof. intros H. by rewrite (init_present _ c). Qed.

Lemma resume_task_queue k r cancelled s c :
  client s = Some c →
  event (resume_task k r cancelled s) = [] ∨
  (event (resume_task k r cancelled s) = event s ∧
   inits (resume_task k r cancelled s) = inits s).
Proof.
  intros Hc. unfold resume_task.
  destruct (calls s !! k) as [b|]; [|by right].
  destruct (call_live b); [|by right].
  set (s1 := with_calls _ s).
  assert (client s1 = Some c ∧ event s1 = event s ∧ inits s1 = inits s)
    as (Hc1 & He1 & Hi1) by done.
  clearbody s1.
  assert (∀ p o s0, event (settle p o s0) = event s0 ∧
                    inits (settle p o s0) = inits s0) as Hset.
  { intros p o s0. destruct (settle_idle p o s0). by split. }
  destruct r as [e|v]; [destruct (call_method b)|];
    try (right; destruct (Hset (call_promise b) (Rejected e) s1); split; congruence);
    try (right; destruct (Hset (call_promise b) (Resolved (format formatResponse v s1)) s1);
         split; congruence).
  destruct (Hset (call_promise b) (Rejected e) (on_multipart_error b cancelled s1))
    as [-> ->].
  unfold on_multipart_error. rewrite Hc1.
  destruct cancelled; [right; by split|].
  set (s2 := match retryQueue s1 !! call_path b with
             | Some _ => s1
             | None => with_retryQueue (<[call_path b:=0]> (retryQueue s1)) s1
             end).
  assert (client s2 = Some c ∧ event s2 = event s ∧ inits s2 = inits s)
    as (Hc2 & He2 & Hi2) by (subst s2; by case_match).
  clearbody s2.
  case_match; [left|right; by split].
  rewrite multipartUpload_eq. by apply (upload_drains _ _ c).
Qed.

Lemma leader_resumable_step s i :
  is_upload i = true → single_flight s →
  (event s ≠ [] → inits s !! 0 = Some (InitAwaitsStore 0)) ∧
  (client s = None → length (inits s) = length (stores s)) →
  (event (step s i) ≠ [] → inits (step s i) !! 0 = Some (InitAwaitsStore 0)) ∧
  (client (step s i) = None → length (inits (step s i)) = length (stores (step s i))).
Proof.
  intros Hi Hsf [R1 R2]. destruct (client s) as [c|] eqn:Hc.
  - split.
    2: { rewrite (calm_client _ _ (present_step_calm s i c Hsf Hc Hi)). congruence. }
    destruct i as [f d cfg|f d cfg| |g r|j|k r cancelled]; simpl; try done.
    + rewrite put_eq, (upload_drains _ _ c); done.
    + rewrite multipartUpload_eq, (upload_drains _ _ c); done.
    + destruct (resume_getStore_idle g r s) as [_ _ _ He Hin _]. by rewrite He, Hin.
    + unfold resume_init. repeat case_match; try done.
    + destruct (resume_task_queue k r cancelled s c Hc) as [->|[-> ->]]; done.
  - pose proof Hsf as Hsf'. apply single_flight_absent in Hsf'; [|done].
    destruct Hsf' as (_ & _ & _ & Hcalls & _ & Hst).
    assert (∀ t,
      let s' := init (on (guid (new_promise s).2).1 t (guid (new_promise s).2).2) in
      inits s' !! 0 = Some (InitAwaitsStore 0) ∧
      length (inits s') = length (stores s')) as Hup.
    { intros t. simpl. rewrite init_absent by done.
      set (s1 := on _ t _).
      assert (inits s1 = inits s ∧ stores s1 = stores s) as [Hi1 Hs1] by done.
      clearbody s1.
      destruct (getStore_stores s1) as [Hg [st Hs]].
      destruct (getStore_idle s1) as [_ _ _ _ Hin _].
      destruct (getStore s1) as [g s2]; simpl in *.
      rewrite Hin, Hs, !length_app, Hg, Hi1, Hs1. simpl.
      split; [|by rewrite R2].
      destruct (inits s) as [|x xs] eqn:Hx.
      - simpl. destruct (stores s); [by subst|]. by specialize (R2 eq_refl).
      - simpl. destruct (stores s) as [|y ys]; [by specialize (R2 eq_refl)|].
        destruct Hst as [He _]. by apply R1 in He. }
    destruct i as [f d cfg|f d cfg| |g r|j|k r cancelled]; simpl; try done.
    + rewrite put_eq. split; intros _; apply Hup.
    + rewrite multipartUpload_eq. split; intros _; apply Hup.
    + destruct (resume_getStore_idle g r s) as [_ _ _ He Hin _].
      rewrite He, Hin. split; [done|].
      intros _. rewrite R2 by done.
      unfold resume_getStore. destruct (stores s !! g) as [[]|]; try done.
      set (s1 := with_opts _ s).
      destruct (construct_cases s1) as [(e & _ & ->)|[_ ->]]; simpl;
        by rewrite length_insert.
    + assert (resume_init j s = s) as ->; [|split; [done|intros _; by apply R2]].
      unfold resume_init.
      destruct (inits s !! j) as [[|g]|]; try done.
      destruct (stores s !! g) as [[]|] eqn:Hg; try done.
      destruct (stores s) as [|st rest] eqn:Hstores; [done|].
      destruct Hst as (He & Hres & Hdef).
      destruct g as [|g]; simpl in Hg.
      * simplify_eq. by destruct (Hres c).
      * by apply (deferred_lookup _ _ _ Hdef) in Hg.
    + unfold resume_task. rewrite Hcalls. simpl. split; [done|intros _; by apply R2].
Qed.

Lemma leader_resumable options tr :
  forallb is_upload tr = true →
  let s := run (new_AliOSS options) tr in
  (event s ≠ [] → inits s !! 0 = Some (InitAwaitsStore 0)) ∧
  (client s = None → length (inits s) = length (stores s)).
Proof.
  intros Htr s. subst s.
  induction tr as [|i tr IH] using rev_ind; [done|].
  rewrite forallb_app in Htr. apply andb_prop in Htr as [Htr Hi].
  simpl in Hi. rewrite andb_true_r in Hi.
  rewrite run_app. simpl.
  apply leader_resumable_step; [done| |by apply IH].
  apply single_flight_run; [done|apply single_flight_new].
Qed.

(** X9. No task is stranded.  On an instance used through [put] and
    [multipartUpload], once the client exists either the queue is empty
    and every task that was registered has been executed, or the first
    call of [#init] is still suspended on the promise of the first
    [getStore] call, which is resolved, and its resumption executes
    every queued task and leaves the queue empty. *)
Theorem no_task_is_stranded (options : obj) (tr : list input) (c : client_handle) :
  forallb is_upload tr = true →
  let s := run (new_AliOSS options) tr in
  client s = Some c →
  (event s = [] ∧ executed s = registered s) ∨
  (event s ≠ [] ∧
   inits s !! 0 = Some (InitAwaitsStore 0) ∧
   stores s !! 0 = Some (StoreResolved c) ∧
   let s' := step s (InitResumes 0) in
   event s' = [] ∧
   registered s' = registered s ∧
   executed s' = registered s ∧
   executed s' = executed s ++ (event s).*1).
Proof.
  intros Htr s Hc.
  destruct (leader_resumable options tr Htr) as [R1 _]. fold s in R1.
  pose proof (fifo_run _ tr (fifo_new options)) as (Hreg & _). fold s in Hreg.
  pose proof (single_flight_run _ tr Htr (single_flight_new options)) as [_ Hsf].
  fold s in Hsf. rewrite Hc in Hsf. destruct Hsf as (_ & rest & Hst & _).
  destruct (event s) as [|kt q] eqn:He.
  - left. by rewrite Hreg, app_nil_r.
  - right. split; [done|]. specialize (R1 ltac:(done)).
    split; [done|]. split; [by rewrite Hst|].
    simpl. unfold resume_init. rewrite R1, Hst. simpl.
    destruct (emit_queue 0 (with_inits (<[0:=InitEmitted]> (inits s)) s))
      as (Hr' & _ & He' & _).
    split; [done|]. split; [done|].
    rewrite He'. simpl. rewrite He. by rewrite Hreg.
Qed.

(** *** The first call without a provider *)


(** *** The name of the uploaded file *)


(** *** Where a call of the client's [put] comes from *)




(** *** [getStore] is no lock *)

Lemma resume_getStore_accepted s g r :
  stores s !! g = Some StoreAwaitsProvider →
  let merged :=
    assign (opts s)
      (own_props (js_or (match r with inl _ => VUndefined | inr v => v end) (VObj []))) in
  let options := omit ["async"; "getOptions"] merged in
  oss_rejects options = None →
  resume_getStore g r s =
  with_stores (<[g := StoreResolved (Handle options)]> (stores s))
    (with_client (Some (Handle options))
       (record (NewOSS options) (with_opts merged s))).
Proof.
  intros Hg merged options Hacc. unfold resume_getStore. rewrite Hg.
  fold merged. unfold construct. simpl. fold options. by rewrite Hacc.
Qed.

(** X12. The test of the queue length in [getStore] is no lock.
    [getStore] called from outside while the first upload call waits
    for the provider, the queue holding that one task, passes the test
    too and asks the provider again; and when the two promises of the
    provider have settled, each of the two calls has constructed a
    client, the second replacing the first. *)
Theorem getStore_beside_an_upload_constructs_again (s : state) (g : nat)
    (r r' : error + value) :
  client s = None → event_length s = 1 →
  truthy (opt "async" s) = true →
  opt "getOptions" s = VFun ReturnsPromise →
  stores s !! g = Some StoreAwaitsProvider →
  let g' := length (stores s) in
  let s1 := step s CallGetStore in
  let s2 := step s1 (ProviderSettles g r) in
  let s3 := step s2 (ProviderSettles g' r') in
  oss_rejects (omit ["async"; "getOptions"] (opts s2)) = None →
  oss_rejects (omit ["async"; "getOptions"] (opts s3)) = None →
  provider_calls s1 = S (provider_calls s) ∧
  stores s1 !! g' = Some StoreAwaitsProvider ∧
  constructed s3 =
    constructed s ++ [omit ["async"; "getOptions"] (opts s2);
                      omit ["async"; "getOptions"] (opts s3)] ∧
  client s2 = Some (Handle (omit ["async"; "getOptions"] (opts s2))) ∧
  client s3 = Some (Handle (omit ["async"; "getOptions"] (opts s3))).
Proof.
  intros Hc He Ha Hg Hs g' s1 s2 s3.
  assert (s1 = push_store StoreAwaitsProvider (record GetOptions s)) as Hs1.
  { subst s1. simpl. unfold getStore. by rewrite Hc, He, Ha, Hg. }
  assert (stores s1 !! g = Some StoreAwaitsProvider) as Hg1.
  { rewrite Hs1. simpl. rewrite lookup_app_l; [done|by apply lookup_lt_Some in Hs]. }
  pose proof (resume_getStore_accepted s1 g r Hg1) as H2. cbv zeta in H2.
  assert (opts s2 =
          assign (opts s1)
            (own_props (js_or (match r with inl _ => VUndefined | inr v => v end)
                          (VObj [])))) as Ho2.
  { subst s2. simpl. unfold resume_getStore. rewrite Hg1.
    set (sx := with_opts _ s1).
    destruct (construct_shape sx) as [Ho _].
    destruct (construct sx) as [st sy]; simpl in *. by rewrite Ho. }
  rewrite <- Ho2 in H2. intros Hacc2. specialize (H2 Hacc2).
  change (resume_getStore g r s1) with s2 in H2.
  assert (stores s2 !! g' = Some StoreAwaitsProvider) as Hg2.
  { rewrite H2, Hs1. simpl. rewrite list_lookup_insert_ne.
    - subst g'. by rewrite lookup_app_r, Nat.sub_diag.
    - apply lookup_lt_Some in Hs. subst g'. lia. }
  pose proof (resume_getStore_accepted s2 g' r' Hg2) as H3. cbv zeta in H3.
  assert (opts s3 =
          assign (opts s2)
            (own_props (js_or (match r' with inl _ => VUndefined | inr v => v end)
                          (VObj [])))) as Ho3.
  { subst s3. simpl. unfold resume_getStore. rewrite Hg2.
    set (sx := with_opts _ s2).
    destruct (construct_shape sx) as [Ho _].
    destruct (construct sx) as [st sy]; simpl in *. by rewrite Ho. }
  rewrite <- Ho3 in H3. intros Hacc3. specialize (H3 Hacc3).
  change (resume_getStore g' r' s2) with s3 in H3.
  split_and!.
  - rewrite Hs1. unfold provider_calls. simpl.
    rewrite List.filter_app, length_app. simpl. lia.
  - rewrite Hs1. simpl. subst g'. by rewrite lookup_app_r, Nat.sub_diag.
  - assert (constructed s1 = constructed s) as Hk1.
    { rewrite Hs1. unfold constructed. simpl. rewrite omap_app. simpl.
      by rewrite app_nil_r. }
    assert (constructed s2 =
            constructed s1 ++ [omit ["async"; "getOptions"] (opts s2)]) as Hk2.
    { rewrite H2 at 1. unfold constructed. simpl. by rewrite omap_app. }
    assert (constructed s3 =
            constructed s2 ++ [omit ["async"; "getOptions"] (opts s3)]) as Hk3.
    { rewrite H3 at 1. unfold constructed. simpl. by rewrite omap_app. }
    by rewrite Hk3, Hk2, Hk1, <- app_assoc.
  - by rewrite H2.
  - by rewrite H3.
Qed.

(** *** A counter that was left behind *)

End Properties.

(** * Properties of [Alioss] *)

(** ** Strings *)

Lemma js_split_nonempty c s : js_split c s ≠ [].
Proof.
  destruct s as [|x s]; simpl; [done|].
  destruct (Ascii.eqb x c); [done|]. by destruct (js_split c s).
Qed.

Lemma js_split_whole c s : mentions c s = false → js_split c s = [s].
Proof.
  induction s as [|x s IH]; simpl; [done|].
  destruct (Ascii.eqb x c); [done|]. simpl. intros H. by rewrite IH.
Qed.

Lemma js_split_app c a b :
  js_split c (a +:+ String c b) = js_split c a ++ js_split c b.
Proof.
  induction a as [|x a IH]; simpl.
  - by rewrite Ascii.eqb_refl.
  - destruct (Ascii.eqb x c); [by rewrite IH|].
    rewrite IH. pose proof (js_split_nonempty c a).
    by destruct (js_split c a).
Qed.

Lemma js_pop_after c a b :
  mentions c b = false → js_pop (js_split c (a +:+ String c b)) = Some b.
Proof.
  intros H. rewrite js_split_app, (js_split_whole c b) by done.
  unfold js_pop. by rewrite last_snoc.
Qed.

Lemma js_pop_split c s :
  ∃ b, js_pop (js_split c s) = Some b ∧ mentions c b = false ∧
       (s = b ∨ ∃ a, s = a +:+ String c b).
Proof.
  induction s as [|x s (b & Hb & Hm & Hs)]; simpl.
  - exists "". split; [done|]. split; [done|]. by left.
  - destruct (Ascii.eqb x c) eqn:Hx.
    + apply Ascii.eqb_eq in Hx as ->.
      exists b. split.
      { unfold js_pop in *. pose proof (js_split_nonempty c s).
        destruct (js_split c s); [done|]. done. }
      split; [done|]. right.
      destruct Hs as [->|[a ->]]; [by exists ""|by exists (String c a)].
    + unfold js_pop in *. pose proof (js_split_nonempty c s).
      destruct (js_split c s) as [|y ys] eqn:Hsp; [done|].
      destruct ys as [|z zs].
      * simpl in Hb. simplify_eq.
        exists (String x b). split; [done|]. simpl. rewrite Hx, Hm.
        split; [done|].
        destruct Hs as [->|[a ->]]; [by left|].
        rewrite js_split_app in Hsp.
        pose proof (js_split_nonempty c a). pose proof (js_split_nonempty c b).
        destruct (js_split c a), (js_split c b); try done.
        simpl in Hsp. simplify_eq. by destruct l.
      * exists b. split; [done|]. split; [done|]. right.
        destruct Hs as [->|[a ->]].
        -- rewrite (js_split_whole c b) in Hsp by done. done.
        -- by exists (String x a).
Qed.

Section AliossProperties.

Context (generateGUID : nat → string)
        (oss_rejects : obj → option error)
        (object_to_string : value → error + string)
        (callback_is_Function : bool).

Local Abbreviation js_String := (Alioss.js_String object_to_string).
Local Abbreviation _formatResult := (Alioss._formatResult object_to_string).
Local Abbreviation _generateName :=
  (Alioss._generateName generateGUID object_to_string).
Local Abbreviation run_callback :=
  (Alioss.run_callback generateGUID object_to_string).
Local Abbreviation call_back :=
  (Alioss.call_back generateGUID object_to_string callback_is_Function).
Local Abbreviation construct :=
  (Alioss.construct generateGUID oss_rejects object_to_string callback_is_Function).
Local Abbreviation _init :=
  (Alioss._init generateGUID oss_rejects object_to_string callback_is_Function).
Local Abbreviation resume_init :=
  (Alioss.resume_init generateGUID oss_rejects object_to_string callback_is_Function).
Local Abbreviation resume_callback := (Alioss.resume_callback object_to_string).
Local Abbreviation step :=
  (Alioss.step generateGUID oss_rejects object_to_string callback_is_Function).
Local Abbreviation run :=
  (Alioss.run generateGUID oss_rejects object_to_string callback_is_Function).

(** ** The result and the name *)

(** X14. The suffix [_formatResult] and [_generateName] take from a
    name is the text after its last dot; for a name without a dot it is
    the whole name. *)
Theorem suffix_is_cut_at_the_last_dot (a b : string) :
  mentions "." b = false →
  Alioss.suffix (VStr (a +:+ "." +:+ b)) = inr ("." +:+ b) ∧
  Alioss.suffix (VStr b) = inr ("." +:+ b).
Proof.
  intros H. unfold Alioss.suffix. split.
  - change (a +:+ "." +:+ b) with (a +:+ String "."%char b).
    by rewrite (js_pop_after "." a b).
  - by rewrite (js_split_whole "." b).
Qed.

(** X15. [_formatResult] needs the response: called without a result,
    with [null], or with a result whose [res] is [undefined] or [null],
    it throws a [TypeError]. *)
Theorem formatResult_needs_the_response (result : value) :
  get "res" (or_default result (VObj [])) = VUndefined ∨
  get "res" (or_default result (VObj [])) = VNull →
  _formatResult result = inl TypeError.
Proof.
  unfold Alioss._formatResult.
  intros [H|H]; rewrite H; by destruct (or_default result (VObj [])).
Qed.

(** X16. On a result of the shape ali-oss gives, whatever parts of it
    are missing, [_formatResult] does not throw: [code] is what
    [String] makes of the status, which is its decimal numeral for a
    status below [2^53] in absolute value and ["500"] when the response
    has none; the name and the address default to the empty string and
    the size to 0, and the suffix is empty for an empty or missing name
    and the dot with the last piece of the name otherwise. *)
Theorem formatResult_of_a_response (name url : option string)
    (status size : option Z) :
  let data :=
    VObj [("name", VStr (default "" name));
          ("url", VStr (default "" url));
          ("suffix",
           VStr (match name with
                 | Some n =>
                     if String.eqb n "" then ""
                     else "." +:+ interpolate (js_pop (js_split "." n))
                 | None => ""
                 end));
          ("size", VNum (default 0%Z size))] in
  _formatResult (oss_result name url status size) =
    match js_String (VNum (default 500%Z status)) with
    | inl e => inl e
    | inr code => inr (VObj [("code", VStr code); ("data", data)])
    end ∧
  ((Z.abs (default 500 status) < 2 ^ 53)%Z →
   _formatResult (oss_result name url status size) =
     inr (VObj [("code", VStr (pretty (default 500%Z status))); ("data", data)])) ∧
  (status = None →
   _formatResult (oss_result name url status size) =
     inr (VObj [("code", VStr "500"); ("data", data)])).
Proof.
  assert (∀ status',
    _formatResult (oss_result name url status' size) =
    match js_String (VNum (default 500%Z status')) with
    | inl e => inl e
    | inr code =>
        inr (VObj
          [("code", VStr code);
           ("data",
            VObj [("name", VStr (default "" name));
                  ("url", VStr (default "" url));
                  ("suffix",
                   VStr (match name with
                         | Some n =>
                             if String.eqb n "" then ""
                             else "." +:+ interpolate (js_pop (js_split "." n))
                         | None => ""
                         end));
                  ("size", VNum (default 0%Z size))])])
    end) as H.
  { intros status'. unfold Alioss._formatResult.
    generalize js_String. intros print.
    destruct name as [[|c n]|], url as [u|], status' as [st|], size as [sz|];
      vm_compute; by destruct (print _). }
  cbv zeta. split_and!.
  - apply H.
  - intros Hst. rewrite H. unfold Alioss.js_String.
    by apply Z.ltb_lt in Hst as ->.
  - intros ->. by rewrite H.
Qed.

Lemma truthy_VStr_app a c b : truthy (VStr (a +:+ String c b)) = true.
Proof. by destruct a. Qed.

(** X17. [_generateName] keeps nothing of the name it is given but the
    suffix: a name that is falsy gives the empty name and draws no
    identifier; every other string gives [rootPath], a slash, a fresh
    identifier, a dot and the text after the last dot of the name (the
    whole name when it has no dot), with one slash at the start
    removed.  The directory and the base of the name are dropped. *)
Theorem generateName_keeps_the_suffix_only (s : Alioss.state)
    (a b root : string) :
  Alioss.opt "rootPath" s = VStr root →
  mentions "." b = false →
  let id := generateGUID (Alioss.guids s) in
  let generated := strip_slash (root +:+ "/" +:+ id +:+ "." +:+ b) in
  (∀ name, truthy name = false → _generateName name s = (inr "", s)) ∧
  _generateName (VStr (a +:+ "." +:+ b)) s =
    (inr generated, Alioss.with_guids (S (Alioss.guids s)) s) ∧
  (b ≠ "" →
   _generateName (VStr b) s =
     (inr generated, Alioss.with_guids (S (Alioss.guids s)) s)) ∧
  (root = "" → generated = id +:+ "." +:+ b) ∧
  (∀ r, root = "/" +:+ r → generated = r +:+ "/" +:+ id +:+ "." +:+ b).
Proof.
  intros Hroot Hb id generated. split_and!.
  - intros name Hn. unfold Alioss._generateName. by rewrite Hn.
  - unfold Alioss._generateName.
    change (a +:+ "." +:+ b) with (a +:+ String "."%char b).
    rewrite truthy_VStr_app. simpl.
    by rewrite (js_pop_after "." a b), Hroot.
  - intros Hne. unfold Alioss._generateName.
    assert (truthy (VStr b) = true) as -> by by destruct b.
    simpl. by rewrite (js_split_whole "." b), Hroot.
  - intros ->. done.
  - intros r ->. done.
Qed.

(** ** Who settles a promise *)

Ltac legacy :=
  unfold Alioss.upload, Alioss.multipartUpload, Alioss.resumeMultipartUpload,
    Alioss.abortMultipartUpload, Alioss.cancel, Alioss._init, Alioss.resume_init,
    Alioss.construct, Alioss.call_back, Alioss.catch, Alioss.return_to,
    Alioss.run_callback, Alioss._generateName, Alioss.start_call,
    Alioss.new_promise in *.

Lemma legacy_settle_other p q o s :
  p ≠ q → Alioss.promises (Alioss.settle q o s) !! p = Alioss.promises s !! p.
Proof.
  intros H. unfold Alioss.settle. repeat case_match; try done.
  simpl. by rewrite list_lookup_insert_ne.
Qed.

Lemma legacy_settle_pending p o s :
  Alioss.promises s !! p = Some Pending →
  Alioss.promises (Alioss.settle p o s) !! p = Some o.
Proof.
  intros H. unfold Alioss.settle. rewrite H. simpl.
  apply list_lookup_insert_eq. by apply lookup_lt_Some in H.
Qed.

Lemma legacy_settle_length p o s :
  length (Alioss.promises (Alioss.settle p o s)) = length (Alioss.promises s).
Proof.
  unfold Alioss.settle. repeat case_match; try done.
  simpl. by rewrite length_insert.
Qed.

Lemma legacy_settle_owners p o s :
  Alioss.owners (Alioss.settle p o s) = Alioss.owners s.
Proof. unfold Alioss.settle. by repeat case_match. Qed.

Lemma legacy_settle_keeps p q o o' s :
  Alioss.promises s !! p = Some o → o ≠ Pending →
  Alioss.promises (Alioss.settle q o' s) !! p = Some o.
Proof.
  intros H Ho. unfold Alioss.settle.
  destruct (Alioss.promises s !! q) as [[]|] eqn:Hq; try done.
  simpl. destruct (decide (p = q)) as [->|]; [congruence|].
  by rewrite list_lookup_insert_ne.
Qed.

Lemma hands_over_refl q s : Alioss.hands_over q s s.
Proof. split_and!; auto. Qed.

Lemma hands_over_settle q o s : Alioss.hands_over q s (Alioss.settle q o s).
Proof.
  split_and!.
  - left. apply legacy_settle_owners.
  - intros p Hp. by apply legacy_settle_other.
  - apply legacy_settle_length.
Qed.

Lemma hands_over_start m q args s :
  Alioss.hands_over q s (Alioss.start_call m q args s).
Proof.
  split_and!; try done. right. split; [|done].
  unfold Alioss.owners, Alioss.awaited, Alioss.start_call. simpl.
  by rewrite List.filter_app, map_app, app_assoc.
Qed.

Lemma hands_over_frame q s s' s1 s1' :
  Alioss.owners s1 = Alioss.owners s → Alioss.promises s1 = Alioss.promises s →
  Alioss.owners s1' = Alioss.owners s' → Alioss.promises s1' = Alioss.promises s' →
  Alioss.hands_over q s s' → Alioss.hands_over q s1 s1'.
Proof.
  unfold Alioss.hands_over. intros -> -> -> ->. done.
Qed.

Lemma settle_record p o e s :
  Alioss.settle p o (Alioss.record e s) = Alioss.record e (Alioss.settle p o s).
Proof. unfold Alioss.settle. simpl. by repeat case_match. Qed.

Lemma hands_over_record q e s s' :
  Alioss.hands_over q s s' → Alioss.hands_over q s (Alioss.record e s').
Proof. by apply hands_over_frame. Qed.

Lemma generateName_frame name s :
  Alioss.opts (_generateName name s).2 = Alioss.opts s ∧
  Alioss.client (_generateName name s).2 = Alioss.client s ∧
  Alioss.promises (_generateName name s).2 = Alioss.promises s ∧
  Alioss.inits (_generateName name s).2 = Alioss.inits s ∧
  Alioss.calls (_generateName name s).2 = Alioss.calls s ∧
  Alioss.log (_generateName name s).2 = Alioss.log s.
Proof. unfold Alioss._generateName. repeat case_match; done. Qed.

Lemma call_back_hands_over cb s :
  Alioss.hands_over (Alioss.callback_promise cb) s (call_back cb s).
Proof.
  unfold Alioss.call_back.
  destruct callback_is_Function.
  - destruct cb as [pid n f c|pid n f c|pid n f c|pid n u|pid]; simpl.
    + destruct (generateName_frame n s) as (_ & _ & Hp & Hi & Hc & _).
      destruct (_generateName n s) as [[e|path] s1]; simpl in *.
      * apply (hands_over_frame pid s s); try done;
          [by unfold Alioss.owners, Alioss.waiting, Alioss.awaited; rewrite Hi, Hc|
           apply hands_over_refl].
      * apply (hands_over_frame pid s1 (Alioss.start_call Alioss.ClientPut pid
                 [VStr path; f; legacy_upload_config (Alioss.opts s1) c] s1));
          try done; [|apply hands_over_start].
        by unfold Alioss.owners, Alioss.waiting, Alioss.awaited; rewrite Hi, Hc.
    + destruct (generateName_frame n s) as (_ & _ & Hp & Hi & Hc & _).
      destruct (_generateName n s) as [[e|path] s1]; simpl in *.
      * apply (hands_over_frame pid s s); try done;
          [by unfold Alioss.owners, Alioss.waiting, Alioss.awaited; rewrite Hi, Hc|
           apply hands_over_refl].
      * apply (hands_over_frame pid s1 (Alioss.start_call Alioss.ClientMultipartUpload pid
                 [VStr path; f; legacy_upload_config (Alioss.opts s1) c] s1));
          try done; [|apply hands_over_start].
        by unfold Alioss.owners, Alioss.waiting, Alioss.awaited; rewrite Hi, Hc.
    + apply hands_over_start.
    + apply hands_over_start.
    + rewrite settle_record. apply hands_over_record, hands_over_settle.
  - destruct cb; simpl; try apply hands_over_refl. apply hands_over_settle.
Qed.

Lemma catch_hands_over e cb s :
  Alioss.hands_over (Alioss.callback_promise cb) s (Alioss.catch e cb s).
Proof.
  unfold Alioss.catch, Alioss.return_to.
  destruct cb as [pid n f c|pid n f c|pid n f c|pid n u|pid]; simpl;
    repeat case_match; simplify_eq; rewrite ?settle_record;
    try apply hands_over_record; try apply hands_over_refl;
    try apply hands_over_settle.
Qed.

Lemma construct_hands_over cb s :
  Alioss.hands_over (Alioss.callback_promise cb) s (construct cb s).
Proof.
  unfold Alioss.construct. case_match; [apply catch_hands_over|].
  set (s1 := Alioss.with_client _ _).
  apply (hands_over_frame _ s1 (call_back cb s1)); try done.
  apply call_back_hands_over.
Qed.

Lemma init_hands_over cb s :
  Alioss.hands_over (Alioss.callback_promise cb) s (_init cb s).
Proof.
  unfold Alioss._init.
  destruct (Alioss.client s); [apply call_back_hands_over|].
  case_match; [|apply construct_hands_over].
  case_match; try apply catch_hands_over.
  split_and!; try done. right. split; [|done].
  unfold Alioss.owners, Alioss.waiting. simpl.
  rewrite omap_app. simpl. rewrite <- !app_assoc.
  apply Permutation_app_head, Permutation_app_comm.
Qed.

Lemma waiting_retire s i f cb :
  Alioss.inits s !! i = Some (Alioss.InitAwaitsConfig f cb) →
  Alioss.waiting s ≡ₚ
  (Alioss.callback_promise cb ::
     Alioss.waiting (Alioss.with_inits (<[i := Alioss.InitReturned]> (Alioss.inits s)) s)).
Proof.
  unfold Alioss.waiting. simpl. generalize (Alioss.inits s). intros l.
  revert i; induction l as [|x l IH]; intros i H; [done|].
  destruct i as [|i]; simpl in *.
  - by simplify_eq.
  - destruct x; simpl; [by apply IH|].
    rewrite (IH i H). apply Permutation_swap.
Qed.

Lemma legacy_awaited_retire s k c :
  Alioss.calls s !! k = Some c → Alioss.call_live c = true →
  Alioss.awaited s ≡ₚ
  (Alioss.call_promise c ::
     Alioss.awaited
       (Alioss.with_calls
          (<[k := Alioss.BackendCall (Alioss.call_method c) (Alioss.call_promise c)
                    (Alioss.call_args c) false]> (Alioss.calls s)) s)).
Proof.
  unfold Alioss.awaited. simpl. generalize (Alioss.calls s). intros l.
  revert k; induction l as [|x l IH]; intros k H Hl; [done|].
  destruct k as [|k]; simpl in *.
  - simplify_eq. by rewrite Hl.
  - destruct (Alioss.call_live x); simpl; [|by apply IH].
    rewrite (IH k H Hl). apply Permutation_swap.
Qed.

Lemma owned_hands_over q s s' :
  Alioss.hands_over q s s' → Alioss.owned s → q ∉ Alioss.owners s →
  Alioss.promises s !! q = Some Pending → Alioss.owned s'.
Proof.
  intros (Ho & Hp & _) [Hnd Hpen] Hq Hqp. destruct Ho as [Ho|[Ho Hpr]].
  - split; rewrite Ho; [done|].
    rewrite Forall_forall in *. intros p Hin.
    rewrite Hp; [by apply Hpen|]. intros ->. done.
  - split; rewrite Ho.
    + apply NoDup_app. split_and!; [done| |apply NoDup_singleton].
      intros p Hin ->%list_elem_of_singleton. done.
    + rewrite Hpr. apply Forall_app. split; [done|]. by repeat constructor.
Qed.

Lemma unowned_hands_over q s s' p :
  Alioss.hands_over q s s' → p ≠ q → p ∉ Alioss.owners s →
  (p ∉ Alioss.owners s') ∧ Alioss.promises s' !! p = Alioss.promises s !! p.
Proof.
  intros (Ho & Hp & _) Hpq Hin. split; [|by apply Hp].
  destruct Ho as [->|[-> _]]; [done|].
  intros [?|?%list_elem_of_singleton]%elem_of_app; done.
Qed.

Lemma resume_init_retires s i f cb r :
  Alioss.inits s !! i = Some (Alioss.InitAwaitsConfig f cb) →
  ∃ s1, Alioss.owners s ≡ₚ (Alioss.callback_promise cb :: Alioss.owners s1) ∧
        Alioss.promises s1 = Alioss.promises s ∧
        Alioss.hands_over (Alioss.callback_promise cb) s1 (resume_init i cb r s).
Proof.
  intros Hi. unfold Alioss.resume_init.
  set (s1 := Alioss.with_inits _ s).
  assert (Alioss.owners s ≡ₚ (Alioss.callback_promise cb :: Alioss.owners s1)) as Ho.
  { unfold Alioss.owners. rewrite (waiting_retire s i f cb Hi). done. }
  destruct r as [e|v].
  - exists s1. split; [done|]. split; [done|]. apply catch_hands_over.
  - set (s2 := Alioss.with_opts _ s1).
    exists s2. split; [done|]. split; [done|]. apply construct_hands_over.
Qed.

Lemma resume_callback_retires s k c r :
  Alioss.calls s !! k = Some c → Alioss.call_live c = true →
  ∃ s1, Alioss.owners s ≡ₚ (Alioss.call_promise c :: Alioss.owners s1) ∧
        Alioss.promises s1 = Alioss.promises s ∧
        Alioss.hands_over (Alioss.call_promise c) s1 (resume_callback k r s).
Proof.
  intros Hk Hl. unfold Alioss.resume_callback. rewrite Hk, Hl.
  set (s1 := Alioss.with_calls _ s).
  exists s1. split.
  { unfold Alioss.owners. rewrite (legacy_awaited_retire s k c Hk Hl).
    by rewrite Permutation_middle. }
  split; [done|].
  assert (∀ o1 o2,
    Alioss.hands_over (Alioss.call_promise c) s1
      (Alioss.settle (Alioss.call_promise c) o2
         (Alioss.settle (Alioss.call_promise c) o1 s1))) as H2.
  { intros o1 o2. split_and!.
    - left. by rewrite !legacy_settle_owners.
    - intros p Hp. by rewrite !legacy_settle_other.
    - by rewrite !legacy_settle_length. }
  destruct r as [e|v]; simpl; repeat case_match;
    try apply H2; try apply hands_over_settle; apply hands_over_refl.
Qed.

Lemma owners_bound s p :
  Alioss.owned s → p ∈ Alioss.owners s → p < length (Alioss.promises s).
Proof.
  intros [_ H] Hin. rewrite Forall_forall in H.
  by apply lookup_lt_Some with (x := Pending), H.
Qed.

Lemma operation_hands_over cb s :
  Alioss.callback_promise cb = length (Alioss.promises s) →
  Alioss.owned s →
  let s1 := (Alioss.new_promise s).2 in
  Alioss.owners s1 = Alioss.owners s ∧
  Alioss.owned s1 ∧
  (Alioss.callback_promise cb ∉ Alioss.owners s1) ∧
  Alioss.promises s1 !! Alioss.callback_promise cb = Some Pending ∧
  Alioss.hands_over (Alioss.callback_promise cb) s1 (_init cb s1).
Proof.
  intros Hcb Ho s1. split; [done|]. split_and!.
  - destruct Ho as [Hnd Hpen]. split; [done|].
    rewrite Forall_forall in *. intros p Hin. subst s1. simpl.
    rewrite lookup_app_l; [by apply Hpen|].
    by apply lookup_lt_Some with (x := Pending), Hpen.
  - intros Hin. apply (owners_bound s) in Hin; [|done]. lia.
  - subst s1. simpl. rewrite Hcb. by rewrite lookup_app_r, Nat.sub_diag.
  - apply init_hands_over.
Qed.

Lemma legacy_owned_step s i : Alioss.owned s → Alioss.owned (step s i).
Proof.
  intros Ho.
  assert (∀ cb, Alioss.callback_promise cb = length (Alioss.promises s) →
                Alioss.owned (_init cb (Alioss.new_promise s).2)) as Hop.
  { intros cb Hcb.
    destruct (operation_hands_over cb s Hcb Ho) as (_ & H1 & H2 & H3 & H4).
    by apply (owned_hands_over _ _ _ H4). }
  assert (∀ q s1 s',
    Alioss.owners s ≡ₚ (q :: Alioss.owners s1) →
    Alioss.promises s1 = Alioss.promises s →
    Alioss.hands_over q s1 s' → Alioss.owned s') as Hres.
  { intros q s1 s' Hperm Hpr Hh. destruct Ho as [Hnd Hpen].
    rewrite Hperm in Hnd, Hpen.
    apply NoDup_cons in Hnd as [Hq Hnd].
    apply Forall_cons in Hpen as [Hqp Hpen].
    apply (owned_hands_over q s1 s' Hh); [|done|by rewrite Hpr].
    split; [done|]. by rewrite Hpr. }
  destruct i as [n f c|n f c|n f c|n u| |j r|j|k r]; simpl.
  - by apply (Hop (Alioss.UploadCallback _ n f c)).
  - by apply (Hop (Alioss.MultipartCallback _ n f c)).
  - by apply (Hop (Alioss.ResumeCallback _ n f c)).
  - by apply (Hop (Alioss.AbortCallback _ n u)).
  - by apply (Hop (Alioss.CancelCallback _)).
  - destruct (Alioss.inits s !! j) as [[|[] cb]|] eqn:Hj; try done.
    destruct (resume_init_retires s j _ cb r Hj) as (s1 & H1 & H2 & H3).
    by apply (Hres (Alioss.callback_promise cb) s1).
  - destruct (Alioss.inits s !! j) as [[|[] cb]|] eqn:Hj; try done.
    destruct (resume_init_retires s j _ cb (inr VUndefined) Hj) as (s1 & H1 & H2 & H3).
    by apply (Hres (Alioss.callback_promise cb) s1).
  - destruct (Alioss.calls s !! k) as [c|] eqn:Hk.
    2: { unfold Alioss.resume_callback. by rewrite Hk. }
    destruct (Alioss.call_live c) eqn:Hl.
    2: { unfold Alioss.resume_callback. by rewrite Hk, Hl. }
    destruct (resume_callback_retires s k c r Hk Hl) as (s1 & H1 & H2 & H3).
    by apply (Hres (Alioss.call_promise c) s1).
Qed.

Lemma run_snoc s tr i : run s (tr ++ [i]) = step (run s tr) i.
Proof. unfold Alioss.run. by rewrite fold_left_app. Qed.

Lemma legacy_owned_run options tr :
  Alioss.owned (run (Alioss.new_Alioss options) tr).
Proof.
  induction tr as [|i tr IH] using rev_ind.
  - split; [apply NoDup_nil_2|done].
  - rewrite run_snoc. by apply legacy_owned_step.
Qed.

Lemma legacy_unowned_step s i p :
  Alioss.owned s → p < length (Alioss.promises s) → p ∉ Alioss.owners s →
  (p ∉ Alioss.owners (step s i)) ∧
  Alioss.promises (step s i) !! p = Alioss.promises s !! p.
Proof.
  intros Ho Hp Hin.
  assert (∀ cb, Alioss.callback_promise cb = length (Alioss.promises s) →
    (p ∉ Alioss.owners (_init cb (Alioss.new_promise s).2)) ∧
    Alioss.promises (_init cb (Alioss.new_promise s).2) !! p = Alioss.promises s !! p)
    as Hop.
  { intros cb Hcb.
    destruct (operation_hands_over cb s Hcb Ho) as (H0 & H1 & H2 & H3 & H4).
    destruct (unowned_hands_over _ _ _ p H4) as [H5 H6]; [lia|by rewrite H0|].
    split; [done|]. rewrite H6. simpl. by rewrite lookup_app_l. }
  assert (∀ q s1 s',
    Alioss.owners s ≡ₚ (q :: Alioss.owners s1) →
    Alioss.promises s1 = Alioss.promises s →
    Alioss.hands_over q s1 s' →
    (p ∉ Alioss.owners s') ∧ Alioss.promises s' !! p = Alioss.promises s !! p) as Hres.
  { intros q s1 s' Hperm Hpr Hh. rewrite Hperm in Hin.
    apply not_elem_of_cons in Hin as [Hpq Hin].
    destruct (unowned_hands_over _ _ _ p Hh Hpq Hin) as [H5 H6].
    split; [done|]. by rewrite H6, Hpr. }
  destruct i as [n f c|n f c|n f c|n u| |j r|j|k r]; simpl.
  - by apply (Hop (Alioss.UploadCallback _ n f c)).
  - by apply (Hop (Alioss.MultipartCallback _ n f c)).
  - by apply (Hop (Alioss.ResumeCallback _ n f c)).
  - by apply (Hop (Alioss.AbortCallback _ n u)).
  - by apply (Hop (Alioss.CancelCallback _)).
  - destruct (Alioss.inits s !! j) as [[|[] cb]|] eqn:Hj; try done.
    destruct (resume_init_retires s j _ cb r Hj) as (s1 & H1 & H2 & H3).
    by apply (Hres (Alioss.callback_promise cb) s1).
  - destruct (Alioss.inits s !! j) as [[|[] cb]|] eqn:Hj; try done.
    destruct (resume_init_retires s j _ cb (inr VUndefined) Hj) as (s1 & H1 & H2 & H3).
    by apply (Hres (Alioss.callback_promise cb) s1).
  - destruct (Alioss.calls s !! k) as [c|] eqn:Hk.
    2: { unfold Alioss.resume_callback. by rewrite Hk. }
    destruct (Alioss.call_live c) eqn:Hl.
    2: { unfold Alioss.resume_callback. by rewrite Hk, Hl. }
    destruct (resume_callback_retires s k c r Hk Hl) as (s1 & H1 & H2 & H3).
    by apply (Hres (Alioss.call_promise c) s1).
Qed.

Lemma legacy_promises_grow s i :
  length (Alioss.promises s) ≤ length (Alioss.promises (step s i)).
Proof.
  assert (∀ cb, length (Alioss.promises s)
                ≤ length (Alioss.promises (_init cb (Alioss.new_promise s).2))) as Hop.
  { intros cb. destruct (init_hands_over cb (Alioss.new_promise s).2) as (_ & _ & ->).
    simpl. rewrite length_app. lia. }
  destruct i as [n f c|n f c|n f c|n u| |j r|j|k r]; simpl; try apply Hop.
  - destruct (Alioss.inits s !! j) as [[|[] cb]|] eqn:Hj; try done.
    destruct (resume_init_retires s j _ cb r Hj) as (s1 & _ & H2 & _ & _ & H3).
    rewrite <- H2. apply Nat.eq_le_incl. symmetry. exact H3.
  - destruct (Alioss.inits s !! j) as [[|[] cb]|] eqn:Hj; try done.
    destruct (resume_init_retires s j _ cb (inr VUndefined) Hj)
      as (s1 & _ & H2 & _ & _ & H3).
    rewrite <- H2. apply Nat.eq_le_incl. symmetry. exact H3.
  - destruct (Alioss.calls s !! k) as [c|] eqn:Hk.
    2: { unfold Alioss.resume_callback. by rewrite Hk. }
    destruct (Alioss.call_live c) eqn:Hl.
    2: { unfold Alioss.resume_callback. by rewrite Hk, Hl. }
    destruct (resume_callback_retires s k c r Hk Hl) as (s1 & _ & H2 & _ & _ & H3).
    rewrite <- H2. apply Nat.eq_le_incl. symmetry. exact H3.
Qed.

Lemma legacy_unowned_run s tr p :
  Alioss.owned s → p < length (Alioss.promises s) → p ∉ Alioss.owners s →
  Alioss.promises (run s tr) !! p = Alioss.promises s !! p.
Proof.
  revert s; induction tr as [|i tr IH]; intros s Ho Hp Hin; simpl; [done|].
  destruct (legacy_unowned_step s i p Ho Hp Hin) as [H1 H2].
  rewrite <- H2. apply IH; [by apply legacy_owned_step| |done].
  pose proof (legacy_promises_grow s i). lia.
Qed.

Lemma legacy_settled_forever s tr p o :
  Alioss.owned s → Alioss.promises s !! p = Some o → o ≠ Pending →
  Alioss.promises (run s tr) !! p = Some o.
Proof.
  intros Ho Hp Hne. rewrite <- Hp.
  apply legacy_unowned_run; [done|by apply lookup_lt_Some in Hp|].
  intros Hin. destruct Ho as [_ Hpen]. rewrite Forall_forall in Hpen.
  apply Hpen in Hin. congruence.
Qed.

Lemma legacy_awaited_pending options tr k c :
  let s := run (Alioss.new_Alioss options) tr in
  Alioss.calls s !! k = Some c → Alioss.call_live c = true →
  Alioss.promises s !! Alioss.call_promise c = Some Pending ∧
  ∃ s1, Alioss.owners s ≡ₚ (Alioss.call_promise c :: Alioss.owners s1) ∧
        s1 = Alioss.with_calls
               (<[k := Alioss.BackendCall (Alioss.call_method c) (Alioss.call_promise c)
                         (Alioss.call_args c) false]> (Alioss.calls s)) s.
Proof.
  intros s Hk Hl.
  pose proof (legacy_owned_run options tr) as [Hnd Hpen]. fold s in Hnd, Hpen.
  assert (Alioss.owners s ≡ₚ
          (Alioss.call_promise c ::
             Alioss.owners
               (Alioss.with_calls
                  (<[k := Alioss.BackendCall (Alioss.call_method c)
                            (Alioss.call_promise c) (Alioss.call_args c) false]>
                     (Alioss.calls s)) s))) as Hperm.
  { unfold Alioss.owners. rewrite (legacy_awaited_retire s k c Hk Hl).
    by rewrite Permutation_middle. }
  split; [|eauto].
  rewrite Hperm in Hpen. by apply Forall_cons in Hpen as [? _].
Qed.

(** ** The outcome of a backend call *)

(** X18. When a backend call of [Alioss] fails, whichever operation
    made it, the promise of the operation is rejected with the error of
    the backend and keeps that outcome: the [resolve] the callback goes
    on to after its [catch] handler comes too late, and for the
    uploads [_formatResult(undefined)] throws before it. *)
Theorem legacy_failure_rejects (options : value) (tr tr' : list Alioss.input)
    (k : nat) (c : Alioss.backend_call) (e : error) :
  let s := run (Alioss.new_Alioss options) tr in
  Alioss.calls s !! k = Some c → Alioss.call_live c = true →
  let s' := step s (Alioss.BackendSettles k (inl e)) in
  _formatResult VUndefined = inl TypeError ∧
  Alioss.promises s' !! Alioss.call_promise c = Some (Rejected e) ∧
  Alioss.promises (run s' tr') !! Alioss.call_promise c = Some (Rejected e).
Proof.
  intros s Hk Hl s'. split; [done|].
  destruct (legacy_awaited_pending options tr k c Hk Hl) as [Hp _]. fold s in Hp.
  assert (Alioss.promises s' !! Alioss.call_promise c = Some (Rejected e)) as Hrej.
  { subst s'. simpl. unfold Alioss.resume_callback. rewrite Hk, Hl.
    set (s1 := Alioss.with_calls _ s).
    assert (Alioss.promises s1 !! Alioss.call_promise c = Some Pending) as Hp1 by done.
    pose proof (legacy_settle_pending _ (Rejected e) s1 Hp1) as H1.
    destruct (Alioss.call_method c); simpl;
      try (by apply legacy_settle_keeps);
      change (_formatResult VUndefined) with (@inl error value TypeError);
      done. }
  split; [done|].
  apply legacy_settled_forever; [|done..].
  apply legacy_owned_step, legacy_owned_run.
Qed.

(** X19. When a backend call of [Alioss] succeeds: the promise of
    [abortMultipartUpload] is resolved with the result as it is; the
    promise of an upload is resolved with [_formatResult] of the result
    when that returns, and is never settled when [_formatResult]
    throws, as it does for a result without [res]. *)
Theorem legacy_success_resolves_or_hangs (options : value)
    (tr tr' : list Alioss.input) (k : nat) (c : Alioss.backend_call)
    (result : value) :
  let s := run (Alioss.new_Alioss options) tr in
  Alioss.calls s !! k = Some c → Alioss.call_live c = true →
  let s' := step s (Alioss.BackendSettles k (inr result)) in
  let p := Alioss.call_promise c in
  match Alioss.call_method c, _formatResult result with
  | Alioss.ClientAbortMultipartUpload, _ =>
      Alioss.promises (run s' tr') !! p = Some (Resolved result)
  | _, inr formatted =>
      Alioss.promises (run s' tr') !! p = Some (Resolved formatted)
  | _, inl _ =>
      Alioss.promises (run s' tr') !! p = Some Pending
  end.
Proof.
  intros s Hk Hl s' p.
  destruct (legacy_awaited_pending options tr k c Hk Hl) as [Hp (s1 & Hperm & Hs1)].
  fold s in Hp, Hperm.
  pose proof (legacy_owned_run options tr) as Ho. fold s in Ho.
  assert (Alioss.owned s') as Ho' by by apply legacy_owned_step.
  assert (Alioss.promises s1 !! p = Some Pending) as Hp1 by by subst s1.
  assert (s' = match Alioss.call_method c with
               | Alioss.ClientAbortMultipartUpload =>
                   Alioss.settle p (Resolved result) s1
               | _ => match _formatResult result with
                      | inl _ => s1
                      | inr v => Alioss.settle p (Resolved v) s1
                      end
               end) as Hs'.
  { subst s' s1. simpl. unfold Alioss.resume_callback. by rewrite Hk, Hl. }
  assert (∀ o, o ≠ Pending →
            Alioss.promises (run (Alioss.settle p o s1) tr') !! p = Some o) as Hset.
  { intros o Hne. apply legacy_settled_forever; [|by apply legacy_settle_pending|done].
    destruct (Alioss.call_method c), (_formatResult result);
      rewrite Hs' in Ho'; try done.
    all: destruct Ho as [Hnd Hpen]; rewrite Hperm in Hnd, Hpen;
      apply NoDup_cons in Hnd as [Hq Hnd]; apply Forall_cons in Hpen as [_ Hpen];
      apply (owned_hands_over p s1); [apply hands_over_settle| |done|done];
      split; [done|by subst s1]. }
  assert (Alioss.promises (run s1 tr') !! p = Some Pending) as Hhang.
  { destruct Ho as [Hnd Hpen]. rewrite Hperm in Hnd, Hpen.
    apply NoDup_cons in Hnd as [Hq Hnd]. apply Forall_cons in Hpen as [_ Hpen].
    rewrite <- Hp1. apply legacy_unowned_run; [|by apply lookup_lt_Some in Hp1|done].
    split; [done|by subst s1]. }
  rewrite Hs'.
  destruct (Alioss.call_method c), (_formatResult result); try done;
    by apply Hset.
Qed.

(** ** The callbacks *)





(** ** The construction of the client *)

Lemma legacy_settle_frame p o s :
  Alioss.opts (Alioss.settle p o s) = Alioss.opts s ∧
  Alioss.client (Alioss.settle p o s) = Alioss.client s ∧
  Alioss.inits (Alioss.settle p o s) = Alioss.inits s ∧
  Alioss.calls (Alioss.settle p o s) = Alioss.calls s ∧
  Alioss.log (Alioss.settle p o s) = Alioss.log s.
Proof. unfold Alioss.settle. by repeat case_match. Qed.

Lemma call_back_frame cb s :
  Alioss.opts (call_back cb s) = Alioss.opts s ∧
  Alioss.client (call_back cb s) = Alioss.client s ∧
  Alioss.inits (call_back cb s) = Alioss.inits s ∧
  Alioss.constructed (call_back cb s) = Alioss.constructed s ∧
  Alioss.config_calls (call_back cb s) = Alioss.config_calls s ∧
  Alioss.reported (call_back cb s) = Alioss.reported s.
Proof.
  unfold Alioss.call_back, Alioss.return_to.
  destruct callback_is_Function.
  - destruct cb as [pid n f c|pid n f c|pid n f c|pid n u|pid]; simpl;
      try done.
    + destruct (generateName_frame n s) as (Ho & Hc & _ & Hi & _ & Hl).
      unfold Alioss.constructed, Alioss.config_calls, Alioss.reported.
      destruct (_generateName n s) as [[e|path] s1]; simpl in *;
        by rewrite Ho, Hc, Hi, Hl.
    + destruct (generateName_frame n s) as (Ho & Hc & _ & Hi & _ & Hl).
      unfold Alioss.constructed, Alioss.config_calls, Alioss.reported.
      destruct (_generateName n s) as [[e|path] s1]; simpl in *;
        by rewrite Ho, Hc, Hi, Hl.
    + destruct (legacy_settle_frame pid (Resolved VUndefined)
                  (Alioss.record Alioss.ClientCancel s)) as (Ho & Hc & Hi & _ & Hl).
      unfold Alioss.constructed, Alioss.config_calls, Alioss.reported.
      rewrite Ho, Hc, Hi, Hl. simpl.
      by rewrite !omap_app, List.filter_app, !app_nil_r.
  - destruct cb; try done.
    destruct (legacy_settle_frame pid (Resolved VUndefined) s) as (Ho & Hc & Hi & _ & Hl).
    unfold Alioss.constructed, Alioss.config_calls, Alioss.reported.
    by rewrite Ho, Hc, Hi, Hl.
Qed.

Lemma catch_frame e cb s :
  Alioss.opts (Alioss.catch e cb s) = Alioss.opts s ∧
  Alioss.client (Alioss.catch e cb s) = Alioss.client s ∧
  Alioss.inits (Alioss.catch e cb s) = Alioss.inits s ∧
  Alioss.calls (Alioss.catch e cb s) = Alioss.calls s ∧
  Alioss.constructed (Alioss.catch e cb s) = Alioss.constructed s ∧
  Alioss.config_calls (Alioss.catch e cb s) = Alioss.config_calls s ∧
  (e ≠ Thrown VUndefined → e ≠ Thrown VNull →
   Alioss.reported (Alioss.catch e cb s) = Alioss.reported s ++ [e]).
Proof.
  unfold Alioss.catch, Alioss.return_to.
  unfold Alioss.constructed, Alioss.config_calls, Alioss.reported.
  destruct cb as [pid n f c|pid n f c|pid n f c|pid n u|pid];
    destruct e as [|[]]; simpl;
    try (destruct (legacy_settle_frame pid (Rejected TypeError) s)
           as (-> & -> & -> & -> & ->));
    try (destruct (legacy_settle_frame pid (Resolved VUndefined)
                     (Alioss.record (Alioss.ConsoleError TypeError) s))
           as (-> & -> & -> & -> & ->));
    try (match goal with
         | |- context [Alioss.settle ?p ?o (Alioss.record ?x s)] =>
             destruct (legacy_settle_frame p o (Alioss.record x s))
               as (-> & -> & -> & -> & ->)
         end);
    simpl; rewrite ?omap_app, ?List.filter_app, ?app_nil_r; simpl;
    rewrite ?app_nil_r; split_and!; try done.
Qed.

Lemma construct_frame cb s :
  Alioss.opts (construct cb s) = Alioss.opts s ∧
  Alioss.inits (construct cb s) = Alioss.inits s ∧
  Alioss.config_calls (construct cb s) = Alioss.config_calls s ∧
  match oss_rejects (Alioss.picked (Alioss.opts s)) with
  | Some e =>
      Alioss.client (construct cb s) = Alioss.client s ∧
      Alioss.constructed (construct cb s) = Alioss.constructed s ∧
      Alioss.calls (construct cb s) = Alioss.calls s ∧
      (e ≠ Thrown VUndefined → e ≠ Thrown VNull →
       Alioss.reported (construct cb s) = Alioss.reported s ++ [e])
  | None =>
      Alioss.client (construct cb s) = Some (Handle (Alioss.picked (Alioss.opts s))) ∧
      Alioss.constructed (construct cb s) =
        Alioss.constructed s ++ [Alioss.picked (Alioss.opts s)] ∧
      Alioss.reported (construct cb s) = Alioss.reported s
  end.
Proof.
  unfold Alioss.construct.
  destruct (oss_rejects (Alioss.picked (Alioss.opts s))) as [e|].
  - destruct (catch_frame e cb s) as (? & ? & ? & ? & ? & ? & ?). by split_and!.
  - set (s1 := Alioss.with_client _ _).
    destruct (call_back_frame cb s1) as (-> & -> & -> & -> & -> & ->).
    subst s1. unfold Alioss.constructed, Alioss.config_calls, Alioss.reported. simpl.
    rewrite !omap_app, List.filter_app. simpl. by rewrite !app_nil_r.
Qed.

Lemma resume_callback_frame k r s :
  Alioss.opts (resume_callback k r s) = Alioss.opts s ∧
  Alioss.client (resume_callback k r s) = Alioss.client s ∧
  Alioss.inits (resume_callback k r s) = Alioss.inits s ∧
  Alioss.log (resume_callback k r s) = Alioss.log s.
Proof.
  unfold Alioss.resume_callback.
  destruct (Alioss.calls s !! k) as [c|]; [|done].
  destruct (Alioss.call_live c); [|done].
  set (s1 := Alioss.with_calls _ s).
  assert (Alioss.opts s1 = Alioss.opts s ∧ Alioss.client s1 = Alioss.client s ∧
          Alioss.inits s1 = Alioss.inits s ∧ Alioss.log s1 = Alioss.log s)
    as (H1 & H2 & H3 & H4) by done.
  clearbody s1. rewrite <- H1, <- H2, <- H3, <- H4.
  destruct r as [e|v]; simpl;
    destruct (Alioss.call_method c); try destruct (_formatResult _);
    repeat match goal with
           | |- context [Alioss.settle ?p ?o ?x] =>
               destruct (legacy_settle_frame p o x) as (-> & -> & -> & _ & ->)
           end; done.
Qed.

Lemma sync_step o0 s i :
  truthy (get "async" (VObj o0)) = false →
  Alioss.inits s = [] ∧ Alioss.opts s = o0 ∧ Alioss.config_calls s = 0 ∧
  match Alioss.client s with
  | Some c => Alioss.constructed s = [Alioss.picked o0] ∧ c = Handle (Alioss.picked o0)
  | None => Alioss.constructed s = []
  end →
  Alioss.inits (step s i) = [] ∧ Alioss.opts (step s i) = o0 ∧
  Alioss.config_calls (step s i) = 0 ∧
  match Alioss.client (step s i) with
  | Some c => Alioss.constructed (step s i) = [Alioss.picked o0] ∧
              c = Handle (Alioss.picked o0)
  | None => Alioss.constructed (step s i) = []
  end.
Proof.
  intros Ha (Hi & Ho & Hk & Hc).
  assert (∀ cb,
    let s' := _init cb (Alioss.new_promise s).2 in
    Alioss.inits s' = [] ∧ Alioss.opts s' = o0 ∧ Alioss.config_calls s' = 0 ∧
    match Alioss.client s' with
    | Some c => Alioss.constructed s' = [Alioss.picked o0] ∧ c = Handle (Alioss.picked o0)
    | None => Alioss.constructed s' = []
    end) as Hop.
  { intros cb. cbv zeta. set (s1 := (Alioss.new_promise s).2).
    assert (Alioss.client s1 = Alioss.client s ∧ Alioss.opts s1 = o0 ∧
            Alioss.inits s1 = [] ∧ Alioss.config_calls s1 = 0 ∧
            Alioss.constructed s1 = Alioss.constructed s)
      as (Hc1 & Ho1 & Hi1 & Hk1 & Hn1) by done.
    clearbody s1. rewrite <- Hc1, <- Hn1 in Hc.
    unfold Alioss._init.
    destruct (Alioss.client s1) as [c|] eqn:Hcl.
    - destruct (call_back_frame cb s1) as (-> & -> & -> & -> & -> & _).
      by rewrite Hcl.
    - unfold Alioss.opt. rewrite Ho1, Ha.
      destruct (construct_frame cb s1) as (-> & -> & -> & H).
      rewrite Ho1 in H.
      destruct (oss_rejects (Alioss.picked o0)).
      + destruct H as (-> & -> & _). by rewrite Hcl.
      + destruct H as (-> & -> & _). by rewrite Hc. }
  destruct i as [n f c|n f c|n f c|n u| |j r|j|k r]; simpl; try apply Hop.
  - by rewrite Hi.
  - by rewrite Hi.
  - destruct (resume_callback_frame k r s) as (H1 & H2 & H3 & H4).
    unfold Alioss.constructed, Alioss.config_calls in *.
    by rewrite H1, H2, H3, H4.
Qed.

(** X21. Without [async], [Alioss] constructs its client once: under
    every sequence of operations and resumptions [getConfig] is not
    called, the options stay as the constructor left them, and the
    client, once there, is the one constructed from the twelve options
    [_init] picks. *)
Theorem sync_init_constructs_once (options : value) (tr : list Alioss.input) :
  let s0 := Alioss.new_Alioss options in
  truthy (Alioss.opt "async" s0) = false →
  let s := run s0 tr in
  length (Alioss.constructed s) ≤ 1 ∧
  Alioss.config_calls s = 0 ∧
  Alioss.opts s = Alioss.opts s0 ∧
  (Alioss.client s = None → Alioss.constructed s = []) ∧
  (∀ c, Alioss.client s = Some c →
     c = Handle (Alioss.picked (Alioss.opts s0)) ∧
     Alioss.constructed s = [handle_options c]).
Proof.
  intros s0 Ha s.
  assert (Alioss.inits s = [] ∧ Alioss.opts s = Alioss.opts s0 ∧
          Alioss.config_calls s = 0 ∧
          match Alioss.client s with
          | Some c => Alioss.constructed s = [Alioss.picked (Alioss.opts s0)] ∧
                      c = Handle (Alioss.picked (Alioss.opts s0))
          | None => Alioss.constructed s = []
          end) as (Hi & Ho & Hk & Hc).
  { subst s. induction tr as [|i tr IH] using rev_ind; [done|].
    rewrite run_snoc. by apply sync_step. }
  split_and!; try done.
  - destruct (Alioss.client s); [destruct Hc as [-> _]|rewrite Hc]; simpl; lia.
  - intros Hn. by rewrite Hn in Hc.
  - intros c Hs. rewrite Hs in Hc. destruct Hc as [-> ->]. done.
Qed.

Lemma asking_step o0 s i :
  truthy (get "async" (VObj o0)) = true →
  get "getConfig" (VObj o0) = VFun ReturnsPromise →
  Alioss.is_call i = true →
  Alioss.client s = None ∧ Alioss.opts s = o0 ∧ Alioss.constructed s = [] ∧
  Alioss.config_calls s = length (Alioss.inits s) ∧
  Forall (fun x => ∃ cb, x = Alioss.InitAwaitsConfig ReturnsPromise cb) (Alioss.inits s) →
  Alioss.client (step s i) = None ∧ Alioss.opts (step s i) = o0 ∧
  Alioss.constructed (step s i) = [] ∧
  Alioss.config_calls (step s i) = length (Alioss.inits (step s i)) ∧
  Forall (fun x => ∃ cb, x = Alioss.InitAwaitsConfig ReturnsPromise cb)
    (Alioss.inits (step s i)) ∧
  length (Alioss.inits (step s i)) = S (length (Alioss.inits s)).
Proof.
  intros Ha Hg Hi (Hc & Ho & Hn & Hk & Hin).
  assert (∀ cb,
    let s' := _init cb (Alioss.new_promise s).2 in
    Alioss.client s' = None ∧ Alioss.opts s' = o0 ∧ Alioss.constructed s' = [] ∧
    Alioss.config_calls s' = length (Alioss.inits s') ∧
    Forall (fun x => ∃ cb, x = Alioss.InitAwaitsConfig ReturnsPromise cb)
      (Alioss.inits s') ∧
    length (Alioss.inits s') = S (length (Alioss.inits s))) as Hop.
  { intros cb. cbv zeta. set (s1 := (Alioss.new_promise s).2).
    assert (Alioss.client s1 = None ∧ Alioss.opts s1 = o0 ∧
            Alioss.inits s1 = Alioss.inits s ∧ Alioss.log s1 = Alioss.log s)
      as (Hc1 & Ho1 & Hi1 & Hl1) by done.
    clearbody s1.
    unfold Alioss._init, Alioss.opt. rewrite Hc1, Ho1, Ha, Hg.
    unfold Alioss.constructed, Alioss.config_calls in *. simpl.
    rewrite Hi1, Hl1, omap_app, List.filter_app, !length_app. simpl.
    rewrite Hn, Hk. split_and!; try done; try lia.
    apply Forall_app. split; [done|]. repeat constructor. by exists cb. }
  destruct i as [n f c|n f c|n f c|n u| |j r|j|k r]; simpl; try done; apply Hop.
Qed.

Lemma settling_step s j v cb :
  oss_rejects
    (Alioss.picked (assign (Alioss.opts s) (own_props (js_or v (VObj []))))) = None →
  Alioss.inits s !! j = Some (Alioss.InitAwaitsConfig ReturnsPromise cb) →
  let s' := step s (Alioss.ConfigSettles j (inr v)) in
  Alioss.inits s' = <[j := Alioss.InitReturned]> (Alioss.inits s) ∧
  Alioss.config_calls s' = Alioss.config_calls s ∧
  Alioss.opts s' = assign (Alioss.opts s) (own_props (js_or v (VObj []))) ∧
  Alioss.client s' = Some (Handle (Alioss.picked (Alioss.opts s'))) ∧
  Alioss.constructed s' = Alioss.constructed s ++ [Alioss.picked (Alioss.opts s')].
Proof.
  intros Hacc Hj. simpl. rewrite Hj. unfold Alioss.resume_init.
  set (s2 := Alioss.with_opts _ _).
  destruct (construct_frame cb s2) as (-> & -> & -> & H).
  assert (Alioss.opts s2 = assign (Alioss.opts s) (own_props (js_or v (VObj []))))
    as Ho2 by done.
  rewrite Ho2, Hacc in H. destruct H as (-> & -> & _).
  by rewrite Ho2.
Qed.

Lemma config_results_snoc vs v :
  config_results (vs ++ [v]) =
  config_results vs ++ [Alioss.ConfigSettles (length vs) (inr v)].
Proof.
  unfold config_results. rewrite imap_app. simpl. by rewrite Nat.add_0_r.
Qed.

Lemma settling_run s vs :
  (∀ o, oss_rejects o = None) →
  (∀ j, j < length vs →
     ∃ cb, Alioss.inits s !! j = Some (Alioss.InitAwaitsConfig ReturnsPromise cb)) →
  let s' := run s (config_results vs) in
  length (Alioss.constructed s') = length (Alioss.constructed s) + length vs ∧
  Alioss.config_calls s' = Alioss.config_calls s ∧
  (∀ j, length vs ≤ j → Alioss.inits s' !! j = Alioss.inits s !! j) ∧
  (vs ≠ [] → Alioss.client s' = Some (Handle (Alioss.picked (Alioss.opts s'))) ∧
             last (Alioss.constructed s') = Some (Alioss.picked (Alioss.opts s'))).
Proof.
  intros Hacc. induction vs as [|v vs IH] using rev_ind; intros Hw; simpl.
  - split_and!; try done.
  - rewrite config_results_snoc, run_snoc.
    destruct IH as (H1 & H2 & H3 & _).
    { intros j Hj. apply Hw. rewrite length_app. lia. }
    destruct (Hw (length vs)) as [cb Hcb]; [rewrite length_app; simpl; lia|].
    rewrite <- H3 in Hcb by lia.
    destruct (settling_step _ _ v cb (Hacc _) Hcb) as (Hi' & Hk' & Ho' & Hc' & Hn').
    split_and!.
    + rewrite Hn', !length_app, H1. simpl. lia.
    + by rewrite Hk'.
    + intros j Hj. rewrite length_app in Hj. simpl in Hj.
      rewrite Hi', list_lookup_insert_ne by lia. apply H3. lia.
    + intros _. split; [done|]. by rewrite Hn', last_snoc.
Qed.

(** X22. With [async], [Alioss] has no single flight: every operation
    that is called before the first configuration has arrived asks
    [getConfig] itself, and every one of them, when its configuration
    arrives, constructs a client of its own, [_init] not looking at
    [this.client] again after its [await].  [n] such operations make
    [n] calls of [getConfig] and [n] clients, the last of which is
    kept. *)
Theorem async_init_constructs_per_call (options : value)
    (ops : list Alioss.input) (vs : list value) :
  let s0 := Alioss.new_Alioss options in
  truthy (Alioss.opt "async" s0) = true →
  Alioss.opt "getConfig" s0 = VFun ReturnsPromise →
  (∀ o, oss_rejects o = None) →
  forallb Alioss.is_call ops = true →
  length vs = length ops →
  let s1 := run s0 ops in
  let s := run s1 (config_results vs) in
  Alioss.constructed s1 = [] ∧
  Alioss.config_calls s = length ops ∧
  length (Alioss.constructed s) = length ops ∧
  (ops ≠ [] →
   Alioss.client s = Some (Handle (Alioss.picked (Alioss.opts s))) ∧
   last (Alioss.constructed s) = Some (Alioss.picked (Alioss.opts s))).
Proof.
  intros s0 Ha Hg Hacc Hops Hlen s1 s.
  assert (Alioss.client s1 = None ∧ Alioss.opts s1 = Alioss.opts s0 ∧
          Alioss.constructed s1 = [] ∧
          Alioss.config_calls s1 = length (Alioss.inits s1) ∧
          Forall (fun x => ∃ cb, x = Alioss.InitAwaitsConfig ReturnsPromise cb)
            (Alioss.inits s1) ∧
          length (Alioss.inits s1) = length ops) as (Hc & Ho & Hn & Hk & Hin & Hl).
  { subst s1. clear Hlen s. induction ops as [|i ops IH] using rev_ind; [done|].
    rewrite forallb_app in Hops. apply andb_prop in Hops as [Hops Hi].
    simpl in Hi. rewrite andb_true_r in Hi.
    rewrite run_snoc. destruct (IH Hops) as (H1 & H2 & H3 & H4 & H5 & H6).
    destruct (asking_step (Alioss.opts s0) _ i Ha Hg Hi
                (conj H1 (conj H2 (conj H3 (conj H4 H5)))))
      as (? & ? & ? & ? & ? & Hlen).
    split_and!; try done. rewrite Hlen, H6, length_app. simpl. lia. }
  destruct (settling_run s1 vs Hacc) as (H1 & H2 & _ & H4).
  { intros j Hj. rewrite Forall_lookup in Hin.
    destruct (lookup_lt_is_Some_2 (Alioss.inits s1) j) as [x Hx]; [lia|].
    destruct (Hin j x Hx) as [cb ->]. eauto. }
  fold s in H1, H2, H4.
  split; [done|]. split; [by rewrite H2, Hk|].
  split; [by rewrite H1, Hn, Hlen|].
  intros Hne. apply H4. intros ->. simpl in Hlen. by destruct ops.
Qed.

(** ** When [_init] fails *)

(** X23. When [new OSS] throws in [_init], the error goes to
    [console.error] and nowhere else: the callback is not called, the
    client stays as it was, and the promise the operation has returned
    is never settled.  Only [cancel] returns a promise that is
    resolved.  This holds where [_init] constructs at once, at an
    operation on an instance without [async] and without a client, and
    where it constructs after [getConfig] has answered, the options
    then being the ones merged with the answer. *)
Theorem failed_construction_is_only_reported (options : value)
    (tr tr' : list Alioss.input) (e : error) :
  let s := run (Alioss.new_Alioss options) tr in
  e ≠ Thrown VUndefined → e ≠ Thrown VNull →
  (∀ op,
     Alioss.client s = None →
     truthy (Alioss.opt "async" s) = false →
     oss_rejects (Alioss.picked (Alioss.opts s)) = Some e →
     Alioss.is_call op = true →
     let s' := step s op in
     Alioss.client s' = None ∧
     Alioss.constructed s' = Alioss.constructed s ∧
     Alioss.calls s' = Alioss.calls s ∧
     Alioss.reported s' = Alioss.reported s ++ [e] ∧
     Alioss.promises (run s' tr') !! length (Alioss.promises s) =
       Some (if Alioss.is_cancel op then Resolved VUndefined else Pending)) ∧
  (∀ i f cb v resumption,
     Alioss.inits s !! i = Some (Alioss.InitAwaitsConfig f cb) →
     f = ReturnsPromise ∧ resumption = Alioss.ConfigSettles i (inr v) ∨
     f = ReturnsNothing ∧ resumption = Alioss.InitResumes i ∧ v = VUndefined →
     let merged := assign (Alioss.opts s) (own_props (js_or v (VObj []))) in
     oss_rejects (Alioss.picked merged) = Some e →
     let s' := step s resumption in
     Alioss.client s' = Alioss.client s ∧
     Alioss.opts s' = merged ∧
     Alioss.constructed s' = Alioss.constructed s ∧
     Alioss.calls s' = Alioss.calls s ∧
     Alioss.reported s' = Alioss.reported s ++ [e] ∧
     Alioss.promises s !! Alioss.callback_promise cb = Some Pending ∧
     Alioss.promises (run s' tr') !! Alioss.callback_promise cb =
       Some (match cb with
             | Alioss.CancelCallback _ => Resolved VUndefined
             | _ => Pending
             end)).
Proof.
  intros s Hu Hn.
  pose proof (legacy_owned_run options tr) as Ho. fold s in Ho.
  assert (∀ cb s1,
    Alioss.catch e cb s1 =
    match cb with
    | Alioss.CancelCallback p =>
        Alioss.settle p (Resolved VUndefined)
          (Alioss.record (Alioss.ConsoleError e) s1)
    | _ => Alioss.record (Alioss.ConsoleError e) s1
    end) as Hcatch.
  { intros cb s1. unfold Alioss.catch, Alioss.return_to. by destruct e as [|[]], cb. }
  split.
  - intros op Hc Ha He Hop s'.
    assert (∀ cb, Alioss.callback_promise cb = length (Alioss.promises s) →
      let s2 := _init cb (Alioss.new_promise s).2 in
      Alioss.client s2 = None ∧
      Alioss.constructed s2 = Alioss.constructed s ∧
      Alioss.calls s2 = Alioss.calls s ∧
      Alioss.reported s2 = Alioss.reported s ++ [e] ∧
      Alioss.promises (run s2 tr') !! length (Alioss.promises s) =
        Some (match cb with
              | Alioss.CancelCallback _ => Resolved VUndefined
              | _ => Pending
              end)) as Hmain.
    { intros cb Hp s2.
      set (s1 := (Alioss.new_promise s).2) in *.
      assert (s2 = Alioss.catch e cb s1) as Hs2.
      { subst s2. unfold Alioss._init, Alioss.construct, Alioss.opt in *.
        assert (Alioss.client s1 = None) as -> by done.
        assert (Alioss.opts s1 = Alioss.opts s) as -> by done.
        by rewrite Ha, He. }
      clearbody s2. subst s2.
      destruct (catch_frame e cb s1) as (_ & H2 & _ & H4 & H5 & _ & H7).
      split; [by rewrite H2|]. split; [by rewrite H5|]. split; [by rewrite H4|].
      split; [by rewrite H7|].
      destruct (operation_hands_over cb s Hp Ho) as (Hown & Ho1 & Hnot & Hpen & _).
      fold s1 in Hown, Ho1, Hnot, Hpen.
      assert (Alioss.owned (Alioss.catch e cb s1)) as Ho2.
      { apply (owned_hands_over _ _ _ (catch_hands_over e cb s1)); done. }
      rewrite Hp in Hpen, Hnot.
      rewrite Hcatch in *.
      destruct cb as [pid n f c|pid n f c|pid n f c|pid n u|pid]; simpl in Hp; subst pid.
      5: { apply legacy_settled_forever; [done| |done].
           by apply legacy_settle_pending. }
      all: rewrite legacy_unowned_run;
        [exact Hpen|done|by apply lookup_lt_Some in Hpen|done]. }
    subst s'.
    destruct op as [n f c|n f c|n f c|n u| |j r|j|k r]; try done; simpl.
    + apply (Hmain (Alioss.UploadCallback _ n f c)). done.
    + apply (Hmain (Alioss.MultipartCallback _ n f c)). done.
    + apply (Hmain (Alioss.ResumeCallback _ n f c)). done.
    + apply (Hmain (Alioss.AbortCallback _ n u)). done.
    + apply (Hmain (Alioss.CancelCallback _)). done.
  - intros i f cb v resumption Hi Hres merged He s'.
    assert (Alioss.owned s') as Ho' by by apply legacy_owned_step.
    set (s1 := Alioss.with_inits (<[i := Alioss.InitReturned]> (Alioss.inits s)) s).
    set (s2 := Alioss.with_opts merged s1).
    assert (s' = Alioss.catch e cb s2) as Hs'.
    { subst s'.
      assert (step s resumption = resume_init i cb (inr v) s) as ->.
      { destruct Hres as [[-> ->]|(-> & -> & ->)]; simpl; by rewrite Hi. }
      change (resume_init i cb (inr v) s) with (construct cb s2).
      unfold Alioss.construct.
      change (Alioss.opts s2) with merged. by rewrite He. }
    destruct (catch_frame e cb s2) as (H1 & H2 & _ & H4 & H5 & _ & H7).
    rewrite <- Hs' in *.
    split; [by rewrite H2|]. split; [by rewrite H1|]. split; [by rewrite H5|].
    split; [by rewrite H4|]. split; [by rewrite H7|].
    assert (Alioss.owners s ≡ₚ (Alioss.callback_promise cb :: Alioss.owners s2)) as Hperm.
    { unfold Alioss.owners. by rewrite (waiting_retire s i _ cb Hi). }
    destruct Ho as [Hnd Hpen]. rewrite Hperm in Hnd, Hpen.
    apply NoDup_cons in Hnd as [Hq Hnd]. apply Forall_cons in Hpen as [Hqp Hpen].
    split; [done|].
    assert (Alioss.promises s2 = Alioss.promises s) as Hp2 by done.
    rewrite Hs', Hcatch in *.
    destruct cb as [pid n g c|pid n g c|pid n g c|pid n u|pid]; simpl in Hqp, Hq |- *.
    5: { apply legacy_settled_forever; [done| |done].
         by apply legacy_settle_pending. }
    all: rewrite <- Hqp;
      change (Alioss.promises s) with
        (Alioss.promises (Alioss.record (Alioss.ConsoleError e) s2));
      apply legacy_unowned_run;
        [done|by apply lookup_lt_Some in Hqp|done].
Qed.

(** X24. When the promise of [getConfig] is rejected, [_init] stops in
    its [catch]: the error goes to [console.error], no client is
    constructed, the options are not changed, the callback is not
    called, and the promise of the operation that was waiting is never
    settled. *)
Theorem rejected_config_is_only_reported (options : value)
    (tr tr' : list Alioss.input) (i : nat) (cb : Alioss.callback) (e : error) :
  let s := run (Alioss.new_Alioss options) tr in
  Alioss.inits s !! i = Some (Alioss.InitAwaitsConfig ReturnsPromise cb) →
  (∀ p, cb ≠ Alioss.CancelCallback p) →
  e ≠ Thrown VUndefined → e ≠ Thrown VNull →
  let s' := step s (Alioss.ConfigSettles i (inl e)) in
  Alioss.client s' = Alioss.client s ∧
  Alioss.opts s' = Alioss.opts s ∧
  Alioss.constructed s' = Alioss.constructed s ∧
  Alioss.calls s' = Alioss.calls s ∧
  Alioss.reported s' = Alioss.reported s ++ [e] ∧
  Alioss.promises s !! Alioss.callback_promise cb = Some Pending ∧
  Alioss.promises (run s' tr') !! Alioss.callback_promise cb = Some Pending.
Proof.
  intros s Hi Hcb Hu Hn s'.
  pose proof (legacy_owned_run options tr) as Ho. fold s in Ho.
  assert (Alioss.owned s') as Ho' by by apply legacy_owned_step.
  set (s1 := Alioss.with_inits (<[i := Alioss.InitReturned]> (Alioss.inits s)) s).
  assert (s' = Alioss.catch e cb s1) as Hs'.
  { subst s'. simpl. by rewrite Hi. }
  destruct (catch_frame e cb s1) as (H1 & H2 & _ & H4 & H5 & _ & H7).
  rewrite <- Hs' in *.
  split; [by rewrite H2|]. split; [by rewrite H1|]. split; [by rewrite H5|].
  split; [by rewrite H4|]. split; [by rewrite H7|].
  assert (Alioss.owners s ≡ₚ (Alioss.callback_promise cb :: Alioss.owners s1)) as Hperm.
  { unfold Alioss.owners. by rewrite (waiting_retire s i _ cb Hi). }
  destruct Ho as [Hnd Hpen]. rewrite Hperm in Hnd, Hpen.
  apply NoDup_cons in Hnd as [Hq Hnd]. apply Forall_cons in Hpen as [Hqp Hpen].
  split; [done|].
  assert (Alioss.owners s' = Alioss.owners s1 ∧
          Alioss.promises s' = Alioss.promises s) as [Hown Hprom].
  { rewrite Hs'. unfold Alioss.catch, Alioss.return_to.
    destruct cb; try (by destruct e as [|[]]). by destruct (Hcb pid). }
  rewrite <- Hqp, <- Hprom.
  apply legacy_unowned_run; [done| |by rewrite Hown].
  rewrite Hprom. by apply lookup_lt_Some in Hqp.
Qed.

(** ** What the operations hand to the client *)

Lemma sends_nothing cb s s' :
  Alioss.calls s' = Alioss.calls s → Alioss.sends cb s s'.
Proof. intros H. exists []. rewrite H, app_nil_r. split; [done|constructor]. Qed.

Lemma sends_frame cb s s' s1 s1' :
  Alioss.calls s1 = Alioss.calls s → Alioss.calls s1' = Alioss.calls s' →
  Alioss.opts s1' = Alioss.opts s' →
  Alioss.sends cb s s' → Alioss.sends cb s1 s1'.
Proof. unfold Alioss.sends. intros -> -> ->. done. Qed.

Lemma sends_settle cb p o s s' :
  Alioss.sends cb s s' → Alioss.sends cb s (Alioss.settle p o s').
Proof.
  destruct (legacy_settle_frame p o s') as (Ho & _ & _ & Hk & _).
  by apply sends_frame.
Qed.

Lemma run_callback_sends cb s : Alioss.sends cb s (run_callback cb s).
Proof.
  destruct cb as [pid n f c|pid n f c|pid n f c|pid n u|pid]; simpl.
  - destruct (generateName_frame n s) as (Ho & _ & _ & _ & Hk & _).
    destruct (_generateName n s) as [[e|path] s1]; simpl in *.
    + by apply sends_nothing.
    + eexists. unfold Alioss.start_call. simpl. rewrite Hk. split; [done|].
      repeat constructor. intros _. by eexists pid, n, f, c, path.
  - destruct (generateName_frame n s) as (Ho & _ & _ & _ & Hk & _).
    destruct (_generateName n s) as [[e|path] s1]; simpl in *.
    + by apply sends_nothing.
    + eexists. unfold Alioss.start_call. simpl. rewrite Hk. split; [done|].
      by repeat constructor.
  - eexists. split; [done|]. by repeat constructor.
  - eexists. split; [done|]. by repeat constructor.
  - by apply sends_nothing.
Qed.

Lemma call_back_sends cb s : Alioss.sends cb s (call_back cb s).
Proof.
  unfold Alioss.call_back, Alioss.return_to.
  assert (Alioss.sends cb s (if callback_is_Function then run_callback cb s else s)) as H.
  { destruct callback_is_Function; [apply run_callback_sends|by apply sends_nothing]. }
  destruct cb; try done. by apply sends_settle.
Qed.

Lemma catch_sends e cb s : Alioss.sends cb s (Alioss.catch e cb s).
Proof.
  destruct (catch_frame e cb s) as (_ & _ & _ & Hk & _). by apply sends_nothing.
Qed.

Lemma construct_sends cb s : Alioss.sends cb s (construct cb s).
Proof.
  unfold Alioss.construct. case_match; [apply catch_sends|].
  set (s1 := Alioss.with_client _ _).
  apply (sends_frame cb s1 (call_back cb s1)); try done. apply call_back_sends.
Qed.

Lemma legacy_init_sends cb s :
  Alioss.sends cb s (_init cb s) ∧
  (Alioss.inits (_init cb s) = Alioss.inits s ∨
   ∃ f, Alioss.inits (_init cb s) = Alioss.inits s ++ [Alioss.InitAwaitsConfig f cb]).
Proof.
  unfold Alioss._init. destruct (Alioss.client s).
  { split; [apply call_back_sends|].
    left. by destruct (call_back_frame cb s) as (_ & _ & -> & _). }
  case_match.
  - case_match;
      try (split; [apply catch_sends|];
           left; by destruct (catch_frame TypeError cb s) as (_ & _ & -> & _)).
    split; [by apply sends_nothing|]. right. by eexists.
  - split; [apply construct_sends|].
    left. by destruct (construct_frame cb s) as (_ & -> & _).
Qed.

Lemma legacy_resume_init_sends i cb r s :
  Alioss.sends cb s (resume_init i cb r s) ∧
  Alioss.inits (resume_init i cb r s) = <[i := Alioss.InitReturned]> (Alioss.inits s).
Proof.
  unfold Alioss.resume_init.
  set (s1 := Alioss.with_inits _ s).
  destruct r as [e|v].
  - split; [apply (sends_frame cb s1 (Alioss.catch e cb s1)); try done;
            apply catch_sends|].
    by destruct (catch_frame e cb s1) as (_ & _ & -> & _).
  - set (s2 := Alioss.with_opts _ s1).
    split; [apply (sends_frame cb s2 (construct cb s2)); try done;
            apply construct_sends|].
    by destruct (construct_frame cb s2) as (_ & -> & _).
Qed.

Lemma legacy_same_request_refl (l : list Alioss.backend_call) :
  Forall2 Alioss.same_request l l.
Proof. induction l; constructor; done. Qed.

Lemma legacy_same_request_retire (l : list Alioss.backend_call) k c :
  l !! k = Some c →
  Forall2 Alioss.same_request l
    (<[k := Alioss.BackendCall (Alioss.call_method c) (Alioss.call_promise c)
              (Alioss.call_args c) false]> l).
Proof.
  revert k; induction l as [|a l IH]; intros [|k] H; simplify_eq/=.
  - constructor; [done|apply legacy_same_request_refl].
  - constructor; [done|by apply IH].
Qed.

(** The calls after a step: the requests made before, and those of the
    callback the step has called, which is the callback of the
    operation called or one that waited for [getConfig]. *)
Lemma legacy_step_sends s i :
  ∃ old new,
    Alioss.calls (step s i) = old ++ new ∧
    Forall2 Alioss.same_request (Alioss.calls s) old ∧
    Forall (fun bc =>
              Alioss.call_method bc = Alioss.ClientPut →
              ∃ name file config path,
                Alioss.call_args bc =
                  [VStr path; file;
                   legacy_upload_config (Alioss.opts (step s i)) config] ∧
                (i = Alioss.CallUpload name file config ∨
                 ∃ j f pid,
                   Alioss.inits s !! j =
                   Some (Alioss.InitAwaitsConfig f
                           (Alioss.UploadCallback pid name file config)))) new.
Proof.
  assert (∀ s', Alioss.calls s' = Alioss.calls s →
    ∃ old new,
      Alioss.calls s' = old ++ new ∧
      Forall2 Alioss.same_request (Alioss.calls s) old ∧
      Forall (fun bc =>
                Alioss.call_method bc = Alioss.ClientPut →
                ∃ name file config path,
                  Alioss.call_args bc =
                    [VStr path; file; legacy_upload_config (Alioss.opts s') config] ∧
                  (i = Alioss.CallUpload name file config ∨
                   ∃ j f pid,
                     Alioss.inits s !! j =
                     Some (Alioss.InitAwaitsConfig f
                             (Alioss.UploadCallback pid name file config)))) new)
    as Hsame.
  { intros s' H. exists (Alioss.calls s), []. rewrite H, app_nil_r.
    split_and!; [done|apply legacy_same_request_refl|constructor]. }
  assert (∀ cb s',
    Alioss.sends cb s s' →
    (∀ pid name file config, cb = Alioss.UploadCallback pid name file config →
       i = Alioss.CallUpload name file config ∨
       ∃ j f pid,
         Alioss.inits s !! j =
         Some (Alioss.InitAwaitsConfig f (Alioss.UploadCallback pid name file config))) →
    ∃ old new,
      Alioss.calls s' = old ++ new ∧
      Forall2 Alioss.same_request (Alioss.calls s) old ∧
      Forall (fun bc =>
                Alioss.call_method bc = Alioss.ClientPut →
                ∃ name file config path,
                  Alioss.call_args bc =
                    [VStr path; file; legacy_upload_config (Alioss.opts s') config] ∧
                  (i = Alioss.CallUpload name file config ∨
                   ∃ j f pid,
                     Alioss.inits s !! j =
                     Some (Alioss.InitAwaitsConfig f
                             (Alioss.UploadCallback pid name file config)))) new)
    as Hsends.
  { intros cb s' (new & Hk & Hall) Hcb. exists (Alioss.calls s), new.
    split_and!; [done|apply legacy_same_request_refl|].
    eapply Forall_impl; [exact Hall|]. simpl.
    intros bc H Hm. destruct (H Hm) as (pid & name & file & config & path & -> & Ha).
    exists name, file, config, path. split; [done|]. by eapply Hcb. }
  assert (∀ cb, Alioss.sends cb s (_init cb (Alioss.new_promise s).2)) as Hop.
  { intros cb.
    apply (sends_frame cb (Alioss.new_promise s).2 (_init cb (Alioss.new_promise s).2));
      try done.
    apply legacy_init_sends. }
  destruct i as [n f c|n f c|n f c|n u| |j r|j|k r]; cbn [Alioss.step].
  - apply (Hsends (Alioss.UploadCallback (length (Alioss.promises s)) n f c)).
    + apply Hop.
    + intros pid name file config H. left. by simplify_eq.
  - apply (Hsends (Alioss.MultipartCallback (length (Alioss.promises s)) n f c));
      [apply Hop|done].
  - apply (Hsends (Alioss.ResumeCallback (length (Alioss.promises s)) n f c));
      [apply Hop|done].
  - apply (Hsends (Alioss.AbortCallback (length (Alioss.promises s)) n u));
      [apply Hop|done].
  - apply (Hsends (Alioss.CancelCallback (length (Alioss.promises s))));
      [apply Hop|done].
  - destruct (Alioss.inits s !! j) as [[|[] cb]|] eqn:Hj; try (by apply Hsame).
    apply (Hsends cb); [apply legacy_resume_init_sends|].
    intros pid name file config ->. right. by eexists j, _, pid.
  - destruct (Alioss.inits s !! j) as [[|[] cb]|] eqn:Hj; try (by apply Hsame).
    apply (Hsends cb); [apply legacy_resume_init_sends|].
    intros pid name file config ->. right. by eexists j, _, pid.
  - unfold Alioss.resume_callback.
    destruct (Alioss.calls s !! k) as [c|] eqn:Hk; [|by apply Hsame].
    destruct (Alioss.call_live c); [|by apply Hsame].
    pose proof (legacy_same_request_retire (Alioss.calls s) k c Hk) as Hold.
    set (s1 := Alioss.with_calls _ s).
    assert (∀ s', Alioss.calls s' = Alioss.calls s1 →
      ∃ old new,
        Alioss.calls s' = old ++ new ∧
        Forall2 Alioss.same_request (Alioss.calls s) old ∧
        Forall (fun bc =>
                  Alioss.call_method bc = Alioss.ClientPut →
                  ∃ name file config path,
                    Alioss.call_args bc =
                      [VStr path; file; legacy_upload_config (Alioss.opts s') config] ∧
                    (Alioss.BackendSettles k r = Alioss.CallUpload name file config ∨
                     ∃ j f pid,
                       Alioss.inits s !! j =
                       Some (Alioss.InitAwaitsConfig f
                               (Alioss.UploadCallback pid name file config)))) new)
      as Hsame1.
    { intros s' H. exists (Alioss.calls s1), []. rewrite H, app_nil_r.
      split_and!; [done|exact Hold|constructor]. }
    destruct r as [e|v]; simpl;
      destruct (Alioss.call_method c); try destruct (_formatResult _);
      apply Hsame1;
      repeat match goal with
             | |- context [Alioss.settle ?p ?o ?x] =>
                 destruct (legacy_settle_frame p o x) as (_ & _ & _ & -> & _)
             end; done.
Qed.

(** The tasks that wait for [getConfig], after a step. *)
Lemma legacy_step_waits s i j f pid name file config :
  Alioss.inits (step s i) !! j =
    Some (Alioss.InitAwaitsConfig f (Alioss.UploadCallback pid name file config)) →
  i = Alioss.CallUpload name file config ∨
  Alioss.inits s !! j =
    Some (Alioss.InitAwaitsConfig f (Alioss.UploadCallback pid name file config)).
Proof.
  assert (∀ cb,
    Alioss.inits (_init cb (Alioss.new_promise s).2) !! j =
      Some (Alioss.InitAwaitsConfig f (Alioss.UploadCallback pid name file config)) →
    cb = Alioss.UploadCallback pid name file config ∨
    Alioss.inits s !! j =
      Some (Alioss.InitAwaitsConfig f (Alioss.UploadCallback pid name file config)))
    as Hop.
  { intros cb H.
    destruct (legacy_init_sends cb (Alioss.new_promise s).2) as [_ [Hi|[g Hi]]];
      rewrite Hi in H; [by right|].
    change (Alioss.inits (Alioss.new_promise s).2) with (Alioss.inits s) in H.
    apply lookup_app_Some in H as [H|[_ H]]; [by right|].
    left. apply list_lookup_singleton_Some in H as [_ H]. by simplify_eq. }
  assert (∀ i0 cb r,
    Alioss.inits (resume_init i0 cb r s) !! j =
      Some (Alioss.InitAwaitsConfig f (Alioss.UploadCallback pid name file config)) →
    Alioss.inits s !! j =
      Some (Alioss.InitAwaitsConfig f (Alioss.UploadCallback pid name file config)))
    as Hres.
  { intros i0 cb r H.
    destruct (legacy_resume_init_sends i0 cb r s) as [_ Hi]. rewrite Hi in H.
    destruct (decide (i0 = j)) as [->|Hne].
    - destruct (decide (j < length (Alioss.inits s))) as [Hlt|Hge].
      + by rewrite list_lookup_insert_eq in H.
      + rewrite list_insert_ge in H by lia. done.
    - by rewrite list_lookup_insert_ne in H. }
  destruct i as [n g c|n g c|n g c|n u| |j0 r|j0|k r]; cbn [Alioss.step]; intros H.
  - destruct (Hop _ H) as [Hcb|Hin]; [left; by simplify_eq|by right].
  - destruct (Hop _ H) as [Hcb|Hin]; [done|by right].
  - destruct (Hop _ H) as [Hcb|Hin]; [done|by right].
  - destruct (Hop _ H) as [Hcb|Hin]; [done|by right].
  - destruct (Hop _ H) as [Hcb|Hin]; [done|by right].
  - right. destruct (Alioss.inits s !! j0) as [[|[] cb]|] eqn:Hj; try done.
    by eapply Hres.
  - right. destruct (Alioss.inits s !! j0) as [[|[] cb]|] eqn:Hj; try done.
    by eapply Hres.
  - right. by destruct (resume_callback_frame k r s) as (_ & _ & <- & _).
Qed.

(** A callback of [upload] that waits for [getConfig] is the one of a
    call of [upload]. *)
Lemma waiting_upload_was_called options tr j f pid name file config :
  Alioss.inits (run (Alioss.new_Alioss options) tr) !! j =
    Some (Alioss.InitAwaitsConfig f (Alioss.UploadCallback pid name file config)) →
  Alioss.CallUpload name file config ∈ tr.
Proof.
  revert j f pid. induction tr as [|i tr IH] using rev_ind; intros j f pid H.
  - done.
  - rewrite run_snoc in H. apply elem_of_app.
    destruct (legacy_step_waits _ _ _ _ _ _ _ _ H) as [->|H'].
    + right. by apply list_elem_of_singleton.
    + left. by eapply IH.
Qed.

(** Every call of the client's [put] was made by the callback of a
    call of [upload], during some step [i] of the trace, with the
    configuration of the call under the instance's as it was then. *)
Lemma legacy_put_provenance options tr bc :
  bc ∈ Alioss.calls (run (Alioss.new_Alioss options) tr) →
  Alioss.call_method bc = Alioss.ClientPut →
  ∃ tr1 i tr2 name file config path,
    tr = tr1 ++ i :: tr2 ∧
    Alioss.CallUpload name file config ∈ tr1 ++ [i] ∧
    Alioss.call_args bc =
      [VStr path; file;
       deepMerge (VObj config)
         (Alioss.opt "config" (run (Alioss.new_Alioss options) (tr1 ++ [i])))].
Proof.
  revert bc. induction tr as [|i tr IH] using rev_ind; intros bc Hin Hm.
  - by apply elem_of_nil in Hin.
  - rewrite run_snoc in Hin.
    destruct (legacy_step_sends (run (Alioss.new_Alioss options) tr) i)
      as (old & new & Hk & Hold & Hnew).
    rewrite Hk in Hin. apply elem_of_app in Hin as [Hin|Hin].
    + apply list_elem_of_lookup in Hin as [n Hn].
      destruct (Forall2_lookup_r _ _ _ _ _ Hold Hn) as (bc0 & H0 & S1 & _ & S3).
      destruct (IH bc0) as (tr1 & i0 & tr2 & name & file & config & path & -> & Hc & Ha).
      { by eapply list_elem_of_lookup_2. }
      { congruence. }
      exists tr1, i0, (tr2 ++ [i]), name, file, config, path.
      rewrite <- S3. split; [|done]. by rewrite <- app_assoc.
    + rewrite Forall_forall in Hnew.
      destruct (Hnew _ Hin Hm) as (name & file & config & path & Ha & Hfrom).
      exists tr, i, [], name, file, config, path.
      split; [done|]. split.
      * apply elem_of_app. destruct Hfrom as [->|(j & f & pid & Hj)].
        -- right. by apply list_elem_of_singleton.
        -- left. by eapply waiting_upload_was_called.
      * by rewrite run_snoc.
Qed.



Lemma call_back_upload s pid n root file config :
  callback_is_Function = true → n ≠ "" →
  Alioss.opt "rootPath" s = VStr root →
  call_back (Alioss.UploadCallback pid (VStr n) file config) s =
  Alioss.start_call Alioss.ClientPut pid
    [VStr (strip_slash (root +:+ "/" +:+ generateGUID (Alioss.guids s) +:+ "." +:+
                        interpolate (js_pop (js_split "." n))));
     file; deepMerge (VObj config) (Alioss.opt "config" s)]
    (Alioss.with_guids (S (Alioss.guids s)) s).
Proof.
  intros Hf Hn Hroot. unfold Alioss.call_back. rewrite Hf. simpl.
  unfold Alioss._generateName.
  assert (truthy (VStr n) = true) as -> by by destruct n.
  simpl. by rewrite Hroot.
Qed.

(** X25. [upload] merges the other way round than [put] of [AliOSS]:
    it hands the client [deepMerge(config, this.opts.config)], so for a
    key of the instance's [config] the value of the instance is merged
    over the value of the call and wins unless both are mappings, and
    the configuration of the call counts only for the keys the instance
    does not have.  This holds for every call of the client's [put] on
    every run of an instance; the call is made at once by an [upload]
    that finds the client or constructs it, and after [getConfig] has
    answered by an [upload] that waited for it, then with the
    [config] of the options merged with the answer. *)
Theorem legacy_upload_lets_the_instance_win (options : value)
    (tr : list Alioss.input) :
  let s := run (Alioss.new_Alioss options) tr in
  (∀ bc, bc ∈ Alioss.calls s → Alioss.call_method bc = Alioss.ClientPut →
     ∃ tr1 i tr2 name file config path,
       tr = tr1 ++ i :: tr2 ∧
       Alioss.CallUpload name file config ∈ tr1 ++ [i] ∧
       Alioss.call_args bc =
         [VStr path; file;
          deepMerge (VObj config)
            (Alioss.opt "config" (run (Alioss.new_Alioss options) (tr1 ++ [i])))]) ∧
  (∀ s' n root file config,
     callback_is_Function = true → n ≠ "" →
     Alioss.opt "rootPath" s' = VStr root →
     Alioss.client s' ≠ None ∨
     truthy (Alioss.opt "async" s') = false ∧
     oss_rejects (Alioss.picked (Alioss.opts s')) = None →
     ∃ path,
       Alioss.calls (step s' (Alioss.CallUpload (VStr n) file config)) =
       Alioss.calls s' ++
       [Alioss.BackendCall Alioss.ClientPut (length (Alioss.promises s'))
          [VStr path; file; deepMerge (VObj config) (Alioss.opt "config" s')] true]) ∧
  (∀ s' j f pid n root file config v resumption,
     callback_is_Function = true → n ≠ "" →
     Alioss.inits s' !! j =
       Some (Alioss.InitAwaitsConfig f
               (Alioss.UploadCallback pid (VStr n) file config)) →
     f = ReturnsPromise ∧ resumption = Alioss.ConfigSettles j (inr v) ∨
     f = ReturnsNothing ∧ resumption = Alioss.InitResumes j ∧ v = VUndefined →
     let merged := assign (Alioss.opts s') (own_props (js_or v (VObj []))) in
     oss_rejects (Alioss.picked merged) = None →
     get "rootPath" (VObj merged) = VStr root →
     ∃ path,
       Alioss.calls (step s' resumption) =
       Alioss.calls s' ++
       [Alioss.BackendCall Alioss.ClientPut pid
          [VStr path; file; deepMerge (VObj config) (get "config" (VObj merged))]
          true]) ∧
  (∀ config oc,
     let handed := deepMerge (VObj config) (VObj oc) in
     (∀ k v, lookup_field k oc = Some v →
        get k handed = deepMerge (get k (VObj config)) v ∧
        (is_obj (get k (VObj config)) && is_obj v = false → get k handed = v)) ∧
     (∀ k, lookup_field k oc = None → get k handed = get k (VObj config))).
Proof.
  intros s. split_and!.
  - intros bc Hin Hm. by apply legacy_put_provenance.
  - intros s' n root file config Hf Hn Hroot Hclient.
    eexists. cbn [Alioss.step]. unfold Alioss.upload. simpl.
    set (s1 := Alioss.with_promises _ s').
    assert (_init (Alioss.UploadCallback (length (Alioss.promises s')) (VStr n) file config) s1
            = call_back (Alioss.UploadCallback (length (Alioss.promises s')) (VStr n)
                           file config)
                (match Alioss.client s' with
                 | Some _ => s1
                 | None =>
                     Alioss.with_client
                       (Some (Handle (Alioss.picked (Alioss.opts s'))))
                       (Alioss.record (Alioss.NewOSS (Alioss.picked (Alioss.opts s'))) s1)
                 end)) as ->.
    { unfold Alioss._init, Alioss.construct.
      change (Alioss.client s1) with (Alioss.client s').
      change (Alioss.opt "async" s1) with (Alioss.opt "async" s').
      change (Alioss.opts s1) with (Alioss.opts s').
      destruct (Alioss.client s') as [h|]; [done|].
      destruct Hclient as [?|[-> ->]]; done. }
    rewrite (call_back_upload _ _ n root) by (try done; by destruct (Alioss.client s')).
    unfold Alioss.start_call. simpl. by destruct (Alioss.client s').
  - intros s' j f pid n root file config v resumption Hf Hn Hj Hres merged Hacc Hroot.
    eexists.
    assert (step s' resumption =
            resume_init j (Alioss.UploadCallback pid (VStr n) file config) (inr v) s')
      as ->.
    { destruct Hres as [[-> ->]|(-> & -> & ->)]; cbn [Alioss.step]; by rewrite Hj. }
    unfold Alioss.resume_init, Alioss.construct.
    set (s1 := Alioss.with_inits _ s').
    change (assign (Alioss.opts s1) (own_props (js_or v (VObj [])))) with merged.
    set (s2 := Alioss.with_opts merged s1).
    change (Alioss.opts s2) with merged. rewrite Hacc.
    rewrite (call_back_upload _ _ n root) by done.
    reflexivity.
  - intros config oc handed. split.
    + intros k v Hk.
      assert (get k handed = deepMerge (get k (VObj config)) v) as Hget
        by (unfold handed; by rewrite get_deepMerge, Hk).
      split; [done|]. intros Hleaf. rewrite Hget. by apply deepMerge_leaf.
    + intros k Hk. unfold handed. by rewrite get_deepMerge, Hk.
Qed.
End AliossProperties.

(** ** The configuration handed to the client's [put], in both classes *)


(** ** The claims on concrete runs *)

(** The hypotheses of a theorem at a concrete input, by evaluation. *)
Ltac at_input T :=
  cbv zeta in T;
  repeat match type of T with
         | ?A → _ =>
             let h := fresh "h" in
             assert (h : A) by (vm_compute; first [reflexivity | discriminate]);
             specialize (T h); clear h
         end.

Lemma C1_witness :
  forallb is_upload
    [CallPut "a.txt" (VStr "A") []; CallMultipartUpload "b.bin" (VStr "B") [];
     InitResumes 0] = true ∧
  let s := sample_run (new_AliOSS sample_keys)
             [CallPut "a.txt" (VStr "A") [];
              CallMultipartUpload "b.bin" (VStr "B") []; InitResumes 0] in
  length (constructed s) ≤ 1 ∧ provider_calls s ≤ 1.
Proof.
  pose proof (C1_at_most_one_client sample_generateFilename sample_formatResponse
                sample_oss_rejects sample_keys
                [CallPut "a.txt" (VStr "A") [];
                 CallMultipartUpload "b.bin" (VStr "B") []; InitResumes 0]) as T.
  at_input T. destruct T as (H1 & H2 & _).
  vm_compute in H1, H2. vm_compute.
  split; [reflexivity|]. exact (conj H1 H2).
Defined.


(** The first call of a fresh instance: its task runs when [#init] is
    resumed; with [retryCount = 2] three failures end the upload. *)
Lemma C3_witness :
  let s := sample_run (new_AliOSS (sample_keys ++ [("retryCount", VNum 2)]))
             [CallMultipartUpload "a.bin" (VStr "A") []; InitResumes 0] in
  let c := BackendCall MultipartUpload 0 "/1-a.bin" (VStr "A")
             (VObj [("headers", VObj [("Cache-Control", VStr "public")])]) true in
  client s = Some (sample_handle [("retryCount", VNum 2)]) ∧
  event s = [] ∧
  opt "retryCount" s = VNum (Z.of_nat 2) ∧
  calls s !! 0 = Some c ∧ call_live c = true ∧ call_method c = MultipartUpload ∧
  promises s !! call_promise c = Some Pending ∧
  retryQueue s !! call_path c = None ∧
  retired "/1-a.bin" sample_error 0 0 1 1 [] 2
    (sample_run s (failures 0 1 sample_error 3)).
Proof.
  pose proof (C3_bounded_retry sample_generateFilename sample_formatResponse
                sample_oss_rejects
                (run sample_generateFilename sample_formatResponse sample_oss_rejects
                   (new_AliOSS (sample_keys ++ [("retryCount", VNum 2)]))
                   [CallMultipartUpload "a.bin" (VStr "A") []; InitResumes 0])
                (sample_handle [("retryCount", VNum 2)]) 2 0
                (BackendCall MultipartUpload 0 "/1-a.bin" (VStr "A")
                   (VObj [("headers", VObj [("Cache-Control", VStr "public")])])
                   true)
                sample_error) as T.
  at_input T. destruct T as [_ H].
  vm_compute in H. vm_compute.
  do 8 (split; [reflexivity|]). exact H.
Defined.

(** The resubmission succeeds at its first attempt; the call that failed
    stays rejected. *)
Lemma C4_witness :
  let options := sample_keys ++ [("retryCount", VNum 2)] in
  let tr := [CallMultipartUpload "a.bin" (VStr "A") []; InitResumes 0] in
  let c := BackendCall MultipartUpload 0 "/1-a.bin" (VStr "A")
             (VObj [("headers", VObj [("Cache-Control", VStr "public")])]) true in
  let s := sample_run (new_AliOSS options) tr in
  let s' := sample_run s [BackendSettles 0 (inl sample_error) false] in
  let s'' := sample_run s' [BackendSettles 1 (inr (VStr "done")) false] in
  calls s !! 0 = Some c ∧ call_live c = true ∧ call_method c = MultipartUpload ∧
  resubmitted s' ≠ resubmitted s ∧
  promises s'' !! 0 = Some (Rejected sample_error) ∧
  promises s'' !! 1 =
    Some (Resolved (VObj [("code", VStr "200"); ("data", VStr "done")])).
Proof.
  pose proof (C4_retry_is_detached sample_generateFilename sample_formatResponse
                sample_oss_rejects (sample_keys ++ [("retryCount", VNum 2)])
                [CallMultipartUpload "a.bin" (VStr "A") []; InitResumes 0]
                [BackendSettles 1 (inr (VStr "done")) false] 0
                (BackendCall MultipartUpload 0 "/1-a.bin" (VStr "A")
                   (VObj [("headers", VObj [("Cache-Control", VStr "public")])])
                   true)
                sample_error false) as T.
  at_input T. destruct T as (_ & _ & _ & _ & H).
  vm_compute in H. vm_compute.
  do 3 (split; [reflexivity|]). split; [discriminate|].
  split; [exact H | reflexivity].
Defined.


Lemma C6_witness :
  let tr := [CallMultipartUpload "a.bin" (VStr "A") []; InitResumes 0] in
  let c := BackendCall MultipartUpload 0 "/1-a.bin" (VStr "A")
             (VObj [("headers", VObj [("Cache-Control", VStr "public")])]) true in
  let s := sample_run (new_AliOSS sample_keys) tr in
  let s' := sample_run s [BackendSettles 0 (inl sample_error) true] in
  calls s !! 0 = Some c ∧ call_live c = true ∧ call_method c = MultipartUpload ∧
  client s = Some (sample_handle []) ∧
  promises s' !! 0 = Some (Rejected sample_error) ∧
  retryQueue s' = retryQueue s ∧
  resubmitted s' = resubmitted s.
Proof.
  pose proof (C6_cancellation_is_terminal sample_generateFilename
                sample_formatResponse sample_oss_rejects sample_keys
                [CallMultipartUpload "a.bin" (VStr "A") []; InitResumes 0] 0
                (BackendCall MultipartUpload 0 "/1-a.bin" (VStr "A")
                   (VObj [("headers", VObj [("Cache-Control", VStr "public")])])
                   true)
                (sample_handle []) sample_error) as T.
  at_input T. destruct T as (H1 & H2 & H3 & _).
  vm_compute in H1, H2, H3. vm_compute.
  do 4 (split; [reflexivity|]). exact (conj H1 (conj H2 H3)).
Defined.

Lemma C7_witness :
  let tr := [CallPut "a.txt" (VStr "A") []] in
  let tr' := [CallMultipartUpload "b.bin" (VStr "B") []; InitResumes 0;
              InitResumes 1] in
  let e := Thrown (VStr "require accessKeyId, accessKeySecret") in
  forallb is_upload tr = true ∧ forallb is_upload tr' = true ∧
  stores (sample_run (new_AliOSS []) tr) !! 0 = Some (StoreThrew e) ∧
  let s' := sample_run (sample_run (new_AliOSS []) tr) tr' in
  client s' = None ∧ constructed s' = [] ∧ executed s' = [] ∧
  Forall (eq Pending) (promises s').
Proof.
  pose proof (C7_failed_construction_stalls sample_generateFilename
                sample_formatResponse sample_oss_rejects []
                [CallPut "a.txt" (VStr "A") []]
                [CallMultipartUpload "b.bin" (VStr "B") []; InitResumes 0;
                 InitResumes 1]
                0 (Thrown (VStr "require accessKeyId, accessKeySecret"))) as T.
  at_input T.
  vm_compute in T. vm_compute.
  do 3 (split; [reflexivity|]). exact T.
Defined.

Lemma C8_witness :
  let s := sample_run (new_AliOSS sample_async) [CallPut "a.txt" (VStr "A") []] in
  let s' := sample_run s [ProviderSettles 0 (inl sample_error)] in
  stores s !! 0 = Some StoreAwaitsProvider ∧
  opts s' = opts s ∧ promises s' = promises s ∧
  provider_calls s' = provider_calls s.
Proof.
  pose proof (C8_provider_result sample_generateFilename sample_formatResponse
                sample_oss_rejects
                (run sample_generateFilename sample_formatResponse sample_oss_rejects
                   (new_AliOSS sample_async) [CallPut "a.txt" (VStr "A") []])
                0 (inl sample_error)) as T.
  at_input T. destruct T as (H1 & H2 & _ & H4 & H5 & _).
  pose proof (eq_trans H1 (H2 sample_error eq_refl)) as H0.
  vm_compute in H0, H4, H5. vm_compute.
  split; [reflexivity|]. exact (conj H0 (conj H4 H5)).
Defined.


Lemma C10_witness :
  let s := sample_run (new_AliOSS sample_async) [CallPut "a.txt" (VStr "A") []] in
  let call := CallPut "b.txt" (VStr "B") [] in
  let tr' := [ProviderSettles 0 (inr (VObj [])); InitResumes 0; InitResumes 1] in
  is_upload_call call = true ∧ client s = None ∧ event s ≠ [] ∧
  let s' := sample_run (sample_run s [call]) tr' in
  stores s' !! 1 = Some StoreDeferred ∧
  inits s' !! 1 = Some (InitAwaitsStore 1) ∧
  ∀ j ks, (j, ks) ∈ drains s' → j ≠ 1.
Proof.
  pose proof (C10_follower_never_settles sample_generateFilename
                sample_formatResponse sample_oss_rejects sample_async
                [CallPut "a.txt" (VStr "A") []]
                [ProviderSettles 0 (inr (VObj [])); InitResumes 0; InitResumes 1]
                (CallPut "b.txt" (VStr "B") [])) as T.
  at_input T. destruct T as (_ & H2 & H3 & H4).
  vm_compute in H2, H3, H4. vm_compute.
  split; [reflexivity|]. split; [reflexivity|]. split; [discriminate|].
  exact (conj H2 (conj H3 H4)).
Defined.

(** ** Where the code departs from the description *)


(** C7.  Without credentials [new OSS] throws.  The two callers are
    left with pending promises, not with rejected ones, and their tasks
    are never executed. *)
Lemma C7_counterexample :
  let s := sample_run (new_AliOSS [])
             [CallPut "a.txt" (VStr "A") [];
              CallMultipartUpload "b.bin" (VStr "B") [];
              InitResumes 0; InitResumes 1] in
  stores s =
    [StoreThrew (Thrown (VStr "require accessKeyId, accessKeySecret"));
     StoreDeferred] ∧
  promises s = [Pending; Pending] ∧
  executed s = [] ∧
  ¬ ∃ e, promises s !! 0 = Some (Rejected e).
Proof.
  vm_compute. repeat split. intros [e He]. discriminate He.
Qed.

(** C10.  The first call waits for the provider, the second defers.
    When the provider has answered and the client is constructed, a third
    call arrives before the first call's [#init] is resumed: it finds the
    client and drains the queue.  The task of the second call (key 1) is
    executed by the drain of the third call's [#init] (number 2); the
    drain of the first call's [#init] (number 0) finds the queue empty. *)
Lemma C10_counterexample :
  let s := sample_run (new_AliOSS sample_async)
             [CallPut "a.txt" (VStr "A") []; CallPut "b.txt" (VStr "B") []] in
  let s' := sample_run s
              [ProviderSettles 0 (inr (VObj [("bucket", VStr "media")]));
               CallPut "c.txt" (VStr "C") []; InitResumes 0] in
  client s = None ∧
  stores s = [StoreAwaitsProvider; StoreDeferred] ∧
  inits s = [InitAwaitsStore 0; InitAwaitsStore 1] ∧
  (event s).*1 = [0; 1] ∧
  drains s' = [(2, [0; 1; 2]); (0, [])].
Proof. vm_compute. repeat split. Qed.


(** Five concurrent calls on a fresh instance with a provider: one
    construction, one provider call, and the tasks run in the order of
    the calls. *)
Example five_calls_one_client :
  let s := sample_run (new_AliOSS sample_async)
             [CallPut "1.txt" (VStr "1") [];
              CallMultipartUpload "2.bin" (VStr "2") [];
              CallPut "3.txt" (VStr "3") [];
              CallPut "4.txt" (VStr "4") [];
              CallMultipartUpload "5.bin" (VStr "5") [];
              ProviderSettles 0 (inr VUndefined);
              InitResumes 0] in
  length (constructed s) = 1 ∧ provider_calls s = 1 ∧
  executed s = [0; 1; 2; 3; 4] ∧ drains s = [(0, [0; 1; 2; 3; 4])] ∧
  call_promise <$> calls s = [0; 1; 2; 3; 4].
Proof. vm_compute. repeat split. Qed.

(** The single flight is that of [put] and [multipartUpload]: a direct
    call of [getStore] made while the first call waits for the provider
    finds the queue at length 1 as well, asks the provider again and
    constructs a client of its own. *)
Example direct_getStore_constructs_again :
  let s := sample_run (new_AliOSS sample_async)
             [CallPut "a.txt" (VStr "A") []; CallGetStore;
              ProviderSettles 0 (inr VUndefined);
              ProviderSettles 1 (inr VUndefined)] in
  length (constructed s) = 2 ∧ provider_calls s = 2.
Proof. vm_compute. repeat split. Qed.

(** ** The further properties on concrete runs *)

Ltac at_case T :=
  cbv zeta in T;
  repeat match type of T with
         | ?A → _ =>
             let h := fresh "h" in
             assert (h : A)
               by (vm_compute;
                   first [reflexivity | discriminate | intros; discriminate
                         | intros; reflexivity]);
             specialize (T h); clear h
         end.

Lemma options_change_only_with_the_provider_witness :
  let i := CallPut "a.txt" (VStr "A") [("timeout", VNum 5)] in
  (∀ g r, i ≠ ProviderSettles g r) ∧
  opts (sample_run (sample_ready []) [i]) = opts (sample_ready []).
Proof.
  pose proof (options_change_only_with_the_provider sample_generateFilename
                sample_formatResponse sample_oss_rejects (sample_ready [])
                (CallPut "a.txt" (VStr "A") [("timeout", VNum 5)])) as T.
  at_case T. vm_compute in T. vm_compute.
  split; [intros g r; discriminate|exact T].
Defined.

Lemma construction_never_sees_the_provider_witness :
  let s := sample_run (new_AliOSS sample_async)
             [CallPut "a.txt" (VStr "A") [];
              ProviderSettles 0 (inr (VObj [("bucket", VStr "b")]))] in
  length (constructed s) = 1 ∧
  Forall (fun o => lookup_field "async" o = None ∧ lookup_field "getOptions" o = None)
    (constructed s).
Proof.
  pose proof (construction_never_sees_the_provider sample_generateFilename
                sample_formatResponse sample_oss_rejects sample_async
                [CallPut "a.txt" (VStr "A") [];
                 ProviderSettles 0 (inr (VObj [("bucket", VStr "b")]))]) as T.
  cbv zeta in T. destruct T as [H _].
  split; [vm_compute; reflexivity|].
  apply Forall_forall. exact H.
Defined.

(** Without the keys [new OSS] throws, and nothing runs. *)
Lemma nothing_runs_without_a_client_witness :
  let s := sample_run (new_AliOSS [])
             [CallPut "a.txt" (VStr "A") []; CallGetStore; InitResumes 0] in
  client s = None ∧ executed s = [] ∧ calls s = [] ∧
  Forall (eq Pending) (promises s).
Proof.
  pose proof (nothing_runs_without_a_client sample_generateFilename
                sample_formatResponse sample_oss_rejects []
                [CallPut "a.txt" (VStr "A") []; CallGetStore; InitResumes 0]) as T.
  at_case T. destruct T as (H1 & _ & H2 & _ & H3 & _).
  vm_compute in H1, H2, H3. vm_compute.
  split; [reflexivity|]. exact (conj H1 (conj H2 H3)).
Defined.

(** [getStore] on a fresh instance, and an upload after it. *)
Lemma getStore_off_the_queue_never_settles_witness :
  let s := new_AliOSS sample_keys in
  let tr := [CallPut "a.txt" (VStr "A") []; InitResumes 0] in
  client s = None ∧ event_length s ≠ 1 ∧
  stores (sample_run (sample_run s [CallGetStore]) tr) !! 0 = Some StoreDeferred.
Proof.
  pose proof (getStore_off_the_queue_never_settles sample_generateFilename
                sample_formatResponse sample_oss_rejects (new_AliOSS sample_keys)
                [CallPut "a.txt" (VStr "A") []; InitResumes 0]) as T.
  at_case T. destruct T as (_ & _ & _ & _ & H).
  vm_compute in H. vm_compute.
  split; [reflexivity|]. split; [discriminate|exact H].
Defined.

(** [new AliOSS({async: true})] with the keys. *)
Lemma async_without_provider_stalls_witness :
  let options := sample_keys ++ [("async", VBool true)] in
  let s0 := new_AliOSS options in
  let tr := [CallMultipartUpload "b.bin" (VStr "B") []; InitResumes 0; InitResumes 1] in
  let s := sample_run (sample_run s0 [CallPut "a.txt" (VStr "A") []]) tr in
  truthy (opt "async" s0) = true ∧
  opt "getOptions" s0 ≠ VFun ReturnsPromise ∧
  client s = None ∧ executed s = [] ∧ promises s = [Pending; Pending].
Proof.
  pose proof (async_without_provider_stalls sample_generateFilename
                sample_formatResponse sample_oss_rejects
                (sample_keys ++ [("async", VBool true)])
                (CallPut "a.txt" (VStr "A") [])
                [CallMultipartUpload "b.bin" (VStr "B") []; InitResumes 0;
                 InitResumes 1]) as T.
  at_case T. destruct T as (_ & H1 & _ & H2 & _).
  vm_compute in H1, H2. vm_compute.
  split; [reflexivity|]. split; [discriminate|].
  split; [exact H1|]. split; [exact H2|reflexivity].
Defined.

Lemma put_failure_is_final_witness :
  let tr := [CallPut "a.txt" (VStr "A") []; InitResumes 0] in
  let c := BackendCall Put 0 "/1-a.txt" (VStr "A")
             (VObj [("headers", VObj [("Cache-Control", VStr "public")])]) true in
  let s := sample_run (new_AliOSS sample_keys) tr in
  let s' := sample_run s [BackendSettles 0 (inl sample_error) false] in
  calls s !! 0 = Some c ∧ call_live c = true ∧ call_method c = Put ∧
  promises s' !! 0 = Some (Rejected sample_error) ∧
  retryQueue s' = retryQueue s ∧ resubmitted s' = resubmitted s.
Proof.
  pose proof (put_failure_is_final sample_generateFilename sample_formatResponse
                sample_oss_rejects sample_keys
                [CallPut "a.txt" (VStr "A") []; InitResumes 0] [] 0
                (BackendCall Put 0 "/1-a.txt" (VStr "A")
                   (VObj [("headers", VObj [("Cache-Control", VStr "public")])])
                   true)
                sample_error false) as T.
  at_case T. destruct T as (H1 & _ & H2 & H3 & _).
  vm_compute in H1, H2, H3. vm_compute.
  do 3 (split; [reflexivity|]). exact (conj H1 (conj H2 H3)).
Defined.

Lemma success_resolves_with_the_formatted_result_witness :
  let tr := [CallPut "a.txt" (VStr "A") []; InitResumes 0] in
  let c := BackendCall Put 0 "/1-a.txt" (VStr "A")
             (VObj [("headers", VObj [("Cache-Control", VStr "public")])]) true in
  let s := sample_run (new_AliOSS sample_keys) tr in
  let s' := sample_run s [BackendSettles 0 (inr (VStr "done")) false] in
  calls s !! 0 = Some c ∧ call_live c = true ∧
  promises s' !! 0 =
    Some (Resolved (VObj [("code", VStr "200"); ("data", VStr "done")])).
Proof.
  pose proof (success_resolves_with_the_formatted_result sample_generateFilename
                sample_formatResponse sample_oss_rejects sample_keys
                [CallPut "a.txt" (VStr "A") []; InitResumes 0] [] 0
                (BackendCall Put 0 "/1-a.txt" (VStr "A")
                   (VObj [("headers", VObj [("Cache-Control", VStr "public")])])
                   true)
                (VStr "done") false) as T.
  at_case T. destruct T as (H1 & _).
  vm_compute in H1. vm_compute.
  do 2 (split; [reflexivity|]). exact H1.
Defined.

(** The first call has constructed the client and its [#init] has not
    resumed yet: the task waits for that resumption. *)
Lemma no_task_is_stranded_witness :
  let tr := [CallPut "a.txt" (VStr "A") []] in
  let s := sample_run (new_AliOSS sample_keys) tr in
  forallb is_upload tr = true ∧
  client s = Some (sample_handle []) ∧
  event s ≠ [] ∧
  executed (sample_run s [InitResumes 0]) = registered s.
Proof.
  pose proof (no_task_is_stranded sample_generateFilename sample_formatResponse
                sample_oss_rejects sample_keys
                [CallPut "a.txt" (VStr "A") []]
                (sample_handle [])) as T.
  at_case T. destruct T as [[H _]|(_ & _ & _ & _ & _ & H & _)].
  - vm_compute in H. discriminate H.
  - vm_compute in H. vm_compute.
    do 2 (split; [reflexivity|]). split; [discriminate|exact H].
Defined.



Lemma getStore_beside_an_upload_constructs_again_witness :
  let s := sample_run (new_AliOSS sample_async) [CallPut "a.txt" (VStr "A") []] in
  let tr := [CallGetStore;
             ProviderSettles 0 (inr (VObj [("bucket", VStr "one")]));
             ProviderSettles 1 (inr (VObj [("bucket", VStr "two")]))] in
  client s = None ∧ event_length s = 1 ∧
  stores s !! 0 = Some StoreAwaitsProvider ∧
  length (constructed (sample_run s tr)) = 2 ∧
  provider_calls (sample_run s tr) = 2.
Proof.
  pose proof (getStore_beside_an_upload_constructs_again sample_generateFilename
                sample_formatResponse sample_oss_rejects
                (run sample_generateFilename sample_formatResponse sample_oss_rejects
                   (new_AliOSS sample_async) [CallPut "a.txt" (VStr "A") []])
                0 (inr (VObj [("bucket", VStr "one")]))
                (inr (VObj [("bucket", VStr "two")]))) as T.
  at_case T. destruct T as (_ & _ & H & _).
  apply (f_equal length) in H. vm_compute in H. vm_compute.
  do 3 (split; [reflexivity|]). split; [exact H|reflexivity].
Defined.

Lemma suffix_is_cut_at_the_last_dot_witness :
  mentions "." "jpg" = false ∧
  Alioss.suffix (VStr "img/photo.2024.jpg") = inr ".jpg" ∧
  Alioss.suffix (VStr "jpg") = inr ".jpg".
Proof.
  pose proof (suffix_is_cut_at_the_last_dot "img/photo.2024" "jpg") as T.
  at_case T. split; [reflexivity|exact T].
Defined.

Lemma formatResult_needs_the_response_witness :
  get "res" (or_default VUndefined (VObj [])) = VUndefined ∧
  Alioss._formatResult sample_object_to_string VUndefined = inl TypeError.
Proof.
  pose proof (formatResult_needs_the_response sample_object_to_string VUndefined) as T.
  split; [reflexivity|]. apply T. left. reflexivity.
Defined.

(** A response with status 200. *)
Lemma formatResult_of_a_response_witness :
  (Z.abs (default 500 (Some 200)) < 2 ^ 53)%Z ∧
  Alioss._formatResult sample_object_to_string
    (oss_result (Some "a/b.tar.gz") (Some "http://h/a/b.tar.gz") (Some 200%Z) None) =
  inr (VObj [("code", VStr "200");
             ("data", VObj [("name", VStr "a/b.tar.gz");
                            ("url", VStr "http://h/a/b.tar.gz");
                            ("suffix", VStr ".gz");
                            ("size", VNum 0)])]).
Proof.
  pose proof (formatResult_of_a_response sample_object_to_string
                (Some "a/b.tar.gz") (Some "http://h/a/b.tar.gz") (Some 200%Z) None) as T.
  cbv zeta in T. destruct T as (_ & T & _).
  split; [vm_compute; reflexivity|].
  rewrite T; [vm_compute; reflexivity|vm_compute; reflexivity].
Defined.

Lemma generateName_keeps_the_suffix_only_witness :
  let s := Alioss.new_Alioss (VObj [("rootPath", VStr "/media")]) in
  Alioss.opt "rootPath" s = VStr "/media" ∧ mentions "." "jpg" = false ∧
  (Alioss._generateName sample_generateGUID sample_object_to_string
     (VStr "img/photo.2024.jpg") s).1 = inr "media/guid0.jpg".
Proof.
  pose proof (generateName_keeps_the_suffix_only sample_generateGUID
                sample_object_to_string
                (Alioss.new_Alioss (VObj [("rootPath", VStr "/media")]))
                "img/photo.2024" "jpg" "/media") as T.
  at_case T. destruct T as (_ & H & _).
  apply (f_equal fst) in H. vm_compute in H. vm_compute.
  do 2 (split; [reflexivity|]). exact H.
Defined.

(** An instance of [Alioss] with the keys, [upload] called once. *)
Lemma legacy_failure_rejects_witness :
  let tr := [Alioss.CallUpload (VStr "a.txt") (VStr "A") []] in
  let s := legacy_run true (Alioss.new_Alioss (VObj sample_keys)) tr in
  (∃ c, Alioss.calls s !! 0 = Some c ∧ Alioss.call_live c = true) ∧
  Alioss.promises (legacy_run true s [Alioss.BackendSettles 0 (inl sample_error)]) !! 0
  = Some (Rejected sample_error).
Proof.
  pose proof (legacy_failure_rejects sample_generateGUID sample_oss_rejects
                sample_object_to_string true (VObj sample_keys)
                [Alioss.CallUpload (VStr "a.txt") (VStr "A") []] [] 0
                (Alioss.BackendCall Alioss.ClientPut 0
                   [VStr "guid0.txt"; VStr "A";
                    VObj [("headers", VObj [("Cache-Control", VStr "public")])]] true)
                sample_error) as T.
  at_case T. destruct T as (_ & H & _).
  vm_compute in H. vm_compute.
  split; [eexists; split; reflexivity|exact H].
Defined.

Lemma legacy_success_resolves_or_hangs_witness :
  let tr := [Alioss.CallUpload (VStr "a.txt") (VStr "A") []] in
  let s := legacy_run true (Alioss.new_Alioss (VObj sample_keys)) tr in
  (∃ c, Alioss.calls s !! 0 = Some c ∧ Alioss.call_live c = true) ∧
  Alioss.promises
    (legacy_run true s [Alioss.BackendSettles 0 (inr (VObj [("name", VStr "guid0.txt")]))])
    !! 0
  = Some Pending.
Proof.
  pose proof (legacy_success_resolves_or_hangs sample_generateGUID sample_oss_rejects
                sample_object_to_string true (VObj sample_keys)
                [Alioss.CallUpload (VStr "a.txt") (VStr "A") []] [] 0
                (Alioss.BackendCall Alioss.ClientPut 0
                   [VStr "guid0.txt"; VStr "A";
                    VObj [("headers", VObj [("Cache-Control", VStr "public")])]] true)
                (VObj [("name", VStr "guid0.txt")])) as T.
  at_case T. vm_compute in T. vm_compute.
  split; [eexists; split; reflexivity|exact T].
Defined.


Lemma sync_init_constructs_once_witness :
  let s0 := Alioss.new_Alioss (VObj sample_keys) in
  let tr := [Alioss.CallUpload (VStr "a.txt") (VStr "A") [];
             Alioss.CallMultipartUpload (VStr "b.bin") (VStr "B") [];
             Alioss.CallCancel] in
  truthy (Alioss.opt "async" s0) = false ∧
  length (Alioss.constructed (legacy_run true s0 tr)) = 1 ∧
  Alioss.config_calls (legacy_run true s0 tr) = 0.
Proof.
  pose proof (sync_init_constructs_once sample_generateGUID sample_oss_rejects
                sample_object_to_string true (VObj sample_keys)
                [Alioss.CallUpload (VStr "a.txt") (VStr "A") [];
                 Alioss.CallMultipartUpload (VStr "b.bin") (VStr "B") [];
                 Alioss.CallCancel]) as T.
  at_case T. destruct T as (_ & H & _).
  vm_compute in H. vm_compute.
  split; [reflexivity|]. split; [reflexivity|exact H].
Defined.

(** Three operations before the first configuration arrives. *)
Lemma async_init_constructs_per_call_witness :
  let options := VObj [("async", VBool true); ("getConfig", VFun ReturnsPromise)] in
  let ops := [Alioss.CallUpload (VStr "a.txt") (VStr "A") [];
              Alioss.CallUpload (VStr "b.txt") (VStr "B") [];
              Alioss.CallCancel] in
  let vs := [VObj [("bucket", VStr "one")]; VUndefined; VObj [("bucket", VStr "two")]] in
  let s := Alioss.run sample_generateGUID sample_oss_accepts sample_object_to_string true
             (Alioss.new_Alioss options) (ops ++ config_results vs) in
  truthy (Alioss.opt "async" (Alioss.new_Alioss options)) = true ∧
  (∀ o, sample_oss_accepts o = None) ∧
  length (Alioss.constructed s) = 3 ∧ Alioss.config_calls s = 3.
Proof.
  pose proof (async_init_constructs_per_call sample_generateGUID sample_oss_accepts
                sample_object_to_string true
                (VObj [("async", VBool true); ("getConfig", VFun ReturnsPromise)])
                [Alioss.CallUpload (VStr "a.txt") (VStr "A") [];
                 Alioss.CallUpload (VStr "b.txt") (VStr "B") [];
                 Alioss.CallCancel]
                [VObj [("bucket", VStr "one")]; VUndefined;
                 VObj [("bucket", VStr "two")]]) as T.
  at_case T. destruct T as (_ & H1 & H2 & _).
  vm_compute in H1, H2. vm_compute.
  split; [reflexivity|]. split; [reflexivity|]. exact (conj H2 H1).
Defined.

(** Without the keys [new OSS] throws: at the first [upload] of an
    instance without [async], and after [getConfig] has answered on an
    instance with it. *)
Lemma failed_construction_is_only_reported_witness :
  let e := Thrown (VStr "require accessKeyId, accessKeySecret") in
  e ≠ Thrown VUndefined ∧ e ≠ Thrown VNull ∧
  (let s := legacy_run true (Alioss.new_Alioss VUndefined) [] in
   let s' := legacy_run true s [Alioss.CallUpload (VStr "a.txt") (VStr "A") []] in
   Alioss.client s = None ∧
   sample_oss_rejects (Alioss.picked (Alioss.opts s)) = Some e ∧
   Alioss.reported s' = [e] ∧
   Alioss.promises
     (legacy_run true s' [Alioss.CallUpload (VStr "b.txt") (VStr "B") []]) !! 0
   = Some Pending) ∧
  (let options := VObj [("async", VBool true); ("getConfig", VFun ReturnsPromise)] in
   let cb := Alioss.UploadCallback 0 (VStr "a.txt") (VStr "A") [] in
   let answer := VObj [("bucket", VStr "media")] in
   let s := legacy_run true (Alioss.new_Alioss options)
              [Alioss.CallUpload (VStr "a.txt") (VStr "A") []] in
   let s' := legacy_run true s [Alioss.ConfigSettles 0 (inr answer)] in
   Alioss.inits s !! 0 = Some (Alioss.InitAwaitsConfig ReturnsPromise cb) ∧
   sample_oss_rejects
     (Alioss.picked (assign (Alioss.opts s) (own_props (js_or answer (VObj [])))))
   = Some e ∧
   Alioss.opt "bucket" s' = VStr "media" ∧
   Alioss.client s' = None ∧ Alioss.constructed s' = [] ∧ Alioss.calls s' = [] ∧
   Alioss.reported s' = [e] ∧
   Alioss.promises
     (legacy_run true s' [Alioss.CallUpload (VStr "b.txt") (VStr "B") []]) !! 0
   = Some Pending).
Proof.
  pose proof (failed_construction_is_only_reported sample_generateGUID
                sample_oss_rejects sample_object_to_string true VUndefined []
                [Alioss.CallUpload (VStr "b.txt") (VStr "B") []]
                (Thrown (VStr "require accessKeyId, accessKeySecret"))) as T.
  pose proof (failed_construction_is_only_reported sample_generateGUID
                sample_oss_rejects sample_object_to_string true
                (VObj [("async", VBool true); ("getConfig", VFun ReturnsPromise)])
                [Alioss.CallUpload (VStr "a.txt") (VStr "A") []]
                [Alioss.CallUpload (VStr "b.txt") (VStr "B") []]
                (Thrown (VStr "require accessKeyId, accessKeySecret"))) as U.
  at_case T. at_case U. destruct T as [T _]. destruct U as [_ U].
  specialize (T (Alioss.CallUpload (VStr "a.txt") (VStr "A") [])).
  at_case T. destruct T as (_ & _ & _ & T1 & T2).
  specialize (U 0 ReturnsPromise
                (Alioss.UploadCallback 0 (VStr "a.txt") (VStr "A") [])
                (VObj [("bucket", VStr "media")])
                (Alioss.ConfigSettles 0 (inr (VObj [("bucket", VStr "media")])))).
  at_case U. specialize (U (or_introl (conj eq_refl eq_refl))).
  at_case U. destruct U as (U1 & U2 & U3 & U4 & U5 & _ & U7).
  vm_compute in T1, T2, U1, U2, U3, U4, U5, U7. vm_compute.
  do 2 (split; [intros; discriminate|]).
  split.
  - do 2 (split; [reflexivity|]). exact (conj T1 T2).
  - do 2 (split; [reflexivity|]).
    split; [reflexivity|].
    exact (conj U1 (conj U3 (conj U4 (conj U5 U7)))).
Defined.

Lemma rejected_config_is_only_reported_witness :
  let options := VObj (sample_keys ++
                       [("async", VBool true); ("getConfig", VFun ReturnsPromise)]) in
  let cb := Alioss.UploadCallback 0 (VStr "a.txt") (VStr "A") [] in
  let s := legacy_run true (Alioss.new_Alioss options)
             [Alioss.CallUpload (VStr "a.txt") (VStr "A") []] in
  let s' := legacy_run true s [Alioss.ConfigSettles 0 (inl sample_error)] in
  Alioss.inits s !! 0 = Some (Alioss.InitAwaitsConfig ReturnsPromise cb) ∧
  Alioss.reported s' = [sample_error] ∧
  Alioss.constructed s' = [] ∧
  Alioss.promises s' !! 0 = Some Pending.
Proof.
  pose proof (rejected_config_is_only_reported sample_generateGUID
                sample_oss_rejects sample_object_to_string true
                (VObj (sample_keys ++
                       [("async", VBool true); ("getConfig", VFun ReturnsPromise)]))
                [Alioss.CallUpload (VStr "a.txt") (VStr "A") []] [] 0
                (Alioss.UploadCallback 0 (VStr "a.txt") (VStr "A") [])
                sample_error) as T.
  at_case T. destruct T as (_ & _ & H1 & _ & H2 & _ & H3).
  vm_compute in H1, H2, H3. vm_compute.
  split; [reflexivity|]. exact (conj H2 (conj H1 H3)).
Defined.

(** The first [upload] of an instance: the client is constructed and
    the instance's [Cache-Control] wins over the one of the call. *)
Lemma legacy_upload_lets_the_instance_win_witness :
  let s := Alioss.new_Alioss (VObj sample_keys) in
  let config := [("headers", VObj [("Cache-Control", VStr "no-cache")]);
                 ("timeout", VNum 5)] in
  Alioss.client s = None ∧
  (truthy (Alioss.opt "async" s) = false ∧
   sample_oss_rejects (Alioss.picked (Alioss.opts s)) = None) ∧
  ∃ path handed,
    Alioss.calls (legacy_run true s [Alioss.CallUpload (VStr "a.txt") (VStr "A") config])
    = [Alioss.BackendCall Alioss.ClientPut 0 [VStr path; VStr "A"; handed] true] ∧
    get "headers" handed = VObj [("Cache-Control", VStr "public")] ∧
    get "timeout" handed = VNum 5.
Proof.
  pose proof (legacy_upload_lets_the_instance_win sample_generateGUID
                sample_oss_rejects sample_object_to_string true
                (VObj sample_keys) []) as T.
  cbv zeta in T. destruct T as (_ & T & _ & K).
  specialize (T (Alioss.new_Alioss (VObj sample_keys)) "a.txt" "" (VStr "A")
                [("headers", VObj [("Cache-Control", VStr "no-cache")]);
                 ("timeout", VNum 5)]).
  at_case T.
  assert (truthy (Alioss.opt "async" (Alioss.new_Alioss (VObj sample_keys))) = false ∧
          sample_oss_rejects
            (Alioss.picked (Alioss.opts (Alioss.new_Alioss (VObj sample_keys)))) = None)
    as Hsync by (vm_compute; split; reflexivity).
  destruct (T (or_intror Hsync)) as [path H].
  destruct (K [("headers", VObj [("Cache-Control", VStr "no-cache")]);
               ("timeout", VNum 5)]
              [("headers", VObj [("Cache-Control", VStr "public")])]) as [K1 K2].
  split; [reflexivity|]. split; [exact Hsync|].
  exists path, (deepMerge
                  (VObj [("headers", VObj [("Cache-Control", VStr "no-cache")]);
                         ("timeout", VNum 5)])
                  (VObj [("headers", VObj [("Cache-Control", VStr "public")])])).
  split; [exact H|]. split.
  - destruct (K1 "headers" (VObj [("Cache-Control", VStr "public")]) eq_refl) as [-> _].
    vm_compute. reflexivity.
  - rewrite (K2 "timeout" eq_refl). vm_compute. reflexivity.
Defined.

